(** * Two canvas mini-games: the grid Snake and the continuous Slither.

    Shallow embedding of the simulation code of
    [src/components/SnakeGame.tsx] and [src/components/SlitherGame.tsx],
    and the properties of the per-tick and per-frame updates. *)

From Stdlib Require Import ZArith List Bool Lia String.
From Stdlib Require Import Reals Lra.
From Equations Require Import Equations.
Import ListNotations.

Local Open Scope Z_scope.

(** ** The grid game, [SnakeGame.tsx] *)

Module SnakeGame.

(** [interface Position { x: number; y: number }].  Grid cells only ever
    hold integers: they start from integer literals and change by [+= 1],
    [-= 1] or [Math.floor]. *)
Record Position : Type := mkPos { px : Z; py : Z }.

(** [interface Food] has the same two fields. *)
Definition Food : Type := Position.

(** The [direction] state is a string that only ever receives the four
    literals below ([useState<string>('RIGHT')] and the four
    [setDirection] calls). *)
Inductive Direction : Type := UP | DOWN | LEFT | RIGHT.

Definition GRID_SIZE : Z := 20.
Definition CANVAS_WIDTH : Z := 600.
Definition CANVAS_HEIGHT : Z := 400.

(** The six [useState] cells of the component. *)
Record State : Type := mkState {
  snake : list Position;
  food : Food;
  direction : Direction;
  gameOver : bool;
  score : Z;
  gameRunning : bool
}.

(** The values of the [useState] initialisers. *)
Definition initialState : State :=
  {| snake := [mkPos 10 10];
     food := mkPos 15 15;
     direction := RIGHT;
     gameOver := false;
     score := 0;
     gameRunning := false |}.

Definition setSnake (s : list Position) (st : State) : State :=
  mkState s (food st) (direction st) (gameOver st) (score st) (gameRunning st).
Definition setFood (f : Food) (st : State) : State :=
  mkState (snake st) f (direction st) (gameOver st) (score st) (gameRunning st).
Definition setDirection (d : Direction) (st : State) : State :=
  mkState (snake st) (food st) d (gameOver st) (score st) (gameRunning st).
Definition setGameOver (b : bool) (st : State) : State :=
  mkState (snake st) (food st) (direction st) b (score st) (gameRunning st).
Definition setScore (f : Z -> Z) (st : State) : State :=
  mkState (snake st) (food st) (direction st) (gameOver st) (f (score st))
          (gameRunning st).
Definition setGameRunning (b : bool) (st : State) : State :=
  mkState (snake st) (food st) (direction st) (gameOver st) (score st) b.

(** [Math.random()] returns a binary64 number of [0, 1), which the
    engines make of 53 random bits: a draw is the integer [k] of the number
    [k / 2 ^ 53]. *)
Definition unit_draw (k : Z) : Prop := 0 <= k < 2 ^ 53.

(** [N / 2 ^ shift] rounded to the nearest integer, ties to even. *)
Definition roundHalfEven (N shift : Z) : Z :=
  let q := N / 2 ^ shift in
  let r := N mod 2 ^ shift in
  let half := 2 ^ (shift - 1) in
  if r <? half then q
  else if half <? r then q + 1
  else if Z.even q then q else q + 1.

(** [Math.random() * n] for the draw [k] and a non-negative integer [n],
    as the numerator of the binary64 product over [2 ^ 53]: the exact
    product [k * n] when it has at most 53 significant bits, and otherwise
    rounded to 53 significant bits. *)
Definition scaledDraw (k n : Z) : Z :=
  let N := k * n in
  let shift := Z.log2 N + 1 - 53 in
  if shift <=? 0 then N else roundHalfEven N shift * 2 ^ shift.

(** [Math.floor(Math.random() * n)]. *)
Definition floorScaledDraw (k n : Z) : Z := scaledDraw k n / 2 ^ 53.

(** [generateFood].  The two calls of [Math.random()] are the draws [rx]
    and [ry], in the order the object literal evaluates them.
    [CANVAS_WIDTH / GRID_SIZE] is [30] and [CANVAS_HEIGHT / GRID_SIZE] is
    [20], both exact. *)
Definition generateFood (rx ry : Z) : Food :=
  let maxX := CANVAS_WIDTH / GRID_SIZE - 1 in
  let maxY := CANVAS_HEIGHT / GRID_SIZE - 1 in
  {| px := floorScaledDraw rx maxX;
     py := floorScaledDraw ry maxY |}.

Definition resetGame (rx ry : Z) (st : State) : State :=
  {| snake := [mkPos 10 10];
     food := generateFood rx ry;
     direction := RIGHT;
     gameOver := false;
     score := 0;
     gameRunning := false |}.

Definition startGame (st : State) : State :=
  if negb (gameRunning st) && negb (gameOver st)
  then setGameRunning true st
  else st.

(** The [switch (direction)] of [moveSnake], on a copy of the head. *)
Definition offsetHead (d : Direction) (head : Position) : Position :=
  match d with
  | UP => mkPos (px head) (py head - 1)
  | DOWN => mkPos (px head) (py head + 1)
  | LEFT => mkPos (px head - 1) (py head)
  | RIGHT => mkPos (px head + 1) (py head)
  end.

(** The wall test. *)
Definition hitsWall (head : Position) : bool :=
  (px head <? 0) || (px head >=? CANVAS_WIDTH / GRID_SIZE)
  || (py head <? 0) || (py head >=? CANVAS_HEIGHT / GRID_SIZE).

(** [segment.x === head.x && segment.y === head.y]. *)
Definition sameCell (segment head : Position) : bool :=
  (px segment =? px head) && (py segment =? py head).

(** One tick of [moveSnake].

    A snake without segments does not occur (the list starts with one
    segment and no tick shortens it); there the source builds a head of
    [NaN] coordinates, passes every test, and [unshift] followed by [pop]
    gives back an empty list, which is the [nil] branch below. *)
Definition moveSnake (rx ry : Z) (st : State) : State :=
  if negb (gameRunning st) || gameOver st then st
  else
    match snake st with
    | [] => st
    | h0 :: _ =>
        let currentSnake := snake st in
        let head := offsetHead (direction st) h0 in
        if hitsWall head then
          setGameRunning false (setGameOver true st)
        else if existsb (fun segment => sameCell segment head) currentSnake then
          setGameRunning false (setGameOver true st)
        else
          let newSnake := head :: currentSnake in
          if sameCell head (food st) then
            setSnake newSnake
              (setScore (fun prev => prev + 10)
                 (setFood (generateFood rx ry) st))
          else
            setSnake (removelast newSnake) st
    end.

Definition direction_eqb (a b : Direction) : bool :=
  match a, b with
  | UP, UP | DOWN, DOWN | LEFT, LEFT | RIGHT, RIGHT => true
  | _, _ => false
  end.

(** [handleKeyPress], on the [key] string of the keyboard event. *)
Definition handleKeyPress (key : string) (st : State) : State :=
  if negb (gameRunning st) && negb (gameOver st) then st
  else if String.eqb key "ArrowUp" then
    if negb (direction_eqb (direction st) DOWN) then setDirection UP st else st
  else if String.eqb key "ArrowDown" then
    if negb (direction_eqb (direction st) UP) then setDirection DOWN st else st
  else if String.eqb key "ArrowLeft" then
    if negb (direction_eqb (direction st) RIGHT) then setDirection LEFT st else st
  else if String.eqb key "ArrowRight" then
    if negb (direction_eqb (direction st) LEFT) then setDirection RIGHT st else st
  else if String.eqb key " " then startGame st
  else st.

(** What reaches the component: the interval timer, the keyboard and the
    two buttons.  Every state change re-renders the component before the
    next event, so each event is handled by callbacks that have captured
    the state the previous event left. *)
Inductive Event : Type :=
| Tick (rx ry : Z)
| KeyDown (key : string)
| ClickStart
| ClickPlayAgain (rx ry : Z).

Definition handle (st : State) (e : Event) : State :=
  match e with
  | Tick rx ry => moveSnake rx ry st
  | KeyDown key => handleKeyPress key st
  | ClickStart => startGame st
  | ClickPlayAgain rx ry => resetGame rx ry st
  end.

Definition run (events : list Event) (st : State) : State :=
  fold_left handle events st.

(** The direct opposite of a direction. *)
Definition opposite (d : Direction) : Direction :=
  match d with
  | UP => DOWN
  | DOWN => UP
  | LEFT => RIGHT
  | RIGHT => LEFT
  end.

(** The cell the next tick moves the head to. *)
Definition newHead (st : State) : option Position :=
  match snake st with
  | [] => None
  | h0 :: _ => Some (offsetHead (direction st) h0)
  end.

(** The scenario of the specification: a running game, the snake at
    (10,10) heading right, the food at (11,10). *)
Definition scenarioState : State :=
  {| snake := [mkPos 10 10];
     food := mkPos 11 10;
     direction := RIGHT;
     gameOver := false;
     score := 0;
     gameRunning := true |}.

(** A play from the initial state: the snake eats three times, turns in
    a square, and the third food has been placed on what is then its
    tail, (15,16).  The draws are 17/32 for the column 15, 7/8 for the
    row 16 and 15/16 for the row 17. *)
Definition squarePlay : list Event :=
  let tick := Tick 0 0 in
  [ClickStart; tick; tick; tick; tick; tick; KeyDown "ArrowDown";
   tick; tick; tick; tick; Tick (17 * 2 ^ 48) (7 * 2 ^ 50);
   Tick (17 * 2 ^ 48) (15 * 2 ^ 49); Tick (17 * 2 ^ 48) (7 * 2 ^ 50);
   KeyDown "ArrowLeft"; tick; KeyDown "ArrowUp"; tick;
   KeyDown "ArrowRight"].

Definition squareState : State :=
  {| snake := [mkPos 14 16; mkPos 14 17; mkPos 15 17; mkPos 15 16];
     food := mkPos 15 16;
     direction := RIGHT;
     gameOver := false;
     score := 30;
     gameRunning := true |}.

(** A play in which two arrow keys arrive between two ticks. *)
Definition twoKeysPlay : list Event :=
  [KeyDown "ArrowUp"; KeyDown "ArrowLeft"].

(** A two-segment snake heading right, as it is after its first meal. *)
Definition twoSegments : State :=
  {| snake := [mkPos 11 10; mkPos 10 10];
     food := mkPos 3 3;
     direction := RIGHT;
     gameOver := false;
     score := 10;
     gameRunning := true |}.

(** The snake one step from the right wall. *)
Definition atRightWall : State :=
  {| snake := [mkPos 29 10; mkPos 28 10];
     food := mkPos 3 3;
     direction := RIGHT;
     gameOver := false;
     score := 10;
     gameRunning := true |}.

(** A finished game. *)
Definition finishedState : State :=
  setGameRunning false (setGameOver true atRightWall).

(** A draw that [Math.floor(Math.random() * n)] takes to [cell]: the
    middle of the cell. *)
Definition drawFor (cell n : Z) : Z := ((2 * cell + 1) * 2 ^ 53) / (2 * n).

Definition cellsBelow (count : nat) : list Z := map Z.of_nat (seq 0 count).

(** A cell of the 30 x 20 grid. *)
Definition inGrid (p : Position) : Prop :=
  0 <= px p < CANVAS_WIDTH / GRID_SIZE /\ 0 <= py p < CANVAS_HEIGHT / GRID_SIZE.

(** Two cells that share a side. *)
Definition adjacent (a b : Position) : Prop :=
  Z.abs (px a - px b) + Z.abs (py a - py b) = 1.

(** Every segment is adjacent to the next one. *)
Fixpoint chained (l : list Position) : Prop :=
  match l with
  | a :: (b :: _) as rest => adjacent a b /\ chained rest
  | _ => True
  end.

(** The draws an event carries are draws of [Math.random()]. *)
Definition unitDraws (e : Event) : Prop :=
  match e with
  | Tick rx ry | ClickPlayAgain rx ry => unit_draw rx /\ unit_draw ry
  | KeyDown _ | ClickStart => True
  end.

(** The ways a tick ends. *)
Inductive TickOutcome (rx ry : Z) (st : State) : State -> Prop :=
| TickIgnored :
    negb (gameRunning st) || gameOver st = true \/ snake st = [] ->
    TickOutcome rx ry st st
| TickCollision h0 rest :
    snake st = h0 :: rest ->
    gameRunning st = true -> gameOver st = false ->
    hitsWall (offsetHead (direction st) h0)
    || existsb (fun segment => sameCell segment (offsetHead (direction st) h0))
               (snake st) = true ->
    TickOutcome rx ry st (setGameRunning false (setGameOver true st))
| TickEat h0 rest :
    snake st = h0 :: rest ->
    gameRunning st = true -> gameOver st = false ->
    hitsWall (offsetHead (direction st) h0) = false ->
    existsb (fun segment => sameCell segment (offsetHead (direction st) h0))
            (snake st) = false ->
    offsetHead (direction st) h0 = food st ->
    TickOutcome rx ry st
      (setSnake (offsetHead (direction st) h0 :: snake st)
         (setScore (fun prev => prev + 10)
            (setFood (generateFood rx ry) st)))
| TickMove h0 rest :
    snake st = h0 :: rest ->
    gameRunning st = true -> gameOver st = false ->
    hitsWall (offsetHead (direction st) h0) = false ->
    existsb (fun segment => sameCell segment (offsetHead (direction st) h0))
            (snake st) = false ->
    offsetHead (direction st) h0 <> food st ->
    TickOutcome rx ry st
      (setSnake (offsetHead (direction st) h0 :: removelast (snake st)) st).

(** The body of a snake as every play leaves it. *)
Definition wellFormed (l : list Position) : Prop :=
  l <> [] /\ Forall inGrid l /\ NoDup l /\ chained l.

(** The score counts the segments the snake has gained. *)
Definition scoreMatches (st : State) : Prop :=
  score st = 10 * (Z.of_nat (List.length (snake st)) - 1).

(** The calls on the 2D context that [draw] makes, in order. *)
Inductive Call : Type :=
| fillStyle (style : string)
| fillRect (x y w h : Z)
| strokeStyle (style : string)
| lineWidth (n : Z)
| beginPath
| moveTo (x y : Z)
| lineTo (x y : Z)
| stroke.

(** [for (let i = from; i <= limit; i += GRID_SIZE) body(i)]. *)
Equations? forEachStop (body : Z -> list Call) (limit i : Z) : list Call
  by wf (Z.to_nat (limit + 1 - i)) lt :=
  forEachStop body limit i with Z_le_dec i limit => {
    | left _ => body i ++ forEachStop body limit (i + GRID_SIZE);
    | right _ => [] }.
Proof. unfold GRID_SIZE. lia. Qed.

(** The square of a cell. *)
Definition cellRect (p : Position) : Call :=
  fillRect (px p * GRID_SIZE) (py p * GRID_SIZE) (GRID_SIZE - 2) (GRID_SIZE - 2).

(** The callback of [snake.forEach]. *)
Definition drawSegment (index : nat) (segment : Position) : list Call :=
  [fillStyle (if Nat.eqb index 0 then "hsl(var(--primary))"
              else "hsl(var(--primary) / 0.8)");
   cellRect segment].

Fixpoint drawSegments (index : nat) (segments : list Position) : list Call :=
  match segments with
  | [] => []
  | segment :: rest => drawSegment index segment ++ drawSegments (S index) rest
  end.

(** [draw]; [canvas] and [ctx] tell whether [canvasRef.current] and
    [canvas.getContext('2d')] are there. *)
Definition draw (canvas ctx : bool) (st : State) : list Call :=
  if negb canvas then []
  else if negb ctx then []
  else
    [fillStyle "hsl(var(--background))";
     fillRect 0 0 CANVAS_WIDTH CANVAS_HEIGHT;
     fillStyle "hsl(var(--primary))"]
    ++ drawSegments 0 (snake st)
    ++ [fillStyle "hsl(var(--destructive))"; cellRect (food st);
        strokeStyle "hsl(var(--border))"; lineWidth 1]
    ++ forEachStop (fun i => [beginPath; moveTo i 0; lineTo i CANVAS_HEIGHT;
                              stroke]) CANVAS_WIDTH 0
    ++ forEachStop (fun i => [beginPath; moveTo 0 i; lineTo CANVAS_WIDTH i;
                              stroke]) CANVAS_HEIGHT 0.

(** A rectangle inside the canvas. *)
Definition insideCanvas (c : Call) : Prop :=
  match c with
  | fillRect x y w h =>
      0 <= x /\ 0 <= y /\ x + w <= CANVAS_WIDTH /\ y + h <= CANVAS_HEIGHT
  | _ => True
  end.

Definition isFillRect (c : Call) : bool :=
  match c with fillRect _ _ _ _ => true | _ => false end.

Definition isStroke (c : Call) : bool :=
  match c with stroke => true | _ => false end.

End SnakeGame.

(** ** The continuous game, [SlitherGame.tsx] *)

Module SlitherGame.

Local Open Scope R_scope.

(** JavaScript numbers are read as real numbers: [Math.sqrt], [Math.cos],
    [Math.sin], [Math.max] and [Math.min] are the functions of the same
    name on [R], without rounding, infinities or [NaN].  The one exception
    is the food literal of [generateFood], [randomFood] below, whose
    products and sum are rounded with [binary64]: there the rounding
    decides whether a value reaches its bound. *)

Record Position : Type := mkPos { px : R; py : R }.

(** The [id] strings: ['player'] and [`ai_${n}`]. *)
Inductive SnakeId : Type :=
| player
| ai (n : Z).

Definition id_eqb (a b : SnakeId) : bool :=
  match a, b with
  | player, player => true
  | ai n, ai m => Z.eqb n m
  | _, _ => false
  end.

(** The [color] strings: ['hsl(var(--primary))'] and
    [`hsl(${hue}, 70%, ${lightness}%)`]. *)
Inductive Color : Type :=
| primary
| hsl (hue : R) (lightness : Z).

Record Snake : Type := mkSnake {
  id : SnakeId;
  segments : list Position;
  color : Color;
  isPlayer : bool;
  direction : R;
  speed : R;
  isDead : bool
}.

Record Food : Type := mkFood {
  fx : R;
  fy : R;
  fcolor : Color;
  size : R
}.

Definition CANVAS_WIDTH : R := 800.
Definition CANVAS_HEIGHT : R := 600.
Definition WORLD_WIDTH : R := 2000.
Definition WORLD_HEIGHT : R := 1500.
Definition SEGMENT_SIZE : R := 8.
Definition FOOD_COUNT : nat := 200.
Definition AI_SNAKE_COUNT : nat := 5.

(** The component's cells: the two [useRef] arrays, the [useState]
    values, and the stream [Math.random()] reads from. *)
Record World : Type := mkWorld {
  snakes : list Snake;
  foods : list Food;
  gameRunning : bool;
  gameOver : bool;
  score : Z;
  mousePos : Position;
  camera : Position;
  randomSource : nat -> R;
  randomUsed : nat
}.

(** What the callbacks of one render have captured: [gameLoop] reads
    [gameRunning] and [gameOver], [updateSnake] reads [mousePos] and
    [camera], all four as they were when the callbacks were created. *)
Record Render : Type := mkRender {
  r_gameRunning : bool;
  r_gameOver : bool;
  r_mousePos : Position;
  r_camera : Position
}.

Definition render (w : World) : Render :=
  mkRender (gameRunning w) (gameOver w) (mousePos w) (camera w).

Definition setSnakes (l : list Snake) (w : World) : World :=
  mkWorld l (foods w) (gameRunning w) (gameOver w) (score w) (mousePos w)
          (camera w) (randomSource w) (randomUsed w).
Definition setFoods (l : list Food) (w : World) : World :=
  mkWorld (snakes w) l (gameRunning w) (gameOver w) (score w) (mousePos w)
          (camera w) (randomSource w) (randomUsed w).
Definition setGameRunning (b : bool) (w : World) : World :=
  mkWorld (snakes w) (foods w) b (gameOver w) (score w) (mousePos w)
          (camera w) (randomSource w) (randomUsed w).
Definition setGameOver (b : bool) (w : World) : World :=
  mkWorld (snakes w) (foods w) (gameRunning w) b (score w) (mousePos w)
          (camera w) (randomSource w) (randomUsed w).
Definition setScore (f : Z -> Z) (w : World) : World :=
  mkWorld (snakes w) (foods w) (gameRunning w) (gameOver w) (f (score w))
          (mousePos w) (camera w) (randomSource w) (randomUsed w).
Definition setMousePos (p : Position) (w : World) : World :=
  mkWorld (snakes w) (foods w) (gameRunning w) (gameOver w) (score w) p
          (camera w) (randomSource w) (randomUsed w).
Definition setCamera (p : Position) (w : World) : World :=
  mkWorld (snakes w) (foods w) (gameRunning w) (gameOver w) (score w)
          (mousePos w) p (randomSource w) (randomUsed w).

(** [Math.random()]: the next value of the stream. *)
Definition random (w : World) : R * World :=
  (randomSource w (randomUsed w),
   mkWorld (snakes w) (foods w) (gameRunning w) (gameOver w) (score w)
           (mousePos w) (camera w) (randomSource w) (S (randomUsed w))).

Definition setSegments (l : list Position) (s : Snake) : Snake :=
  mkSnake (id s) l (color s) (isPlayer s) (direction s) (speed s) (isDead s).
Definition setDirection (d : R) (s : Snake) : Snake :=
  mkSnake (id s) (segments s) (color s) (isPlayer s) d (speed s) (isDead s).
Definition setIsDead (b : bool) (s : Snake) : Snake :=
  mkSnake (id s) (segments s) (color s) (isPlayer s) (direction s) (speed s) b.

(** Assignment through a snake object, which the array holds at [i]. *)
Fixpoint storeAt {T : Type} (i : nat) (v : T) (l : list T) : list T :=
  match l, i with
  | [], _ => []
  | _ :: rest, O => v :: rest
  | x :: rest, S i' => x :: storeAt i' v rest
  end.

Definition storeSnake (i : nat) (s : Snake) (w : World) : World :=
  setSnakes (storeAt i s (snakes w)) w.

(** [Array.prototype.filter] on an array that the callback reaches
    through the state and may push to.  The length is read once, before
    the first call; indices [k < len] are read from the array as it is when
    they are reached; the selected values go to a new array. *)
Section ArrayFilter.

Variables T St : Type.
Variable current : St -> list T.
Variable callbackfn : T -> St -> bool * St.

Fixpoint filterFrom (k count : nat) (st : St) (kept : list T)
  : list T * St :=
  match count with
  | O => (kept, st)
  | S count' =>
      match nth_error (current st) k with
      | None => filterFrom (S k) count' st kept
      | Some kValue =>
          let '(selected, st') := callbackfn kValue st in
          filterFrom (S k) count' st'
                     (if selected then kept ++ [kValue] else kept)
      end
  end.

Definition arrayFilter (st : St) : list T * St :=
  filterFrom 0 (List.length (current st)) st [].

End ArrayFilter.

Arguments filterFrom {T St} current callbackfn k count st kept.
Arguments arrayFilter {T St} current callbackfn st.

(** ** binary64 *)

(** The nearest integer to [y], the even one of two that are equally
    near. *)
Definition nearestEven (y : R) : Z :=
  let f := Int_part y in
  if Rlt_dec (y - IZR f) (1 / 2) then f
  else if Rlt_dec (1 / 2) (y - IZR f) then (f + 1)%Z
  else if Z.even f then f else (f + 1)%Z.

(** The binade of [x], the [n] with [2^n <= |x| < 2^(n+1)], looked for
    from [n] downwards; when [fuel] exponents have been passed the search
    stops. *)
Fixpoint binadeFrom (fuel : nat) (n : Z) (x : R) : Z :=
  match fuel with
  | O => n
  | S fuel' =>
      if Rle_dec (powerRZ 2 n) (Rabs x) then n
      else binadeFrom fuel' (n - 1) x
  end.

(** The exponent of the unit in the last place of the doubles around
    [x]: 52 below the binade, which runs from 1023 down to -1022; zero and
    the subnormal numbers share the last places of the binade -1022. *)
Definition ulpExponent (x : R) : Z := (binadeFrom 2045 1023 x - 52)%Z.

(** The double nearest to [x], ties to the even significand.  Overflow
    to an infinity, which starts at [2^1024], is not met by this game and
    not modelled. *)
Definition binary64 (x : R) : R :=
  IZR (nearestEven (x * powerRZ 2 (- ulpExponent x)))
  * powerRZ 2 (ulpExponent x).

(** [generateFood]: the object literal draws x, y, hue and size.  Each
    product and the sum are rounded as binary64 rounds them: the size
    reaches 6, while x, y and the hue stay below 2000, 1500 and 360. *)
Definition randomFood (w : World) : Food * World :=
  let '(rx, w1) := random w in
  let '(ry, w2) := random w1 in
  let '(rh, w3) := random w2 in
  let '(rs, w4) := random w3 in
  (mkFood (binary64 (rx * WORLD_WIDTH)) (binary64 (ry * WORLD_HEIGHT))
          (hsl (binary64 (rh * 360)) 60)
          (binary64 (3 + binary64 (rs * 3))),
   w4).

Fixpoint generateFoodFrom (count : nat) (acc : list Food) (w : World)
  : list Food * World :=
  match count with
  | O => (acc, w)
  | S count' =>
      let '(f, w') := randomFood w in
      generateFoodFrom count' (acc ++ [f]) w'
  end.

Definition generateFood (w : World) : list Food * World :=
  generateFoodFrom FOOD_COUNT [] w.

(** [createSnake]: five segments to the left of [(x, y)]. *)
Definition createSnake (x y : R) (isPlayer : bool) (id : SnakeId) (w : World)
  : Snake * World :=
  let segments :=
    map (fun i => mkPos (x - INR i * SEGMENT_SIZE) y) (seq 0 5) in
  let '(c, w1) :=
    if isPlayer then (primary, w)
    else let '(rh, w') := random w in (hsl (rh * 360) 50, w') in
  let '(rd, w2) := random w1 in
  (mkSnake id segments c isPlayer (rd * PI * 2) 2 false, w2).

Fixpoint createAISnakes (i count : nat) (acc : list Snake) (w : World)
  : list Snake * World :=
  match count with
  | O => (acc, w)
  | S count' =>
      let '(rx, w1) := random w in
      let '(ry, w2) := random w1 in
      let '(s, w3) :=
        createSnake (rx * WORLD_WIDTH) (ry * WORLD_HEIGHT) false
                    (ai (Z.of_nat i)) w2 in
      createAISnakes (S i) count' (acc ++ [s]) w3
  end.

Definition initializeGame (w : World) : World :=
  let '(p, w1) :=
    createSnake (WORLD_WIDTH / 2) (WORLD_HEIGHT / 2) true player w in
  let '(all, w2) := createAISnakes 0 AI_SNAKE_COUNT [p] w1 in
  let w3 := setSnakes all w2 in
  let '(fs, w4) := generateFood w3 in
  setGameOver false (setScore (fun _ => 0%Z) (setFoods fs w4)).

(** [startGame] and [resetGame], without the animation-frame handle. *)
Definition startGame (w : World) : World :=
  setGameRunning true (initializeGame w).

Definition resetGame (w : World) : World :=
  setGameOver false (setGameRunning false w).

(** [Math.atan2] and [Math.sign] on reals. *)
Definition atan2 (y x : R) : R :=
  if Rlt_dec 0 x then atan (y / x)
  else if Rlt_dec x 0 then
    if Rle_dec 0 y then atan (y / x) + PI else atan (y / x) - PI
  else if Rlt_dec 0 y then PI / 2
  else if Rlt_dec y 0 then - (PI / 2)
  else 0.

Definition sign (x : R) : R :=
  if Rlt_dec 0 x then 1 else if Rlt_dec x 0 then -1 else 0.

(** [a < b] on numbers, as a test. *)
Definition ltb (a b : R) : bool :=
  if Rlt_dec a b then true else false.

(** The distance every test of the file computes. *)
Definition distanceTo (x y : R) (head : Position) : R :=
  sqrt ((x - px head) ^ 2 + (y - py head) ^ 2).

(** One call of the [forEach] callback of [updateAI]; [None] is the
    initial pair of [null] and [Infinity]. *)
Definition nearestStep (head : Position) (acc : option (Food * R))
  (food : Food) : option (Food * R) :=
  let distance := distanceTo (fx food) (fy food) head in
  match acc with
  | None => Some (food, distance)
  | Some (_, minDistance) =>
      if ltb distance minDistance then Some (food, distance) else acc
  end.

(** How often the bodies of the two normalising loops run:
    [while (d > PI) d -= 2 * PI] and [while (d < -PI) d += 2 * PI]. *)
Definition turnsDown (d : R) : nat :=
  Z.to_nat (1 - up (- ((d - PI) / (2 * PI)))).

Definition turnsUp (d : R) : nat :=
  Z.to_nat (1 - up (- ((- PI - d) / (2 * PI)))).

Definition normalize (angleDiff : R) : R :=
  let d1 := Nat.iter (turnsDown angleDiff) (fun d => d - 2 * PI) angleDiff in
  Nat.iter (turnsUp d1) (fun d => d + 2 * PI) d1.

(** [updateAI] changes the direction of the snake it is given.  Reading
    [segments[0]] of a snake without segments is outside the model
    ([None]): the source then fails on [head.x] or computes [NaN]. *)
Definition updateAI (fs : list Food) (snake : Snake) : option Snake :=
  if isPlayer snake || isDead snake then Some snake
  else
    match segments snake with
    | [] => None
    | head :: _ =>
        match fold_left (nearestStep head) fs None with
        | None => Some snake
        | Some (nearestFood, _) =>
            let targetAngle :=
              atan2 (fy nearestFood - py head) (fx nearestFood - px head) in
            let angleDiff := targetAngle - direction snake in
            let normalizedDiff := normalize angleDiff in
            let turnSpeed := 5 / 100 in
            if ltb turnSpeed (Rabs normalizedDiff) then
              Some (setDirection
                      (direction snake + sign normalizedDiff * turnSpeed)
                      snake)
            else Some (setDirection targetAngle snake)
        end
    end.

(** The player's direction follows the pointer. *)
Definition steerPlayer (c : Render) (snake : Snake) : option Snake :=
  if isPlayer snake then
    match segments snake with
    | [] => None
    | head :: _ =>
        let mouseWorldX := px (r_mousePos c) + px (r_camera c) - CANVAS_WIDTH / 2 in
        let mouseWorldY := py (r_mousePos c) + py (r_camera c) - CANVAS_HEIGHT / 2 in
        Some (setDirection
                (atan2 (mouseWorldY - py head) (mouseWorldX - px head)) snake)
    end
  else Some snake.

(** The head one frame later: moved, then kept in bounds. *)
Definition movedHead (snake : Snake) (h0 : Position) : Position :=
  let x := px h0 + cos (direction snake) * speed snake in
  let y := py h0 + sin (direction snake) * speed snake in
  mkPos (Rmax SEGMENT_SIZE (Rmin (WORLD_WIDTH - SEGMENT_SIZE) x))
        (Rmax SEGMENT_SIZE (Rmin (WORLD_HEIGHT - SEGMENT_SIZE) y)).

(** The test of the food [filter]. *)
Definition eats (head : Position) (food : Food) : bool :=
  ltb (distanceTo (fx food) (fy food) head) (SEGMENT_SIZE + size food).

(** The callback of the food [filter].  The state is the local [ate]
    and the world; [foodRef.current] is still the array being filtered,
    and the new food is pushed to it. *)
Definition eatCallback (head : Position) (snakeIsPlayer : bool) (food : Food)
  (st : bool * World) : bool * (bool * World) :=
  let '(ate, w) := st in
  if eats head food then
    let w1 := if snakeIsPlayer then setScore (fun prev => (prev + 1)%Z) w
              else w in
    let '(f, w2) := randomFood w1 in
    (false, (true, setFoods (foods w2 ++ [f]) w2))
  else (true, (ate, w)).

(** The inner [forEach] of the collision test, over the segments of
    another snake, from [index] on. *)
Fixpoint touchesFrom (self other : SnakeId) (head : Position) (index : nat)
  (segs : list Position) : bool :=
  match segs with
  | [] => false
  | segment :: rest =>
      (if Nat.eqb index 0 && negb (id_eqb other self) then false
       else ltb (distanceTo (px segment) (py segment) head) SEGMENT_SIZE)
      || touchesFrom self other head (S index) rest
  end.

(** The outer [forEach]: is the snake marked dead? *)
Definition collides (self : SnakeId) (head : Position) (others : list Snake)
  : bool :=
  existsb (fun otherSnake =>
             if id_eqb (id otherSnake) self || isDead otherSnake then false
             else touchesFrom self (id otherSnake) head 0 (segments otherSnake))
          others.

(** [updateSnake] on the snake object the array holds at [i]. *)
Definition updateSnake (c : Render) (i : nat) (w : World) : option World :=
  match nth_error (snakes w) i with
  | None => None
  | Some snake =>
      if isDead snake then Some w
      else
        match updateAI (foods w) snake with
        | None => None
        | Some steered =>
            match steerPlayer c steered with
            | None => None
            | Some aimed =>
                match segments aimed with
                | [] => None
                | h0 :: _ =>
                    let head := movedHead aimed h0 in
                    let grown := setSegments (head :: segments aimed) aimed in
                    let w1 := storeSnake i grown w in
                    let '(kept, (ate, w2)) :=
                      arrayFilter (fun st => foods (snd st))
                                  (eatCallback head (isPlayer grown))
                                  (false, w1) in
                    let w3 := setFoods kept w2 in
                    let moved :=
                      if ate then grown
                      else setSegments (removelast (segments grown)) grown in
                    let w4 := storeSnake i moved w3 in
                    if collides (id moved) head (snakes w4) then
                      let w5 := storeSnake i (setIsDead true moved) w4 in
                      Some (if isPlayer moved
                            then setGameRunning false (setGameOver true w5)
                            else w5)
                    else Some w4
                end
            end
        end
  end.

(** [snakesRef.current.forEach(updateSnake)]. *)
Fixpoint forEachSnake (c : Render) (k count : nat) (w : World)
  : option World :=
  match count with
  | O => Some w
  | S count' =>
      match updateSnake c k w with
      | None => None
      | Some w' => forEachSnake c (S k) count' w'
      end
  end.

(** The camera follows the living player. *)
Definition followPlayer (w : World) : option World :=
  match find isPlayer (snakes w) with
  | None => Some w
  | Some playerSnake =>
      if negb (isDead playerSnake) then
        match segments playerSnake with
        | [] => None
        | head :: _ =>
            Some (setCamera (mkPos (px head - CANVAS_WIDTH / 2)
                                   (py head - CANVAS_HEIGHT / 2)) w)
        end
      else Some w
  end.

(** The callback of the snake [filter]; [now] is [Date.now()]. *)
Definition replaceCallback (now : Z) (snake : Snake) (w : World)
  : bool * World :=
  if negb (isPlayer snake) && isDead snake then
    let '(rx, w1) := random w in
    let '(ry, w2) := random w1 in
    let '(s, w3) :=
      createSnake (rx * WORLD_WIDTH) (ry * WORLD_HEIGHT) false (ai now) w2 in
    (false, setSnakes (snakes w3 ++ [s]) w3)
  else (true, w).

(** "Remove dead AI snakes and replace them": the [filter] and the
    assignment of its result to [snakesRef.current]. *)
Definition replaceDead (now : Z) (w : World) : World :=
  let '(kept, w') := arrayFilter snakes (replaceCallback now) w in
  setSnakes kept w'.

(** One call of [gameLoop], without the request of the next frame. *)
Definition gameLoop (c : Render) (now : Z) (w : World) : option World :=
  if negb (r_gameRunning c) || r_gameOver c then Some w
  else
    match forEachSnake c 0 (List.length (snakes w)) w with
    | None => None
    | Some w1 =>
        match followPlayer w1 with
        | None => None
        | Some w2 => Some (replaceDead now w2)
        end
    end.

Definition handleMouseMove (x y : R) (w : World) : World :=
  setMousePos (mkPos x y) w.

(** A player snake as [createSnake 100 100 true player] lays it out. *)
Definition playerAt100 : Snake :=
  {| id := player;
     segments := [mkPos 100 100; mkPos 92 100; mkPos 84 100; mkPos 76 100;
                  mkPos 68 100];
     color := primary;
     isPlayer := true;
     direction := 1;
     speed := 2;
     isDead := false |}.

(** A non-player snake heading up the screen, its head nine units below
    the fourth segment of [playerAt100]. *)
Definition aiBelow : Snake :=
  {| id := ai 0;
     segments := [mkPos 76 109; mkPos 76 117; mkPos 76 125; mkPos 76 133;
                  mkPos 76 141];
     color := hsl 0 50;
     isPlayer := false;
     direction := - (PI / 2);
     speed := 2;
     isDead := false |}.

Definition nearFood : Food := mkFood 102 100 (hsl 0 60) 3.
Definition farFood : Food := mkFood 1000 1000 (hsl 0 60) 3.

(** A running game with a full pool of food, one item two units to the
    right of the player's head; the pointer is at (200,100) of the
    world. *)
Definition feastWorld : World :=
  {| snakes := [playerAt100];
     foods := nearFood :: repeat farFood 199;
     gameRunning := true;
     gameOver := false;
     score := 0%Z;
     mousePos := mkPos 600 400;
     camera := mkPos 0 0;
     randomSource := fun _ => 1 / 2;
     randomUsed := 0%nat |}.

(** A running game in which the non-player snake is about to run into
    the player's body. *)
Definition crashWorld : World :=
  {| snakes := [playerAt100; aiBelow];
     foods := [];
     gameRunning := true;
     gameOver := false;
     score := 0%Z;
     mousePos := mkPos 600 400;
     camera := mkPos 0 0;
     randomSource := fun _ => 1 / 2;
     randomUsed := 0%nat |}.

(** The player of [feastWorld] and of [crashWorld] once it has turned
    to the pointer. *)
Definition playerAimed : Snake := setDirection 0 playerAt100.

(** The two snakes of [crashWorld] one frame later, before the
    collision test of the second. *)
Definition playerMoved : Snake :=
  setSegments [mkPos 102 100; mkPos 100 100; mkPos 92 100; mkPos 84 100;
               mkPos 76 100] playerAimed.

Definition aiMoved : Snake :=
  setSegments [mkPos 76 107; mkPos 76 109; mkPos 76 117; mkPos 76 125;
               mkPos 76 133] aiBelow.

(** Segments out of reach of a head. *)
Definition outOfReach (head : Position) (segment : Position) : Prop :=
  SEGMENT_SIZE * SEGMENT_SIZE
  <= (px segment - px head) ^ 2 + (py segment - py head) ^ 2.

(** The snakes and the local [ate] across one call of the callback. *)
Definition eatSummary (st : bool * World) : list Snake * bool :=
  (snakes (snd st), fst st).

Definition eatStep (head : Position) (a : list Snake * bool) (food : Food)
  : list Snake * bool :=
  (fst a, snd a || eats head food).

(** Which snakes the [filter] of [gameLoop] selects. *)
Definition survives (snake : Snake) : bool :=
  negb (negb (isPlayer snake) && isDead snake).

(** Every value of the stream is a value of [Math.random()]. *)
Definition unitSource (w : World) : Prop :=
  forall n : nat, 0 <= randomSource w n < 1.

(** A value of [Math.random()]: a multiple of [2^-53] in [0, 1). *)
Definition unitDraw (r : R) : Prop :=
  exists k : Z, (0 <= k < 2 ^ 53)%Z /\ r = IZR k / IZR (2 ^ 53).

Definition drawSource (w : World) : Prop :=
  forall n : nat, unitDraw (randomSource w n).

(** The largest value of [Math.random()], [1 - 2^-53]. *)
Definition largestDraw : R := IZR (2 ^ 53 - 1) / IZR (2 ^ 53).

(** A food item inside the world, of a hue and a size [generateFood]
    gives; the size 6 is included. *)
Definition foodInWorld (f : Food) : Prop :=
  0 <= fx f < WORLD_WIDTH /\ 0 <= fy f < WORLD_HEIGHT
  /\ (exists hue, fcolor f = hsl hue 60 /\ 0 <= hue < 360)
  /\ 3 <= size f <= 6.

(** An idle world whose every draw is the largest one. *)
Definition edgeWorld : World :=
  {| snakes := [];
     foods := [];
     gameRunning := false;
     gameOver := false;
     score := 0%Z;
     mousePos := mkPos 0 0;
     camera := mkPos 0 0;
     randomSource := fun _ => largestDraw;
     randomUsed := 0%nat |}.

(** The five segments [createSnake] lays out from [(x, y)]. *)
Definition laidOut (x y : R) : list Position :=
  [mkPos x y; mkPos (x - 8) y; mkPos (x - 16) y; mkPos (x - 24) y;
   mkPos (x - 32) y].

(** A snake as [createSnake] leaves it. *)
Definition fresh (s : Snake) : Prop :=
  List.length (segments s) = 5%nat /\ isDead s = false /\ speed s = 2.

(** The world apart from the two arrays and the number of draws. *)
Definition sameReactState (w w' : World) : Prop :=
  gameRunning w' = gameRunning w /\ gameOver w' = gameOver w
  /\ score w' = score w /\ mousePos w' = mousePos w
  /\ camera w' = camera w /\ randomSource w' = randomSource w.

(** Whether a call of [gameLoop] reaches its last statement, the request
    of the next frame. *)
Definition requestsFrame (c : Render) (now : Z) (w : World) : bool :=
  if negb (r_gameRunning c) || r_gameOver c then false
  else match gameLoop c now w with
       | Some _ => true
       | None => false
       end.

(** The [id]s of the non-player snakes of a new game, from [i] on. *)
Definition aiIds (i count : nat) : list SnakeId :=
  map (fun k => ai (Z.of_nat k)) (seq i count).

(** The distance from a head to a food item. *)
Definition foodDistance (head : Position) (food : Food) : R :=
  distanceTo (fx food) (fy food) head.

(** [best] is the first of the nearest items of [fs], at distance [d]. *)
Definition firstNearest (head : Position) (fs : list Food)
  (best : Food * R) : Prop :=
  exists before after,
    fs = before ++ fst best :: after
    /\ snd best = foodDistance head (fst best)
    /\ (forall g, In g before -> snd best < foodDistance head g)
    /\ (forall g, In g after -> snd best <= foodDistance head g).

(** The world after one more item is eaten, apart from the food array:
    the score of the player, and the four draws of the replacement. *)
Definition eatenOnce (snakeIsPlayer : bool) (w : World) : World :=
  snd (randomFood (if snakeIsPlayer
                   then setScore (fun prev => (prev + 1)%Z) w
                   else w)).

(** The local [ate] and the world without its food, across one call of
    the food callback. *)
Definition eatState (st : bool * World) : bool * World :=
  (fst st, setFoods [] (snd st)).

Definition eatStateStep (head : Position) (snakeIsPlayer : bool)
  (a : bool * World) (food : Food) : bool * World :=
  if eats head food then (true, eatenOnce snakeIsPlayer (snd a)) else a.

(** How many items of a pool a head eats. *)
Definition eatenCount (head : Position) (fs : list Food) : nat :=
  List.length (filter (eats head) fs).

(** The state of the component, apart from the two arrays, after a
    snake has eaten [n] items: the score of the player, and four draws for
    each replacement. *)
Definition fed (snakeIsPlayer : bool) (n : nat) (w w' : World) : Prop :=
  gameRunning w' = gameRunning w /\ gameOver w' = gameOver w
  /\ mousePos w' = mousePos w /\ camera w' = camera w
  /\ randomSource w' = randomSource w
  /\ score w' = (score w + (if snakeIsPlayer then Z.of_nat n else 0))%Z
  /\ randomUsed w' = (randomUsed w + 4 * n)%nat.

(** The snake an update leaves in place of a living snake [aimed] whose
    head was [h0]: its head moved, its tail dropped unless it ate, and
    marked dead when [dies]. *)
Definition updatedSnake (aimed : Snake) (h0 : Position)
  (rest : list Position) (ate dies : bool) : Snake :=
  setIsDead dies
    (setSegments (if ate then movedHead aimed h0 :: h0 :: rest
                  else removelast (movedHead aimed h0 :: h0 :: rest)) aimed).

(** Every snake of the world has a segment. *)
Definition hasSegments (w : World) : Prop :=
  Forall (fun s => segments s <> []) (snakes w).

(** Frames one after the other, each with its [Date.now()]. *)
Fixpoint frames (c : Render) (nows : list Z) (w : World) : option World :=
  match nows with
  | [] => Some w
  | now :: later =>
      match gameLoop c now w with
      | None => None
      | Some w' => frames c later w'
      end
  end.

(** The style strings of [draw]: the three fixed ones and the colours of
    food and snakes. *)
Inductive Style : Type :=
| background
| border
| white
| ofColor (c : Color).

(** The calls on the 2D context that [draw] makes, in order. *)
Inductive Call : Type :=
| fillStyle (style : Style)
| fillRect (x y w h : R)
| save
| translate (x y : R)
| strokeStyle (style : Style)
| lineWidth (n : R)
| strokeRect (x y w h : R)
| beginPath
| arc (x y radius startAngle endAngle : R)
| fill
| restore.

(** The test [draw] makes before it draws an item at [(x, y)]. *)
Definition inView (camera : Position) (x y : R) : bool :=
  ltb (-50) (x + px camera) && ltb (x + px camera) (CANVAS_WIDTH + 50)
  && ltb (-50) (y + py camera) && ltb (y + py camera) (CANVAS_HEIGHT + 50).

(** The callback of [foodRef.current.forEach]. *)
Definition drawFood (camera : Position) (food : Food) : list Call :=
  if inView camera (fx food) (fy food) then
    [fillStyle (ofColor (fcolor food)); beginPath;
     arc (fx food) (fy food) (size food) 0 (PI * 2); fill]
  else [].

(** The callback of [snake.segments.forEach]. *)
Definition drawSegment (camera : Position) (snake : Snake) (index : nat)
  (segment : Position) : list Call :=
  if inView camera (px segment) (py segment) then
    [fillStyle (ofColor (color snake)); beginPath;
     arc (px segment) (py segment)
         (if Nat.eqb index 0 then SEGMENT_SIZE + 2 else SEGMENT_SIZE)
         0 (PI * 2);
     fill]
    ++ (if Nat.eqb index 0 then
          let eyeOffset := 3 in
          let eyeX1 := px segment + cos (direction snake - 5 / 10) * eyeOffset in
          let eyeY1 := py segment + sin (direction snake - 5 / 10) * eyeOffset in
          let eyeX2 := px segment + cos (direction snake + 5 / 10) * eyeOffset in
          let eyeY2 := py segment + sin (direction snake + 5 / 10) * eyeOffset in
          [fillStyle white;
           beginPath; arc eyeX1 eyeY1 2 0 (PI * 2); fill;
           beginPath; arc eyeX2 eyeY2 2 0 (PI * 2); fill]
        else [])
  else [].

Fixpoint drawSegments (camera : Position) (snake : Snake) (index : nat)
  (segs : list Position) : list Call :=
  match segs with
  | [] => []
  | segment :: rest =>
      drawSegment camera snake index segment
      ++ drawSegments camera snake (S index) rest
  end.

(** The callback of [snakesRef.current.forEach]. *)
Definition drawSnake (camera : Position) (snake : Snake) : list Call :=
  if isDead snake then []
  else drawSegments camera snake 0 (segments snake).

(** [draw], with the camera its render has captured, without the
    request of the next frame; [canvas] and [ctx] tell whether
    [canvasRef.current] and [canvas.getContext('2d')] are there. *)
Definition draw (canvas ctx : bool) (camera : Position) (w : World)
  : list Call :=
  if negb canvas then []
  else if negb ctx then []
  else
    [fillStyle background; fillRect 0 0 CANVAS_WIDTH CANVAS_HEIGHT;
     save; translate (- px camera) (- py camera);
     strokeStyle border; lineWidth 4;
     strokeRect 0 0 WORLD_WIDTH WORLD_HEIGHT]
    ++ flat_map (drawFood camera) (foods w)
    ++ flat_map (drawSnake camera) (snakes w)
    ++ [restore].

(** The angle at which an eye sits: 0.5 radians to either side of the
    direction. *)
Definition eyeAngle (snake : Snake) (first : bool) : R :=
  if first then direction snake - 5 / 10 else direction snake + 5 / 10.

(** What a circle of [draw] can be: a food item, a segment of a snake
    that is not dead, or an eye on the head of such a snake; the item, the
    segment or the head passes the view test. *)
Inductive Circle (camera : Position) (w : World) : R -> R -> R -> Prop :=
| FoodCircle food :
    In food (foods w) ->
    inView camera (fx food) (fy food) = true ->
    Circle camera w (fx food) (fy food) (size food)
| SegmentCircle snake index segment :
    In snake (snakes w) -> isDead snake = false ->
    nth_error (segments snake) index = Some segment ->
    inView camera (px segment) (py segment) = true ->
    Circle camera w (px segment) (py segment)
           (if Nat.eqb index 0 then SEGMENT_SIZE + 2 else SEGMENT_SIZE)
| EyeCircle snake head rest first :
    In snake (snakes w) -> isDead snake = false ->
    segments snake = head :: rest ->
    inView camera (px head) (py head) = true ->
    Circle camera w (px head + cos (eyeAngle snake first) * 3)
           (py head + sin (eyeAngle snake first) * 3) 2.

End SlitherGame.

(** * Properties *)

(** ** The grid game *)

Module SnakeGameSpec.

Import SnakeGame.

Local Open Scope Z_scope.

Lemma sameCell_true (a b : Position) : sameCell a b = true <-> a = b.
Proof.
  unfold sameCell. destruct a as [ax ay], b as [bx by_]; simpl.
  rewrite andb_true_iff, !Z.eqb_eq. split.
  - intros [-> ->]. reflexivity.
  - intros E. injection E as -> ->. split; reflexivity.
Qed.

Lemma sameCell_refl (a : Position) : sameCell a a = true.
Proof. apply sameCell_true. reflexivity. Qed.

Lemma hitsWall_true (head : Position) :
  hitsWall head = true <->
  px head < 0 \/ px head >= 30 \/ py head < 0 \/ py head >= 20.
Proof.
  unfold hitsWall.
  change (CANVAS_WIDTH / GRID_SIZE) with 30.
  change (CANVAS_HEIGHT / GRID_SIZE) with 20.
  rewrite !orb_true_iff, !Z.ltb_lt, !Z.geb_le. lia.
Qed.

(** The three ways a tick of a running game ends. *)
Lemma moveSnake_running rx ry st h0 rest :
  gameRunning st = true -> gameOver st = false -> snake st = h0 :: rest ->
  moveSnake rx ry st =
  let head := offsetHead (direction st) h0 in
  if hitsWall head || existsb (fun segment => sameCell segment head) (snake st)
  then setGameRunning false (setGameOver true st)
  else if sameCell head (food st)
       then setSnake (head :: snake st)
              (setScore (fun prev => prev + 10)
                 (setFood (generateFood rx ry) st))
       else setSnake (removelast (head :: snake st)) st.
Proof.
  intros Hrun Hover Hsnake. unfold moveSnake.
  rewrite Hrun, Hover. cbn [negb orb]. cbv zeta.
  destruct (snake st) as [|h1 rest1] eqn:E; [discriminate|].
  injection Hsnake as -> ->.
  destruct (hitsWall (offsetHead (direction st) h0)); [reflexivity|].
  cbn [orb].
  destruct (existsb _ (h0 :: rest)); reflexivity.
Qed.

Lemma length_removelast_cons {A : Type} (x : A) (l : list A) :
  List.length (removelast (x :: l)) = List.length l.
Proof.
  revert x. induction l as [|y l IH]; intros x; [reflexivity|].
  change (removelast (x :: y :: l)) with (x :: removelast (y :: l)).
  cbn [List.length]. rewrite IH. reflexivity.
Qed.

Lemma existsb_last {A : Type} (f : A -> bool) (l : list A) (d : A) :
  l <> [] -> f (last l d) = true -> existsb f l = true.
Proof.
  intros Hne Hf. apply existsb_exists. exists (last l d). split; [|exact Hf].
  destruct (exists_last Hne) as [l' [a ->]].
  rewrite last_last. apply in_or_app. right. left. reflexivity.
Qed.

(** X11: no single key press turns the direction into its opposite. *)
Lemma handleKeyPress_no_reversal key st :
  direction (handleKeyPress key st) <> opposite (direction st).
Proof.
  destruct st as [s f d over sc running].
  unfold handleKeyPress, startGame. cbn [gameRunning gameOver direction].
  destruct (negb running && negb over).
  - destruct d; discriminate.
  - repeat match goal with
           | |- context [String.eqb key ?k] => destruct (String.eqb key k)
           end;
      destruct d; simpl; discriminate.
Qed.

(** *** Snake length per tick *)

(** The play [squarePlay] leads from the initial state to [squareState]. *)
Lemma squarePlay_reaches : run squarePlay initialState = squareState.
Proof. vm_compute. reflexivity. Qed.

(** C3, as stated, fails: in [squareState], which a play reaches, the
    game is running, the new head cell (15,16) equals the food position,
    and the tick leaves the snake at four segments, because that cell is
    also a segment of the snake and the self-collision test comes first. *)
Lemma moveSnake_food_on_body_no_growth :
  run squarePlay initialState = squareState
  /\ gameRunning squareState = true
  /\ gameOver squareState = false
  /\ newHead squareState = Some (food squareState)
  /\ List.length (snake (moveSnake 0 0 squareState))
     <> S (List.length (snake squareState))
  /\ gameOver (moveSnake 0 0 squareState) = true.
Proof.
  split; [exact squarePlay_reaches|].
  vm_compute. repeat split; try reflexivity. discriminate.
Qed.

(** C3, amended: on every tick of a running game the number of segments
    does not decrease; it grows by exactly one when the new head cell is
    inside the grid, is not a cell of the snake before the move, and
    equals the food position; on every other tick it stays the same. *)
Theorem moveSnake_length (rx ry : Z) (st : State) (head : Position)
  (Hrun : gameRunning st = true) (Hover : gameOver st = false)
  (Hhead : newHead st = Some head) :
  let before := List.length (snake st) in
  let after := List.length (snake (moveSnake rx ry st)) in
  let collision :=
    hitsWall head || existsb (fun segment => sameCell segment head) (snake st) in
  (before <= after)%nat
  /\ (collision = false -> head = food st -> after = S before)
  /\ (collision = true \/ head <> food st -> after = before).
Proof.
  unfold newHead in Hhead.
  destruct (snake st) as [|h0 rest] eqn:Hsnake; [discriminate|].
  injection Hhead as <-.
  cbv zeta. rewrite (moveSnake_running rx ry st h0 rest Hrun Hover Hsnake).
  cbv zeta. rewrite Hsnake.
  set (head := offsetHead (direction st) h0).
  destruct (hitsWall head || existsb _ (h0 :: rest)) eqn:Hcol.
  - cbn [snake setGameRunning setGameOver]. rewrite Hsnake.
    split; [lia|]. split; [discriminate | reflexivity].
  - destruct (sameCell head (food st)) eqn:Hfood.
    + apply sameCell_true in Hfood.
      cbn [snake setSnake List.length].
      split; [lia|]. split; [reflexivity|].
      intros [Hc | Hne]; [discriminate | contradiction].
    + assert (Hne : head <> food st).
      { intros E. apply sameCell_true in E. congruence. }
      cbn [snake setSnake]. rewrite length_removelast_cons.
      split; [lia|]. split; [intros _ E; contradiction | reflexivity].
Qed.

Lemma moveSnake_length_witness :
  List.length (snake (moveSnake 0 0 scenarioState)) = 2%nat
  /\ List.length (snake (moveSnake 0 0 twoSegments)) = 2%nat.
Proof.
  split.
  - exact (proj1 (proj2 (moveSnake_length 0 0 scenarioState (mkPos 11 10)
                           eq_refl eq_refl eq_refl)) eq_refl eq_refl).
  - refine (proj2 (proj2 (moveSnake_length 0 0 twoSegments (mkPos 12 10)
                            eq_refl eq_refl eq_refl)) _).
    right. discriminate.
Defined.

(** *** Direction between two ticks *)

(** C4 fails on the code: the snake of [twoSegments] moves right at one
    tick; the keys ArrowUp and ArrowLeft arrive before the next tick, each
    accepted against the direction the previous key left; the next tick
    then moves the head left, the direct opposite, into the snake. *)
Theorem two_keys_reverse_direction :
  let first := moveSnake 0 0 twoSegments in
  let between := run twoKeysPlay first in
  let second := moveSnake 0 0 between in
  direction twoSegments = RIGHT
  /\ snake first = [mkPos 12 10; mkPos 11 10]
  /\ gameRunning between = true
  /\ direction between = LEFT
  /\ direction between = opposite (direction twoSegments)
  /\ newHead between = Some (mkPos 11 10)
  /\ gameOver second = true.
Proof. vm_compute. repeat split; reflexivity. Qed.

(** *** Walls *)

(** C5: a tick of a running game whose new head cell is outside the
    30 x 20 grid ends the game and changes neither the segments, nor the
    food, nor the score. *)
Theorem moveSnake_wall (rx ry : Z) (st : State) (head : Position)
  (Hrun : gameRunning st = true) (Hover : gameOver st = false)
  (Hhead : newHead st = Some head)
  (Hout : px head < 0 \/ px head >= CANVAS_WIDTH / GRID_SIZE
          \/ py head < 0 \/ py head >= CANVAS_HEIGHT / GRID_SIZE) :
  CANVAS_WIDTH / GRID_SIZE = 30 /\ CANVAS_HEIGHT / GRID_SIZE = 20
  /\ gameOver (moveSnake rx ry st) = true
  /\ gameRunning (moveSnake rx ry st) = false
  /\ snake (moveSnake rx ry st) = snake st
  /\ food (moveSnake rx ry st) = food st
  /\ score (moveSnake rx ry st) = score st
  /\ direction (moveSnake rx ry st) = direction st.
Proof.
  split; [reflexivity|]. split; [reflexivity|].
  unfold newHead in Hhead.
  destruct (snake st) as [|h0 rest] eqn:Hsnake; [discriminate|].
  injection Hhead as <-.
  rewrite (moveSnake_running rx ry st h0 rest Hrun Hover Hsnake).
  cbv zeta.
  assert (Hw : hitsWall (offsetHead (direction st) h0) = true).
  { apply hitsWall_true. exact Hout. }
  rewrite Hw. cbn [orb].
  cbn [gameOver gameRunning snake food score direction
       setGameRunning setGameOver].
  rewrite Hsnake. repeat split; reflexivity.
Qed.

Lemma moveSnake_wall_witness :
  gameOver (moveSnake 0 0 atRightWall) = true
  /\ snake (moveSnake 0 0 atRightWall) = snake atRightWall.
Proof.
  assert (Hout : px (mkPos 30 10) < 0
                 \/ px (mkPos 30 10) >= CANVAS_WIDTH / GRID_SIZE
                 \/ py (mkPos 30 10) < 0
                 \/ py (mkPos 30 10) >= CANVAS_HEIGHT / GRID_SIZE).
  { right. left. vm_compute. discriminate. }
  pose proof (moveSnake_wall 0 0 atRightWall (mkPos 30 10)
                eq_refl eq_refl eq_refl Hout) as H.
  split; [apply H | apply H].
Defined.

(** *** The space bar and the Start button *)

(** C7 fails on the code: the space bar changes no state at all.  In the
    idle state the handler returns before its [switch]; in every other
    state the game is running or over, and [startGame] does nothing.  A
    running game stays running when the space bar is pressed. *)
Theorem space_changes_nothing :
  (forall st, handleKeyPress " " st = st)
  /\ gameRunning scenarioState = true
  /\ gameRunning (handleKeyPress " " scenarioState) = true
  /\ gameRunning (handleKeyPress " " initialState) = false.
Proof.
  split; [|vm_compute; repeat split; reflexivity].
  intros st. unfold handleKeyPress, startGame. cbn [String.eqb Ascii.eqb Bool.eqb].
  destruct (negb (gameRunning st) && negb (gameOver st)); reflexivity.
Qed.

(** C8, as stated, fails: with [gameOver] true, [startGame] does not
    make the game running. *)
Lemma startGame_refused_when_over :
  gameOver finishedState = true
  /\ gameRunning (startGame finishedState) = false
  /\ gameRunning (handleKeyPress " " finishedState) = false.
Proof. vm_compute. repeat split; reflexivity. Qed.

(** A finished game stays finished under every event but Play Again. *)
Lemma handle_stays_over st e :
  gameOver st = true -> (forall rx ry, e <> ClickPlayAgain rx ry) ->
  gameOver (handle st e) = true
  /\ gameRunning (handle st e) = gameRunning st.
Proof.
  intros Hover He. destruct e as [rx ry | key | | rx ry]; cbn [handle].
  - unfold moveSnake. rewrite Hover, orb_true_r. split; [exact Hover|].
    reflexivity.
  - destruct st as [s f d over sc running].
    cbn [gameOver] in Hover. subst over.
    unfold handleKeyPress, startGame. cbn [gameRunning gameOver direction].
    rewrite andb_false_r.
    repeat match goal with
           | |- context [String.eqb key ?k] => destruct (String.eqb key k)
           end;
      destruct d; cbn [direction_eqb negb]; split; reflexivity.
  - unfold startGame. rewrite Hover, andb_false_r. split; [exact Hover|].
    reflexivity.
  - exfalso. apply (He rx ry). reflexivity.
Qed.

Lemma run_stays_over events : forall st,
  gameOver st = true ->
  Forall (fun e => forall rx ry, e <> ClickPlayAgain rx ry) events ->
  gameOver (run events st) = true
  /\ gameRunning (run events st) = gameRunning st.
Proof.
  induction events as [|e events IH]; intros st Hover Hev.
  - split; [exact Hover | reflexivity].
  - inversion Hev as [|e' l He Hrest]; subst.
    destruct (handle_stays_over st e Hover He) as [Hover' Hrun'].
    destruct (IH (handle st e) Hover' Hrest) as [H1 H2].
    unfold run in *. cbn [fold_left]. split; [exact H1|].
    rewrite H2. exact Hrun'.
Qed.

(** C8, amended: start is accepted from the idle state only.  When the
    game is neither running nor over, [startGame] makes it running and
    changes nothing else; in every state where [gameOver] is true,
    [startGame] leaves the state as it is, from the button and from the
    space bar; [resetGame] leads from there to the idle state, from which
    [startGame] starts the game; and nothing else leads back: after any
    ticks, key presses and clicks on Start, the game is still over and
    as much running as it was. *)
Theorem startGame_from_idle_only (st : State) :
  (gameRunning st = false -> gameOver st = false ->
   startGame st = setGameRunning true st
   /\ gameRunning (startGame st) = true)
  /\ (gameOver st = true ->
      startGame st = st /\ handleKeyPress " " st = st
      /\ (forall rx ry,
            gameRunning (resetGame rx ry st) = false
            /\ gameOver (resetGame rx ry st) = false
            /\ gameRunning (startGame (resetGame rx ry st)) = true)
      /\ (forall events,
            Forall (fun e => forall rx ry, e <> ClickPlayAgain rx ry) events ->
            gameOver (run events st) = true
            /\ gameRunning (run events st) = gameRunning st)).
Proof.
  split.
  - intros Hrun Hover. unfold startGame. rewrite Hrun, Hover.
    split; reflexivity.
  - intros Hover. split; [|split; [|split]].
    + unfold startGame. rewrite Hover, andb_false_r. reflexivity.
    + unfold handleKeyPress, startGame. rewrite Hover.
      rewrite andb_false_r. cbn [String.eqb Ascii.eqb Bool.eqb].
      reflexivity.
    + intros rx ry. repeat split; reflexivity.
    + intros events Hev. apply run_stays_over; assumption.
Qed.

Lemma startGame_from_idle_only_witness :
  gameRunning (startGame initialState) = true
  /\ startGame finishedState = finishedState
  /\ gameOver (run [Tick 0 0; KeyDown "ArrowUp"; ClickStart; KeyDown " "]
                   finishedState) = true.
Proof.
  split; [|split].
  - exact (proj2 (proj1 (startGame_from_idle_only initialState)
                    eq_refl eq_refl)).
  - exact (proj1 (proj2 (startGame_from_idle_only finishedState) eq_refl)).
  - apply (proj2 (proj2 (proj2 (proj2 (startGame_from_idle_only finishedState)
                                   eq_refl)))).
    repeat (apply Forall_cons; [discriminate|]). apply Forall_nil.
Defined.

(** *** Self-collision *)

(** C9: the self-collision test runs over the body as it is before the
    move, tail included.  When the snake has at least two segments and
    the new head cell is the cell of its last segment, the tick ends the
    game and leaves the segments as they were, on a tick that eats as on
    one that does not. *)
Theorem moveSnake_into_tail (rx ry : Z) (st : State) (head : Position)
  (Hrun : gameRunning st = true) (Hover : gameOver st = false)
  (Hlen : (2 <= List.length (snake st))%nat)
  (Hhead : newHead st = Some head)
  (Htail : last (snake st) head = head) :
  gameOver (moveSnake rx ry st) = true
  /\ gameRunning (moveSnake rx ry st) = false
  /\ snake (moveSnake rx ry st) = snake st
  /\ score (moveSnake rx ry st) = score st.
Proof.
  unfold newHead in Hhead.
  destruct (snake st) as [|h0 rest] eqn:Hsnake; [discriminate|].
  injection Hhead as Hh.
  rewrite (moveSnake_running rx ry st h0 rest Hrun Hover Hsnake).
  cbv zeta. rewrite Hh, Hsnake.
  assert (Hex : existsb (fun segment => sameCell segment head) (h0 :: rest)
                = true).
  { apply (existsb_last _ _ head); [discriminate|].
    rewrite Htail. apply sameCell_refl. }
  rewrite Hex, orb_true_r.
  cbn [gameOver gameRunning snake score setGameRunning setGameOver].
  rewrite Hsnake. repeat split; reflexivity.
Qed.

Lemma moveSnake_into_tail_witness :
  gameOver (moveSnake 0 0 (setFood (mkPos 3 3) squareState)) = true.
Proof.
  refine (proj1 (moveSnake_into_tail 0 0 (setFood (mkPos 3 3) squareState)
                   (mkPos 15 16) eq_refl eq_refl _ eq_refl eq_refl)).
  simpl. lia.
Defined.

(** *** Food placement *)

(** Rounding moves the numerator by at most half a unit of the last
    place. *)
Lemma roundHalfEven_bounds (N shift : Z) :
  0 < shift -> 0 <= N ->
  N - 2 ^ (shift - 1) <= roundHalfEven N shift * 2 ^ shift
  <= N + 2 ^ (shift - 1).
Proof.
  intros Hs HN. unfold roundHalfEven. cbv zeta.
  assert (Hpow : 2 ^ shift = 2 * 2 ^ (shift - 1)).
  { rewrite <- Z.pow_succ_r by lia. f_equal. lia. }
  assert (Hhalf : 0 < 2 ^ (shift - 1)) by (apply Z.pow_pos_nonneg; lia).
  pose proof (Z.div_mod N (2 ^ shift) ltac:(lia)) as Hdm.
  pose proof (Z.mod_pos_bound N (2 ^ shift) ltac:(lia)) as Hr.
  set (q := N / 2 ^ shift) in *. set (r := N mod 2 ^ shift) in *.
  set (P := 2 ^ shift) in *. set (half := 2 ^ (shift - 1)) in *.
  destruct (r <? half) eqn:H1; [apply Z.ltb_lt in H1; lia|].
  apply Z.ltb_ge in H1.
  destruct (half <? r) eqn:H2; [apply Z.ltb_lt in H2; lia|].
  apply Z.ltb_ge in H2.
  destruct (Z.even q); lia.
Qed.

Lemma scaledDraw_bounds (k n : Z) :
  0 <= k -> 0 <= n -> k * n < 2 ^ 58 ->
  k * n - 16 <= scaledDraw k n <= k * n + 16.
Proof.
  intros Hk Hn Hlt. unfold scaledDraw. cbv zeta.
  set (N := k * n) in *.
  assert (HN : 0 <= N) by (apply Z.mul_nonneg_nonneg; assumption).
  destruct (Z.log2 N + 1 - 53 <=? 0) eqn:Hs; [lia|].
  apply Z.leb_gt in Hs.
  assert (Hlog : Z.log2 N < 58).
  { apply Z.log2_lt_pow2; [|exact Hlt].
    destruct (Z.eq_dec N 0) as [E|E]; [|lia].
    rewrite E in Hs. cbn in Hs. lia. }
  pose proof (roundHalfEven_bounds N (Z.log2 N + 1 - 53) Hs HN) as Hb.
  assert (Hp : 2 ^ (Z.log2 N + 1 - 53 - 1) <= 2 ^ 4)
    by (apply Z.pow_le_mono_r; lia).
  change (2 ^ 4) with 16 in Hp. lia.
Qed.

Lemma scaledDraw_nonneg (k n : Z) : 0 <= k -> 0 <= n -> 0 <= scaledDraw k n.
Proof.
  intros Hk Hn. unfold scaledDraw. cbv zeta.
  assert (HN : 0 <= k * n) by (apply Z.mul_nonneg_nonneg; assumption).
  destruct (Z.log2 (k * n) + 1 - 53 <=? 0) eqn:Hs; [exact HN|].
  apply Z.leb_gt in Hs.
  assert (Hp : 0 < 2 ^ (Z.log2 (k * n) + 1 - 53))
    by (apply Z.pow_pos_nonneg; lia).
  apply Z.mul_nonneg_nonneg; [|lia].
  unfold roundHalfEven. cbv zeta.
  pose proof (Z.div_pos (k * n) _ HN Hp) as Hq.
  repeat match goal with
         | |- context [if ?b then _ else _] => destruct b
         end; lia.
Qed.

Lemma floorScaledDraw_range (k n : Z) :
  unit_draw k -> 16 < n <= 32 -> 0 <= floorScaledDraw k n <= n - 1.
Proof.
  intros [Hk0 Hk1] Hn. unfold floorScaledDraw.
  assert (Hlt : k * n < 2 ^ 58).
  { change (2 ^ 58) with (2 ^ 53 * 32). nia. }
  pose proof (scaledDraw_bounds k n Hk0 ltac:(lia) Hlt) as Hb.
  pose proof (scaledDraw_nonneg k n Hk0 ltac:(lia)) as H0.
  split.
  - apply Z.div_pos; [exact H0 | reflexivity].
  - assert (scaledDraw k n / 2 ^ 53 < n); [|lia].
    apply Z.div_lt_upper_bound; [reflexivity|]. nia.
Qed.

(** A finite check of [drawFor] over the cells below [count]. *)
Lemma drawFor_cell (n : Z) (count : nat) :
  forallb (fun cell =>
             (0 <=? drawFor cell n) && (drawFor cell n <? 2 ^ 53)
             && (floorScaledDraw (drawFor cell n) n =? cell))
          (cellsBelow count) = true ->
  forall cell, 0 <= cell < Z.of_nat count ->
    unit_draw (drawFor cell n) /\ floorScaledDraw (drawFor cell n) n = cell.
Proof.
  intros Hall cell Hcell.
  rewrite forallb_forall in Hall.
  specialize (Hall cell).
  assert (Hin : In cell (cellsBelow count)).
  { unfold cellsBelow. apply in_map_iff. exists (Z.to_nat cell).
    split; [lia|]. apply in_seq. lia. }
  apply Hall in Hin.
  rewrite !andb_true_iff, Z.leb_le, Z.ltb_lt, Z.eqb_eq in Hin.
  unfold unit_draw. tauto.
Qed.

Lemma drawFor_column cell : 0 <= cell <= 28 ->
  unit_draw (drawFor cell 29) /\ floorScaledDraw (drawFor cell 29) 29 = cell.
Proof.
  intros H. apply (drawFor_cell 29 29); [vm_compute; reflexivity | lia].
Qed.

Lemma drawFor_row cell : 0 <= cell <= 18 ->
  unit_draw (drawFor cell 19) /\ floorScaledDraw (drawFor cell 19) 19 = cell.
Proof.
  intros H. apply (drawFor_cell 19 19); [vm_compute; reflexivity | lia].
Qed.

(** C10: every cell [generateFood] returns has 0 <= x <= 28 and
    0 <= y <= 18, so never the column 29 nor the row 19; and the cell does not
    depend on the snake: each cell of a snake within that range is returned
    for some pair of draws, and a tick can place the food under the
    snake. *)
Theorem generateFood_cells :
  (forall rx ry, unit_draw rx -> unit_draw ry ->
     0 <= px (generateFood rx ry) <= 28
     /\ 0 <= py (generateFood rx ry) <= 18)
  /\ (forall (segments : list Position) (cell : Position),
        In cell segments ->
        0 <= px cell <= 28 -> 0 <= py cell <= 18 ->
        exists rx ry, unit_draw rx /\ unit_draw ry
                      /\ In (generateFood rx ry) segments)
  /\ (exists rx ry, unit_draw rx /\ unit_draw ry
        /\ In (food (moveSnake rx ry scenarioState))
              (snake (moveSnake rx ry scenarioState))).
Proof.
  split; [|split].
  - intros rx ry Hx Hy. unfold generateFood. cbn [px py].
    change (CANVAS_WIDTH / GRID_SIZE - 1) with 29.
    change (CANVAS_HEIGHT / GRID_SIZE - 1) with 19.
    pose proof (floorScaledDraw_range rx 29 Hx ltac:(lia)).
    pose proof (floorScaledDraw_range ry 19 Hy ltac:(lia)).
    lia.
  - intros segments [x y] Hin Hx Hy. cbn [px py] in Hx, Hy.
    destruct (drawFor_column x Hx) as [Hdx Hfx].
    destruct (drawFor_row y Hy) as [Hdy Hfy].
    exists (drawFor x 29), (drawFor y 19).
    split; [exact Hdx|]. split; [exact Hdy|].
    unfold generateFood.
    change (CANVAS_WIDTH / GRID_SIZE - 1) with 29.
    change (CANVAS_HEIGHT / GRID_SIZE - 1) with 19.
    rewrite Hfx, Hfy. exact Hin.
  - exists (13 * 2 ^ 48), (9 * 2 ^ 49).
    split; [unfold unit_draw; lia|].
    split; [unfold unit_draw; lia|].
    vm_compute. left. reflexivity.
Qed.

Lemma generateFood_cells_witness :
  0 <= px (generateFood (2 ^ 52) (2 ^ 52)) <= 28
  /\ exists rx ry, unit_draw rx /\ unit_draw ry
                   /\ In (generateFood rx ry) (snake initialState).
Proof.
  split.
  - apply (proj1 generateFood_cells (2 ^ 52) (2 ^ 52));
      unfold unit_draw; lia.
  - apply (proj1 (proj2 generateFood_cells) (snake initialState) (mkPos 10 10)).
    + left. reflexivity.
    + simpl. lia.
    + simpl. lia.
Defined.

(** *** Plays *)

(** What holds of a state and is kept by every event holds after every
    play. *)
Lemma run_invariant (P : State -> Prop) :
  (forall st e, P st -> P (handle st e)) ->
  forall events st, P st -> P (run events st).
Proof.
  intros Hstep events. unfold run.
  induction events as [|e events IH]; intros st Hst; [exact Hst|].
  cbn [fold_left]. apply IH. apply Hstep. exact Hst.
Qed.

(** The same for events that satisfy [Q]. *)
Lemma run_invariant_on (Q : Event -> Prop) (P : State -> Prop) :
  (forall st e, Q e -> P st -> P (handle st e)) ->
  forall events st, Forall Q events -> P st -> P (run events st).
Proof.
  intros Hstep events. unfold run.
  induction events as [|e events IH]; intros st Hall Hst; [exact Hst|].
  inversion Hall as [|? ? He Hrest]; subst.
  cbn [fold_left]. apply IH; [exact Hrest|]. apply Hstep; assumption.
Qed.

Lemma removelast_cons_cons {A : Type} (x y : A) (l : list A) :
  removelast (x :: y :: l) = x :: removelast (y :: l).
Proof. reflexivity. Qed.

Lemma moveSnake_outcome rx ry st : TickOutcome rx ry st (moveSnake rx ry st).
Proof.
  destruct (negb (gameRunning st) || gameOver st) eqn:Hguard.
  - unfold moveSnake. rewrite Hguard. apply TickIgnored. left. exact Hguard.
  - apply orb_false_iff in Hguard. destruct Hguard as [Hrun Hover].
    apply negb_false_iff in Hrun.
    destruct (snake st) as [|h0 rest] eqn:Hsnake.
    + unfold moveSnake. rewrite Hrun, Hover, Hsnake. cbn [negb orb].
      apply TickIgnored. right. exact Hsnake.
    + rewrite (moveSnake_running rx ry st h0 rest Hrun Hover Hsnake).
      cbv zeta.
      destruct (hitsWall (offsetHead (direction st) h0)
                || existsb _ (snake st)) eqn:Hcol.
      * eapply TickCollision; eassumption.
      * apply orb_false_iff in Hcol. destruct Hcol as [Hwall Hself].
        destruct (sameCell (offsetHead (direction st) h0) (food st)) eqn:Hf.
        -- apply sameCell_true in Hf.
           eapply TickEat; eassumption.
        -- assert (E : removelast (offsetHead (direction st) h0 :: snake st)
                       = offsetHead (direction st) h0 :: removelast (snake st))
             by (rewrite Hsnake; reflexivity).
           rewrite E.
           eapply TickMove; try eassumption.
           intros Hfood. apply sameCell_true in Hfood. congruence.
Qed.

(** *** What every play keeps *)

Lemma offsetHead_adjacent d h0 : adjacent (offsetHead d h0) h0.
Proof. unfold adjacent. destruct d; cbn [offsetHead px py]; lia. Qed.

Lemma hitsWall_false_inGrid head : hitsWall head = false -> inGrid head.
Proof.
  intros H. unfold inGrid.
  destruct (Z_lt_dec (px head) 0), (Z_ge_dec (px head) (CANVAS_WIDTH / GRID_SIZE)),
    (Z_lt_dec (py head) 0), (Z_ge_dec (py head) (CANVAS_HEIGHT / GRID_SIZE));
    try lia;
    (assert (hitsWall head = true) by
        (apply hitsWall_true;
         change (CANVAS_WIDTH / GRID_SIZE) with 30 in *;
         change (CANVAS_HEIGHT / GRID_SIZE) with 20 in *; lia);
     congruence).
Qed.

Lemma existsb_sameCell_false head l :
  existsb (fun segment => sameCell segment head) l = false -> ~ In head l.
Proof.
  intros H Hin.
  assert (existsb (fun segment => sameCell segment head) l = true).
  { apply existsb_exists. exists head. split; [exact Hin|].
    apply sameCell_refl. }
  congruence.
Qed.

Lemma In_removelast {A : Type} (x : A) (l : list A) :
  In x (removelast l) -> In x l.
Proof.
  induction l as [|y l IH]; [intros []|].
  destruct l as [|z l]; [intros []|].
  rewrite removelast_cons_cons. intros [E | H]; [left; exact E|].
  right. apply IH. exact H.
Qed.

Lemma Forall_removelast {A : Type} (P : A -> Prop) (l : list A) :
  Forall P l -> Forall P (removelast l).
Proof.
  intros H. apply Forall_forall. intros x Hx.
  apply In_removelast in Hx. rewrite Forall_forall in H. apply H. exact Hx.
Qed.

Lemma NoDup_removelast {A : Type} (l : list A) :
  NoDup l -> NoDup (removelast l).
Proof.
  induction l as [|y l IH]; [intros H; exact H|].
  destruct l as [|z l]; [intros _; constructor|].
  rewrite removelast_cons_cons. intros H.
  inversion H as [|? ? Hnotin Hrest]; subst.
  constructor; [|apply IH; exact Hrest].
  intros Hin. apply Hnotin. apply In_removelast. exact Hin.
Qed.

Lemma chained_removelast (l : list Position) :
  chained l -> chained (removelast l).
Proof.
  induction l as [|a l IH]; [intros H; exact H|].
  destruct l as [|b l]; [intros _; exact I|].
  rewrite removelast_cons_cons. intros [Hab Hrest].
  specialize (IH Hrest).
  destruct l as [|c l]; [exact I|].
  rewrite removelast_cons_cons in *. split; assumption.
Qed.

Lemma wellFormed_start : wellFormed [mkPos 10 10].
Proof.
  split; [discriminate|]. split; [|split].
  - constructor; [|constructor]. unfold inGrid. cbn. lia.
  - constructor; [intros []|constructor].
  - exact I.
Qed.

Lemma handle_wellFormed st e :
  wellFormed (snake st) -> wellFormed (snake (handle st e)).
Proof.
  intros Hwf. destruct e as [rx ry | key | | rx ry]; cbn [handle].
  - destruct (moveSnake_outcome rx ry st)
      as [_ | h0 rest Hs _ _ _ | h0 rest Hs _ _ Hwall Hself _
          | h0 rest Hs _ _ Hwall Hself _];
      try exact Hwf.
    + destruct Hwf as [_ [Hgrid [Hdup Hch]]].
      cbn [snake setSnake]. split; [discriminate|]. split; [|split].
      * constructor; [apply hitsWall_false_inGrid; exact Hwall | exact Hgrid].
      * constructor; [apply existsb_sameCell_false; exact Hself | exact Hdup].
      * rewrite Hs in *. split; [apply offsetHead_adjacent | exact Hch].
    + destruct Hwf as [_ [Hgrid [Hdup Hch]]].
      cbn [snake setSnake]. split; [discriminate|]. split; [|split].
      * constructor; [apply hitsWall_false_inGrid; exact Hwall|].
        apply Forall_removelast. exact Hgrid.
      * constructor; [|apply NoDup_removelast; exact Hdup].
        intros Hin. apply In_removelast in Hin.
        revert Hin. apply existsb_sameCell_false. exact Hself.
      * assert (Hc : chained (offsetHead (direction st) h0 :: snake st)).
        { rewrite Hs in *. split; [apply offsetHead_adjacent | exact Hch]. }
        apply chained_removelast in Hc.
        rewrite Hs in Hc. rewrite removelast_cons_cons in Hc.
        rewrite Hs. exact Hc.
  - assert (E : snake (handleKeyPress key st) = snake st); [|rewrite E; exact Hwf].
    destruct st as [s f d over sc running].
    unfold handleKeyPress, startGame. cbn [gameRunning gameOver direction].
    destruct (negb running && negb over); [reflexivity|].
    repeat match goal with
           | |- context [String.eqb key ?k] => destruct (String.eqb key k)
           end;
      repeat match goal with
             | |- context [if ?b then _ else _] => destruct b
             end; reflexivity.
  - unfold startGame. destruct (_ && _); exact Hwf.
  - exact wellFormed_start.
Qed.

(** X1: whatever ticks, key presses and button clicks follow the initial
    state, the snake keeps at least one segment and every segment lies on
    a cell of the 30 x 20 grid. *)
Theorem play_snake_in_grid (events : list Event) :
  snake (run events initialState) <> []
  /\ Forall inGrid (snake (run events initialState)).
Proof.
  destruct (run_invariant (fun st => wellFormed (snake st)) handle_wellFormed
              events initialState wellFormed_start) as [H1 [H2 _]].
  split; assumption.
Qed.

(** X2: after any play from the initial state no two segments of the snake
    are on the same cell. *)
Theorem play_snake_no_overlap (events : list Event) :
  NoDup (snake (run events initialState)).
Proof.
  apply (run_invariant (fun st => wellFormed (snake st)) handle_wellFormed
           events initialState wellFormed_start).
Qed.

(** X3: after any play from the initial state every segment of the snake is
    on a cell that shares a side with the cell of the segment after it. *)
Theorem play_snake_chained (events : list Event) :
  chained (snake (run events initialState)).
Proof.
  apply (run_invariant (fun st => wellFormed (snake st)) handle_wellFormed
           events initialState wellFormed_start).
Qed.

(** What a key press leaves alone. *)
Lemma handleKeyPress_keeps key st :
  snake (handleKeyPress key st) = snake st
  /\ food (handleKeyPress key st) = food st
  /\ score (handleKeyPress key st) = score st
  /\ gameOver (handleKeyPress key st) = gameOver st
  /\ gameRunning (handleKeyPress key st) = gameRunning st.
Proof.
  destruct st as [s f d over sc running].
  unfold handleKeyPress, startGame. cbn [gameRunning gameOver direction].
  destruct (negb running && negb over) eqn:Hidle;
    [repeat split; reflexivity|].
  repeat match goal with
         | |- context [String.eqb key ?k] => destruct (String.eqb key k)
         end;
    destruct d; cbn [direction_eqb negb]; rewrite ?Hidle;
    repeat split; reflexivity.
Qed.

Lemma handleKeyPress_steers key st :
  handleKeyPress key st = setDirection (direction (handleKeyPress key st)) st.
Proof.
  destruct (handleKeyPress_keeps key st) as [H1 [H2 [H3 [H4 H5]]]].
  destruct (handleKeyPress key st) as [s f d over sc running].
  destruct st as [s0 f0 d0 over0 sc0 running0].
  cbn in *. subst. reflexivity.
Qed.

(** X10: the keyboard only ever changes the direction, and a key that is
    not an arrow changes nothing. *)
Theorem keyboard_only_steers (key : string) (st : State) :
  handleKeyPress key st = setDirection (direction (handleKeyPress key st)) st
  /\ (key <> "ArrowUp"%string -> key <> "ArrowDown"%string ->
      key <> "ArrowLeft"%string -> key <> "ArrowRight"%string ->
      handleKeyPress key st = st).
Proof.
  split; [apply handleKeyPress_steers|].
  intros Hu Hd Hl Hr.
  apply String.eqb_neq in Hu, Hd, Hl, Hr.
  unfold handleKeyPress. rewrite Hu, Hd, Hl, Hr.
  unfold startGame.
  destruct (negb (gameRunning st) && negb (gameOver st)); [reflexivity|].
  destruct (String.eqb key " "); reflexivity.
Qed.

Lemma keyboard_only_steers_witness :
  handleKeyPress "Enter" scenarioState = scenarioState.
Proof.
  apply (proj2 (keyboard_only_steers "Enter" scenarioState));
    discriminate.
Defined.

Lemma handle_scoreMatches st e :
  snake st <> [] /\ scoreMatches st ->
  snake (handle st e) <> [] /\ scoreMatches (handle st e).
Proof.
  unfold scoreMatches. intros [Hne Hsc].
  destruct e as [rx ry | key | | rx ry]; cbn [handle].
  - destruct (moveSnake_outcome rx ry st)
      as [_ | h0 rest Hs _ _ _ | h0 rest Hs _ _ _ _ _
          | h0 rest Hs _ _ _ _ _].
    + split; assumption.
    + split; assumption.
    + cbn [snake score setSnake setScore setFood List.length].
      split; [discriminate | lia].
    + cbn [snake score setSnake List.length].
      split; [discriminate|].
      rewrite Hs, length_removelast_cons.
      rewrite Hs in Hsc. cbn [List.length] in Hsc. lia.
  - destruct (handleKeyPress_keeps key st) as [H1 [_ [H3 _]]].
    rewrite H1, H3. split; assumption.
  - unfold startGame. destruct (_ && _); split; assumption.
  - cbn. split; [discriminate | reflexivity].
Qed.

(** X4: after any play from the initial state the score is ten times the
    number of segments the snake has gained, 10 * (length - 1). *)
Theorem play_score_counts_segments (events : list Event) :
  score (run events initialState)
  = 10 * (Z.of_nat (List.length (snake (run events initialState))) - 1).
Proof.
  apply (run_invariant (fun st => snake st <> [] /\ scoreMatches st)
           handle_scoreMatches events initialState).
  split; [discriminate | reflexivity].
Qed.

(** A finished game is not running. *)
Lemma handle_over_stops st e :
  (gameOver st = true -> gameRunning st = false) ->
  gameOver (handle st e) = true -> gameRunning (handle st e) = false.
Proof.
  intros Hinv. destruct e as [rx ry | key | | rx ry]; cbn [handle].
  - destruct (moveSnake_outcome rx ry st)
      as [_ | h0 rest _ _ _ _ | h0 rest _ _ Hover _ _ _
          | h0 rest _ _ Hover _ _ _]; cbn; try congruence.
    exact Hinv.
  - destruct (handleKeyPress_keeps key st) as [_ [_ [_ [H4 H5]]]].
    rewrite H4, H5. exact Hinv.
  - unfold startGame.
    destruct (gameRunning st) eqn:Hr, (gameOver st) eqn:Ho; cbn;
      rewrite ?Hr, ?Ho; intros; try congruence; auto.
  - cbn. discriminate.
Qed.

(** X5: after any play from the initial state a game that is over is not
    running. *)
Theorem play_over_is_stopped (events : list Event) :
  gameOver (run events initialState) = true ->
  gameRunning (run events initialState) = false.
Proof.
  apply (run_invariant
           (fun st => gameOver st = true -> gameRunning st = false)
           handle_over_stops events initialState).
  discriminate.
Qed.

Lemma play_over_is_stopped_witness :
  gameOver (run (squarePlay ++ [Tick 0 0]) initialState) = true
  /\ gameRunning (run (squarePlay ++ [Tick 0 0]) initialState) = false.
Proof.
  split; [vm_compute; reflexivity|].
  apply play_over_is_stopped. vm_compute. reflexivity.
Defined.

(** Food stays in the grid. *)
Lemma generateFood_inGrid rx ry :
  unit_draw rx -> unit_draw ry -> inGrid (generateFood rx ry).
Proof.
  intros Hx Hy. unfold inGrid, generateFood. cbn [px py].
  change (CANVAS_WIDTH / GRID_SIZE - 1) with 29.
  change (CANVAS_HEIGHT / GRID_SIZE - 1) with 19.
  change (CANVAS_WIDTH / GRID_SIZE) with 30.
  change (CANVAS_HEIGHT / GRID_SIZE) with 20.
  pose proof (floorScaledDraw_range rx 29 Hx ltac:(lia)).
  pose proof (floorScaledDraw_range ry 19 Hy ltac:(lia)).
  lia.
Qed.

Lemma handle_food_inGrid st e :
  unitDraws e -> inGrid (food st) -> inGrid (food (handle st e)).
Proof.
  intros Hd Hf. destruct e as [rx ry | key | | rx ry]; cbn [handle].
  - destruct (moveSnake_outcome rx ry st)
      as [_ | h0 rest _ _ _ _ | h0 rest _ _ _ _ _ _
          | h0 rest _ _ _ _ _ _]; cbn [food setFood setScore setSnake
                                      setGameRunning setGameOver];
      try exact Hf.
    destruct Hd. apply generateFood_inGrid; assumption.
  - destruct (handleKeyPress_keeps key st) as [_ [H2 _]].
    rewrite H2. exact Hf.
  - unfold startGame. destruct (_ && _); exact Hf.
  - destruct Hd. apply generateFood_inGrid; assumption.
Qed.

(** X6: when the values of [Math.random()] are of the form k / 2^53 with
    0 <= k < 2^53, the food is on a cell of the grid after any play from
    the initial state. *)
Theorem play_food_in_grid (events : list Event)
  (Hdraws : Forall unitDraws events) :
  inGrid (food (run events initialState)).
Proof.
  apply (run_invariant_on unitDraws (fun st => inGrid (food st))
           handle_food_inGrid events initialState Hdraws).
  unfold inGrid. cbn. lia.
Qed.

Lemma play_food_in_grid_witness : inGrid (food (run squarePlay initialState)).
Proof.
  apply play_food_in_grid. unfold squarePlay, unitDraws, unit_draw.
  repeat (apply Forall_cons; [try exact I; lia|]). apply Forall_nil.
Defined.

(** X7: a tick of a running game ends the game exactly when the cell ahead
    of the head is outside the grid or holds a segment of the snake, the
    last segment included. *)
Theorem moveSnake_ends_on_collision (rx ry : Z) (st : State)
  (head : Position)
  (Hrun : gameRunning st = true) (Hover : gameOver st = false)
  (Hhead : newHead st = Some head) :
  gameOver (moveSnake rx ry st) = true
  <-> (~ inGrid head \/ In head (snake st)).
Proof.
  unfold newHead in Hhead.
  destruct (snake st) as [|h0 rest] eqn:Hsnake; [discriminate|].
  injection Hhead as Hh.
  rewrite (moveSnake_running rx ry st h0 rest Hrun Hover Hsnake).
  cbv zeta. rewrite Hh, Hsnake.
  destruct (hitsWall head) eqn:Hwall; cbn [orb].
  - cbn. split; [intros _|reflexivity]. left.
    apply hitsWall_true in Hwall. unfold inGrid.
    change (CANVAS_WIDTH / GRID_SIZE) with 30.
    change (CANVAS_HEIGHT / GRID_SIZE) with 20. lia.
  - apply hitsWall_false_inGrid in Hwall.
    destruct (existsb (fun segment => sameCell segment head) (h0 :: rest))
      eqn:Hself.
    + cbn. split; [intros _|reflexivity]. right.
      apply existsb_exists in Hself. destruct Hself as [x [Hin Hx]].
      apply sameCell_true in Hx. subst x. exact Hin.
    + apply existsb_sameCell_false in Hself.
      assert (Hno : gameOver
                 (if sameCell head (food st)
                  then setSnake (head :: h0 :: rest)
                         (setScore (fun prev => prev + 10)
                            (setFood (generateFood rx ry) st))
                  else setSnake (removelast (head :: h0 :: rest)) st)
                 = false).
      { destruct (sameCell head (food st)); cbn; exact Hover. }
      rewrite Hno. split; [discriminate|].
      intros [H | H]; contradiction.
Qed.

Lemma moveSnake_ends_on_collision_witness :
  gameOver (moveSnake 0 0 atRightWall) = true
  /\ ~ (~ inGrid (mkPos 12 10) \/ In (mkPos 12 10) (snake twoSegments)).
Proof.
  split.
  - apply (moveSnake_ends_on_collision 0 0 atRightWall (mkPos 30 10)
             eq_refl eq_refl eq_refl).
    left. unfold inGrid. cbn. lia.
  - intros H.
    apply (moveSnake_ends_on_collision 0 0 twoSegments (mkPos 12 10)
             eq_refl eq_refl eq_refl) in H.
    discriminate H.
Defined.

(** X9: once a game is over and stopped, no tick, key press or click on
    Start changes anything but the direction; only Play Again does. *)
Theorem finished_game_is_frozen (st : State) (e : Event)
  (Hover : gameOver st = true) (Hrun : gameRunning st = false)
  (He : forall rx ry, e <> ClickPlayAgain rx ry) :
  handle st e = setDirection (direction (handle st e)) st.
Proof.
  destruct e as [rx ry | key | | rx ry]; cbn [handle].
  - unfold moveSnake. rewrite Hrun. cbn [negb orb].
    destruct st; reflexivity.
  - apply handleKeyPress_steers.
  - unfold startGame. rewrite Hover, andb_false_r. destruct st; reflexivity.
  - exfalso. apply (He rx ry). reflexivity.
Qed.

Lemma finished_game_is_frozen_witness :
  handle finishedState (Tick 0 0) = finishedState
  /\ snake (handle finishedState (KeyDown "ArrowUp")) = snake finishedState.
Proof.
  split.
  - rewrite (finished_game_is_frozen finishedState (Tick 0 0)
               eq_refl eq_refl); [reflexivity | discriminate].
  - rewrite (finished_game_is_frozen finishedState (KeyDown "ArrowUp")
               eq_refl eq_refl); [reflexivity | discriminate].
Defined.

(** The head advances by one cell and the body follows. *)
Lemma nth_error_removelast {A : Type} (l : list A) :
  forall i, (S i < List.length l)%nat ->
            nth_error (removelast l) i = nth_error l i.
Proof.
  induction l as [|x l IH]; intros i Hi; [cbn in Hi; lia|].
  destruct l as [|y l]; [cbn in Hi; lia|].
  rewrite removelast_cons_cons.
  destruct i as [|i]; [reflexivity|].
  cbn [nth_error]. apply IH. cbn [List.length] in *. lia.
Qed.

(** X8: on a tick of a running game whose cell ahead is in the grid and
    free, the new head is the cell ahead, which shares a side with the old
    head; every later segment takes the place of the segment before it,
    and the direction is kept. *)
Theorem moveSnake_body_follows (rx ry : Z) (st : State) (h0 : Position)
  (rest : list Position)
  (Hrun : gameRunning st = true) (Hover : gameOver st = false)
  (Hsnake : snake st = h0 :: rest)
  (Hgrid : inGrid (offsetHead (direction st) h0))
  (Hfree : ~ In (offsetHead (direction st) h0) (snake st)) :
  let after := snake (moveSnake rx ry st) in
  nth_error after 0 = Some (offsetHead (direction st) h0)
  /\ adjacent (offsetHead (direction st) h0) h0
  /\ (forall i, (S i < List.length after)%nat ->
                nth_error after (S i) = nth_error (snake st) i)
  /\ direction (moveSnake rx ry st) = direction st.
Proof.
  cbv zeta.
  destruct (moveSnake_outcome rx ry st)
    as [[Hg | He] | h1 rest1 Hs _ _ Hcol | h1 rest1 Hs _ _ _ _ _
        | h1 rest1 Hs _ _ _ _ _].
  - rewrite Hrun, Hover in Hg. discriminate.
  - congruence.
  - exfalso. rewrite Hsnake in Hs. injection Hs as <- <-.
    apply orb_true_iff in Hcol. destruct Hcol as [Hw | Hself].
    + apply hitsWall_true in Hw. unfold inGrid in Hgrid.
      change (CANVAS_WIDTH / GRID_SIZE) with 30 in Hgrid.
      change (CANVAS_HEIGHT / GRID_SIZE) with 20 in Hgrid. lia.
    + apply Hfree. apply existsb_exists in Hself.
      destruct Hself as [x [Hin Hx]]. apply sameCell_true in Hx.
      subst x. exact Hin.
  - rewrite Hsnake in Hs. injection Hs as <- <-.
    cbn [snake setSnake direction setScore setFood].
    split; [reflexivity|]. split; [apply offsetHead_adjacent|].
    split; [|reflexivity]. intros i _. reflexivity.
  - rewrite Hsnake in Hs. injection Hs as <- <-.
    cbn [snake setSnake direction].
    split; [reflexivity|]. split; [apply offsetHead_adjacent|].
    split; [|reflexivity]. intros i Hi. cbn [nth_error].
    apply nth_error_removelast.
    cbn [List.length] in Hi.
    rewrite Hsnake, length_removelast_cons in Hi.
    rewrite Hsnake. cbn [List.length]. lia.
Qed.

Lemma moveSnake_body_follows_witness :
  nth_error (snake (moveSnake 0 0 twoSegments)) 1 = Some (mkPos 11 10).
Proof.
  refine (proj1 (proj2 (proj2
            (moveSnake_body_follows 0 0 twoSegments (mkPos 11 10)
               [mkPos 10 10] eq_refl eq_refl eq_refl _ _))) 0%nat _).
  - unfold inGrid. cbn. lia.
  - cbn. intros [H | [H | []]]; discriminate.
  - cbn. lia.
Defined.

(** *** Drawing *)

Lemma forEachStop_Forall (P : Call -> Prop) body limit i :
  (forall k, Forall P (body k)) -> Forall P (forEachStop body limit i).
Proof.
  intros Hbody. funelim (forEachStop body limit i).
  - apply Forall_app. split; [apply Hbody | apply H; exact Hbody].
  - apply Forall_nil.
Qed.

Lemma drawSegments_inside segments : forall index,
  Forall inGrid segments -> Forall insideCanvas (drawSegments index segments).
Proof.
  induction segments as [|p rest IH]; intros index Hall; [apply Forall_nil|].
  inversion Hall as [|? ? [Hx Hy] Hrest]; subst.
  cbn [drawSegments drawSegment app].
  constructor; [exact I|]. constructor; [|apply IH; exact Hrest].
  unfold insideCanvas, cellRect.
  change (CANVAS_WIDTH / GRID_SIZE) with 30 in Hx.
  change (CANVAS_HEIGHT / GRID_SIZE) with 20 in Hy.
  unfold GRID_SIZE, CANVAS_WIDTH, CANVAS_HEIGHT. lia.
Qed.

Lemma drawSegments_counts segments : forall index,
  List.length (filter isFillRect (drawSegments index segments))
  = List.length segments
  /\ filter isStroke (drawSegments index segments) = [].
Proof.
  induction segments as [|p rest IH]; intros index; [split; reflexivity|].
  destruct (IH (S index)) as [H1 H2].
  cbn [drawSegments drawSegment app filter isFillRect isStroke cellRect
       List.length].
  rewrite H1, H2. split; reflexivity.
Qed.

Lemma initialFood_inGrid : inGrid (food initialState).
Proof. unfold inGrid. cbn. lia. Qed.

Lemma verticalLines_counts :
  List.length
    (filter isFillRect
       (forEachStop (fun i => [beginPath; moveTo i 0; lineTo i CANVAS_HEIGHT;
                               stroke]) CANVAS_WIDTH 0)) = 0%nat.
Proof. vm_compute. reflexivity. Qed.

Lemma horizontalLines_counts :
  List.length
    (filter isFillRect
       (forEachStop (fun i => [beginPath; moveTo 0 i; lineTo CANVAS_WIDTH i;
                               stroke]) CANVAS_HEIGHT 0)) = 0%nat.
Proof. vm_compute. reflexivity. Qed.

(** The stops of the two loops: 0, 20, ..., 600 and 0, 20, ..., 400. *)
Lemma verticalLines_strokes :
  forEachStop (fun i => [moveTo i 0]) CANVAS_WIDTH 0
  = map (fun k => moveTo (k * GRID_SIZE) 0) (cellsBelow 31)
  /\ List.length
       (filter isStroke
          (forEachStop (fun i => [beginPath; moveTo i 0;
                                  lineTo i CANVAS_HEIGHT; stroke])
                       CANVAS_WIDTH 0)) = 31%nat.
Proof. split; vm_compute; reflexivity. Qed.

Lemma horizontalLines_strokes :
  forEachStop (fun i => [moveTo 0 i]) CANVAS_HEIGHT 0
  = map (fun k => moveTo 0 (k * GRID_SIZE)) (cellsBelow 21)
  /\ List.length
       (filter isStroke
          (forEachStop (fun i => [beginPath; moveTo 0 i;
                                  lineTo CANVAS_WIDTH i; stroke])
                       CANVAS_HEIGHT 0)) = 21%nat.
Proof. split; vm_compute; reflexivity. Qed.

(** X12: without a canvas or a context [draw] makes no call; with both,
    after any play, every rectangle it fills lies inside the 600 x 400
    canvas, there is one for the background, one for each segment and one
    for the food, and it strokes the 31 + 21 lines of the grid. *)
Theorem play_draw (events : list Event)
  (Hdraws : Forall unitDraws events) :
  let st := run events initialState in
  (forall ctx, draw false ctx st = []) /\ draw true false st = []
  /\ Forall insideCanvas (draw true true st)
  /\ List.length (filter isFillRect (draw true true st))
     = (2 + List.length (snake st))%nat
  /\ List.length (filter isStroke (draw true true st)) = 52%nat.
Proof.
  cbv zeta.
  destruct (run_invariant (fun st => wellFormed (snake st))
              handle_wellFormed events initialState wellFormed_start)
    as [_ [Hgrid _]].
  pose proof (run_invariant_on unitDraws (fun st => inGrid (food st))
                handle_food_inGrid events initialState Hdraws
                initialFood_inGrid) as Hfood.
  set (st := run events initialState) in *.
  split; [reflexivity|]. split; [reflexivity|].
  unfold draw. cbn [negb].
  destruct (drawSegments_counts (snake st) 0) as [Hrects Hstrokes].
  split; [|split].
  - repeat (apply Forall_app; split).
    + repeat constructor; unfold CANVAS_WIDTH, CANVAS_HEIGHT; lia.
    + apply drawSegments_inside. exact Hgrid.
    + destruct Hfood as [Hx Hy].
      change (CANVAS_WIDTH / GRID_SIZE) with 30 in Hx.
      change (CANVAS_HEIGHT / GRID_SIZE) with 20 in Hy.
      repeat constructor;
        unfold cellRect, GRID_SIZE, CANVAS_WIDTH, CANVAS_HEIGHT; cbn; lia.
    + apply forEachStop_Forall. intros k. repeat constructor.
    + apply forEachStop_Forall. intros k. repeat constructor.
  - rewrite !filter_app, !length_app, Hrects.
    rewrite verticalLines_counts, horizontalLines_counts.
    cbn [filter isFillRect cellRect List.length]. lia.
  - rewrite !filter_app, !length_app, Hstrokes.
    rewrite (proj2 verticalLines_strokes), (proj2 horizontalLines_strokes).
    reflexivity.
Qed.

Lemma squarePlay_unitDraws : Forall unitDraws squarePlay.
Proof.
  unfold squarePlay, unitDraws, unit_draw.
  repeat (apply Forall_cons; [try exact I; lia|]). apply Forall_nil.
Qed.

Lemma play_draw_witness :
  Forall insideCanvas (draw true true (run squarePlay initialState)).
Proof.
  apply (play_draw squarePlay squarePlay_unitDraws).
Defined.

End SnakeGameSpec.

(** ** The continuous game *)

Module SlitherGameSpec.

Import SlitherGame.

Local Open Scope R_scope.

(** *** Lists and the [filter] method *)

Lemma skipn_nth_error {T : Type} (l : list T) :
  forall k v, nth_error l k = Some v -> skipn k l = v :: skipn (S k) l.
Proof.
  induction l as [|x l IH]; intros [|k] v Hnth; try discriminate.
  - injection Hnth as ->. reflexivity.
  - cbn [nth_error] in Hnth. apply IH in Hnth. exact Hnth.
Qed.

(** A [filter] whose callback only ever pushes to the array selects
    among the elements the array had at the call: what is pushed is never
    visited, and is not part of the result.  [summary] is any reading of
    the state that the callback updates by [step]. *)
Section FilterWithPushes.

Variables T St A : Type.
Variable current : St -> list T.
Variable callbackfn : T -> St -> bool * St.
Variable keep : T -> bool.
Variable summary : St -> A.
Variable step : A -> T -> A.

Hypothesis callback_selects :
  forall v st, fst (callbackfn v st) = keep v.
Hypothesis callback_appends :
  forall v st, exists pushed,
    current (snd (callbackfn v st)) = current st ++ pushed.
Hypothesis callback_steps :
  forall v st, summary (snd (callbackfn v st)) = step (summary st) v.

Lemma filterFrom_pushes (original : list T) :
  forall count k st kept pushed,
    current st = original ++ pushed ->
    (k + count = List.length original)%nat ->
    fst (filterFrom current callbackfn k count st kept)
    = kept ++ filter keep (skipn k original)
    /\ summary (snd (filterFrom current callbackfn k count st kept))
       = fold_left step (skipn k original) (summary st).
Proof.
  induction count as [|count IH]; intros k st kept pushed Hcur Hlen.
  - cbn [filterFrom fst snd]. rewrite skipn_all2 by lia.
    cbn [filter fold_left]. rewrite app_nil_r. split; reflexivity.
  - cbn [filterFrom].
    assert (Hk : (k < List.length original)%nat) by lia.
    destruct (nth_error original k) as [v|] eqn:Hnth;
      [|apply nth_error_None in Hnth; lia].
    rewrite Hcur, nth_error_app1, Hnth by exact Hk.
    pose proof (callback_selects v st) as Hsel.
    destruct (callback_appends v st) as [more Hmore].
    pose proof (callback_steps v st) as Hstep.
    destruct (callbackfn v st) as [selected st'].
    cbn [fst snd] in Hsel, Hmore, Hstep.
    rewrite Hcur, <- app_assoc in Hmore.
    destruct (IH (S k) st' (if selected then kept ++ [v] else kept)
                 (pushed ++ more) Hmore ltac:(lia)) as [IHk IHs].
    rewrite (skipn_nth_error original k v Hnth). split.
    + rewrite IHk. cbn [filter]. rewrite <- Hsel.
      destruct selected; [rewrite <- app_assoc|]; reflexivity.
    + rewrite IHs, Hstep. reflexivity.
Qed.

Lemma arrayFilter_pushes (st : St) :
  fst (arrayFilter current callbackfn st) = filter keep (current st)
  /\ summary (snd (arrayFilter current callbackfn st))
     = fold_left step (current st) (summary st).
Proof.
  unfold arrayFilter.
  exact (filterFrom_pushes (current st) (List.length (current st)) 0%nat
           st [] [] ltac:(rewrite app_nil_r; reflexivity)
           ltac:(reflexivity)).
Qed.

End FilterWithPushes.

Lemma storeAt_length {T : Type} (i : nat) (v : T) (l : list T) :
  List.length (storeAt i v l) = List.length l.
Proof.
  revert i. induction l as [|x l IH]; intros [|i]; cbn; try reflexivity.
  rewrite IH. reflexivity.
Qed.

Lemma nth_error_storeAt {T : Type} (i : nat) (v x : T) (l : list T) :
  nth_error l i = Some x -> nth_error (storeAt i v l) i = Some v.
Proof.
  revert i. induction l as [|y l IH]; intros [|i] H; cbn in *;
    try discriminate; [reflexivity | apply IH; exact H].
Qed.

Lemma storeAt_twice {T : Type} (i : nat) (u v : T) (l : list T) :
  storeAt i v (storeAt i u l) = storeAt i v l.
Proof.
  revert i. induction l as [|y l IH]; intros [|i]; cbn; try reflexivity.
  rewrite IH. reflexivity.
Qed.

(** *** Steering *)

Lemma setDirection_same (s : Snake) : setDirection (direction s) s = s.
Proof. destruct s. reflexivity. Qed.

Lemma setDirection_twice (d e : R) (s : Snake) :
  setDirection e (setDirection d s) = setDirection e s.
Proof. reflexivity. Qed.

Lemma updateAI_direction (fs : list Food) (s : Snake) h0 rest :
  segments s = h0 :: rest ->
  exists d, updateAI fs s = Some (setDirection d s).
Proof.
  intros Hseg. unfold updateAI. rewrite Hseg.
  destruct (isPlayer s || isDead s).
  - exists (direction s). rewrite setDirection_same. reflexivity.
  - destruct (fold_left (nearestStep h0) fs None) as [[nearestFood d]|].
    + destruct (ltb _ _); eexists; reflexivity.
    + exists (direction s). rewrite setDirection_same. reflexivity.
Qed.

Lemma steerPlayer_direction (c : Render) (s : Snake) h0 rest :
  segments s = h0 :: rest ->
  exists d, steerPlayer c s = Some (setDirection d s).
Proof.
  intros Hseg. unfold steerPlayer. rewrite Hseg.
  destruct (isPlayer s).
  - eexists; reflexivity.
  - exists (direction s). rewrite setDirection_same. reflexivity.
Qed.

(** *** The food [filter] and the update of one snake *)

Lemma eatCallback_selects head isP food st :
  fst (eatCallback head isP food st) = negb (eats head food).
Proof.
  unfold eatCallback. destruct st as [ate w].
  destruct (eats head food); reflexivity.
Qed.

Lemma eatCallback_appends head isP food st :
  exists pushed,
    foods (snd (snd (eatCallback head isP food st)))
    = foods (snd st) ++ pushed.
Proof.
  unfold eatCallback. destruct st as [ate w].
  destruct (eats head food).
  - destruct isP; eexists; reflexivity.
  - exists []. rewrite app_nil_r. reflexivity.
Qed.

Lemma eatCallback_steps head isP food st :
  eatSummary (snd (eatCallback head isP food st))
  = eatStep head (eatSummary st) food.
Proof.
  unfold eatCallback, eatSummary, eatStep. destruct st as [ate w].
  destruct (eats head food); cbn [fst snd].
  - rewrite orb_true_r. destruct isP; reflexivity.
  - rewrite orb_false_r. reflexivity.
Qed.

Lemma fold_eatStep head fs : forall sn ate,
  fold_left (eatStep head) fs (sn, ate)
  = (sn, ate || existsb (eats head) fs).
Proof.
  induction fs as [|food fs IH]; intros sn ate; cbn [fold_left existsb].
  - rewrite orb_false_r. reflexivity.
  - unfold eatStep at 2. cbn [fst snd]. rewrite IH, orb_assoc. reflexivity.
Qed.

(** The food [filter] of [updateSnake]. *)
Lemma eat_filter head isP w :
  let result :=
    arrayFilter (fun st => foods (snd st)) (eatCallback head isP) (false, w) in
  fst result = filter (fun food => negb (eats head food)) (foods w)
  /\ snakes (snd (snd result)) = snakes w
  /\ fst (snd result) = existsb (eats head) (foods w).
Proof.
  cbv zeta.
  destruct (arrayFilter_pushes Food (bool * World) (list Snake * bool)
              (fun st => foods (snd st))
              (eatCallback head isP) (fun food => negb (eats head food))
              eatSummary (eatStep head)
              (eatCallback_selects head isP) (eatCallback_appends head isP)
              (eatCallback_steps head isP)
              (false, w)) as [Hk Hs].
  split; [exact Hk|].
  unfold eatSummary in Hs. cbn [fst snd] in Hs.
  rewrite fold_eatStep in Hs. cbn [orb] in Hs.
  injection Hs as Hsn Hate.
  split; [exact Hsn | exact Hate].
Qed.

Lemma snakes_storeSnake i s w :
  snakes (storeSnake i s w) = storeAt i s (snakes w).
Proof. reflexivity. Qed.

Lemma snakes_end_of_game (b : bool) w :
  snakes (if b then setGameRunning false (setGameOver true w) else w)
  = snakes w.
Proof. destruct b; reflexivity. Qed.

Lemma foods_end_of_game (b : bool) w :
  foods (if b then setGameRunning false (setGameOver true w) else w)
  = foods w.
Proof. destruct b; reflexivity. Qed.

(** The snake the update leaves at [i], and the food it leaves. *)
Lemma updateSnake_alive c i w s steered aimed h0 rest :
  nth_error (snakes w) i = Some s ->
  isDead s = false ->
  updateAI (foods w) s = Some steered ->
  steerPlayer c steered = Some aimed ->
  segments aimed = h0 :: rest ->
  isDead aimed = false ->
  let head := movedHead aimed h0 in
  let body :=
    setSegments (if existsb (eats head) (foods w) then head :: h0 :: rest
                 else removelast (head :: h0 :: rest)) aimed in
  exists w',
    updateSnake c i w = Some w'
    /\ foods w' = filter (fun food => negb (eats head food)) (foods w)
    /\ snakes w' =
       storeAt i (setIsDead
                    (collides (id aimed) head (storeAt i body (snakes w)))
                    body)
               (snakes w).
Proof.
  intros Hnth Halive Hai Hsteer Hseg Haimed. cbv zeta.
  unfold updateSnake. rewrite Hnth, Halive, Hai, Hsteer, Hseg.
  set (head := movedHead aimed h0).
  set (grown := setSegments (head :: h0 :: rest) aimed).
  pose proof (eat_filter head (isPlayer grown) (storeSnake i grown w)) as Hf.
  cbv zeta in Hf.
  destruct (arrayFilter _ _ _) as [kept [ate w2]].
  cbn [fst snd] in Hf. destruct Hf as [Hkept [Hsn Hate]].
  rewrite snakes_storeSnake in Hsn.
  change (foods (storeSnake i grown w)) with (foods w) in Hkept, Hate.
  rewrite <- Hate.
  set (moved := if ate then grown
                else setSegments (removelast (segments grown)) grown).
  assert (Hmoved : moved = setSegments
                     (if ate then head :: h0 :: rest
                      else removelast (head :: h0 :: rest)) aimed).
  { unfold moved, grown. destruct ate; reflexivity. }
  assert (Hsn4 : snakes (storeSnake i moved (setFoods kept w2))
                 = storeAt i moved (snakes w)).
  { rewrite snakes_storeSnake.
    change (snakes (setFoods kept w2)) with (snakes w2).
    rewrite Hsn. apply storeAt_twice. }
  rewrite Hsn4.
  set (dead := collides (SlitherGame.id moved) head
                 (storeAt i moved (snakes w))).
  exists (if dead
          then (if isPlayer moved
                then setGameRunning false
                       (setGameOver true
                          (storeSnake i (setIsDead true moved)
                             (storeSnake i moved (setFoods kept w2))))
                else storeSnake i (setIsDead true moved)
                       (storeSnake i moved (setFoods kept w2)))
          else storeSnake i moved (setFoods kept w2)).
  assert (Hid : SlitherGame.id moved = SlitherGame.id aimed)
    by (rewrite Hmoved; reflexivity).
  rewrite <- Hmoved, <- Hid.
  fold dead.
  split; [destruct dead; reflexivity|].
  destruct dead.
  - split.
    + rewrite foods_end_of_game. exact Hkept.
    + rewrite snakes_end_of_game, snakes_storeSnake, Hsn4, storeAt_twice.
      reflexivity.
  - split.
    + exact Hkept.
    + rewrite Hsn4. f_equal.
      rewrite Hmoved. destruct aimed. cbn in Haimed. subst. reflexivity.
Qed.

(** *** The loop and its captured flags *)

(** A [gameLoop] that has captured a game not running, or a game over,
    changes nothing. *)
Lemma gameLoop_not_running c now w :
  r_gameRunning c = false \/ r_gameOver c = true -> gameLoop c now w = Some w.
Proof.
  intros [H | H]; unfold gameLoop; rewrite H; [reflexivity|].
  rewrite orb_true_r. reflexivity.
Qed.

(** *** The normalising loops of [updateAI] *)

Lemma iter_minus (n : nat) (c d : R) :
  Nat.iter n (fun x => x - c) d = d - INR n * c.
Proof.
  induction n as [|n IH].
  - unfold Nat.iter. cbn [nat_rect INR]. lra.
  - rewrite S_INR, Nat.iter_succ, IH. lra.
Qed.

Lemma iter_plus (n : nat) (c d : R) :
  Nat.iter n (fun x => x + c) d = d + INR n * c.
Proof.
  induction n as [|n IH].
  - unfold Nat.iter. cbn [nat_rect INR]. lra.
  - rewrite S_INR, Nat.iter_succ, IH. lra.
Qed.

(** [Z.to_nat (1 - up (- t))] is the least natural number that is at
    least [t]. *)
Lemma least_turns (t : R) :
  let n := Z.to_nat (1 - up (- t)) in
  t <= INR n /\ forall j : nat, (j < n)%nat -> INR j < t.
Proof.
  cbv zeta. destruct (archimed (- t)) as [Hgt Hle].
  set (m := (1 - up (- t))%Z).
  assert (Hm : IZR m = 1 - IZR (up (- t))).
  { unfold m. rewrite minus_IZR. reflexivity. }
  destruct (Z_le_gt_dec m 0) as [Hneg | Hpos].
  - assert (Hn : Z.to_nat m = 0%nat) by lia.
    rewrite Hn. cbn [INR]. split; [|intros j Hj; lia].
    apply IZR_le in Hneg. lra.
  - assert (Hn : INR (Z.to_nat m) = IZR m).
    { rewrite INR_IZR_INZ, Z2Nat.id by lia. reflexivity. }
    rewrite Hn. split; [lra|].
    intros j Hj.
    assert (Hj' : (Z.of_nat j <= m - 1)%Z) by lia.
    apply IZR_le in Hj'. rewrite minus_IZR, <- INR_IZR_INZ in Hj'. lra.
Qed.

(** The first loop of [normalize] runs [turnsDown d] times: the guard
    [d > PI] holds before each of these runs and fails after the last. *)
Lemma turnsDown_loop (d : R) :
  Nat.iter (turnsDown d) (fun x => x - 2 * PI) d <= PI
  /\ forall j : nat, (j < turnsDown d)%nat ->
       PI < Nat.iter j (fun x => x - 2 * PI) d.
Proof.
  pose proof PI_RGT_0 as Hpi.
  destruct (least_turns ((d - PI) / (2 * PI))) as [Hle Hlt].
  fold (turnsDown d) in Hle, Hlt.
  assert (Hd : d - PI = (d - PI) / (2 * PI) * (2 * PI)) by (field; lra).
  split.
  - rewrite iter_minus. nra.
  - intros j Hj. rewrite iter_minus. specialize (Hlt j Hj). nra.
Qed.

Lemma turnsUp_loop (d : R) :
  - PI <= Nat.iter (turnsUp d) (fun x => x + 2 * PI) d
  /\ forall j : nat, (j < turnsUp d)%nat ->
       Nat.iter j (fun x => x + 2 * PI) d < - PI.
Proof.
  pose proof PI_RGT_0 as Hpi.
  destruct (least_turns ((- PI - d) / (2 * PI))) as [Hle Hlt].
  fold (turnsUp d) in Hle, Hlt.
  assert (Hd : - PI - d = (- PI - d) / (2 * PI) * (2 * PI)) by (field; lra).
  split.
  - rewrite iter_plus. nra.
  - intros j Hj. rewrite iter_plus. specialize (Hlt j Hj). nra.
Qed.

(** [normalize] returns an angle of [-PI, PI]. *)
Lemma normalize_range (d : R) : - PI <= normalize d <= PI.
Proof.
  pose proof PI_RGT_0 as Hpi.
  unfold normalize.
  set (d1 := Nat.iter (turnsDown d) (fun x => x - 2 * PI) d).
  destruct (turnsDown_loop d) as [Hd1 _]. fold d1 in Hd1.
  destruct (turnsUp_loop d1) as [Hlow Hguard].
  split; [exact Hlow|].
  destruct (turnsUp d1) as [|n] eqn:Hn.
  - exact Hd1.
  - specialize (Hguard n ltac:(lia)).
    rewrite Nat.iter_succ. lra.
Qed.

(** *** The head of an updated snake *)

Lemma clamp_range lo hi x :
  lo <= hi -> lo <= Rmax lo (Rmin hi x) <= hi.
Proof.
  intros H. unfold Rmax, Rmin.
  destruct (Rle_dec hi x); destruct (Rle_dec lo _); lra.
Qed.

Lemma clamp_cases lo hi x :
  lo <= hi ->
  (x < lo -> Rmax lo (Rmin hi x) = lo)
  /\ (lo <= x <= hi -> Rmax lo (Rmin hi x) = x)
  /\ (hi < x -> Rmax lo (Rmin hi x) = hi).
Proof.
  intros H. unfold Rmax, Rmin.
  destruct (Rle_dec hi x); destruct (Rle_dec lo _); repeat split; lra.
Qed.

Lemma steering_keeps (c : Render) (fs : list Food) (s : Snake) h0 rest :
  segments s = h0 :: rest ->
  exists steered aimed,
    updateAI fs s = Some steered
    /\ steerPlayer c steered = Some aimed
    /\ aimed = setDirection (direction aimed) s.
Proof.
  intros Hseg.
  destruct (updateAI_direction fs s h0 rest Hseg) as [d Hd].
  destruct (steerPlayer_direction c (setDirection d s) h0 rest Hseg)
    as [e He].
  exists (setDirection d s), (setDirection e s).
  split; [exact Hd|]. split; [exact He | reflexivity].
Qed.

(** Whatever the snake, the food its update leaves is what the [filter]
    selected from the food there was: no pushed item is part of it. *)
Lemma updateSnake_pool_not_refilled c i w s h0 rest :
  nth_error (snakes w) i = Some s ->
  isDead s = false ->
  segments s = h0 :: rest ->
  exists w' head,
    updateSnake c i w = Some w'
    /\ foods w' = filter (fun food => negb (eats head food)) (foods w)
    /\ (List.length (foods w') <= List.length (foods w))%nat.
Proof.
  intros Hnth Halive Hseg.
  destruct (steering_keeps c (foods w) s h0 rest Hseg)
    as [steered [aimed [Hai [Hsteer Haimed]]]].
  assert (Hseg' : segments aimed = h0 :: rest)
    by (rewrite Haimed; exact Hseg).
  assert (Hdead' : isDead aimed = false)
    by (rewrite Haimed; exact Halive).
  destruct (updateSnake_alive c i w s steered aimed h0 rest
              Hnth Halive Hai Hsteer Hseg' Hdead') as [w' [Hw' [Hfoods _]]].
  exists w', (movedHead aimed h0).
  split; [exact Hw'|]. split; [exact Hfoods|].
  rewrite Hfoods. apply filter_length_le.
Qed.

(** C6: for every living snake, [updateSnake] returns, and the snake it
    leaves in the array has as first segment the previous head plus
    (cos direction * speed, sin direction * speed), the direction being
    the one the steering of this frame has set, with x clamped to
    [8, 1992] and y to [8, 1492], without wraparound; the segments after it
    are the previous ones, or those without the last. *)
Theorem updateSnake_head (c : Render) (i : nat) (w : World) (s : Snake)
  (h0 : Position) (rest : list Position)
  (Hnth : nth_error (snakes w) i = Some s)
  (Halive : isDead s = false)
  (Hseg : segments s = h0 :: rest) :
  exists w' steered aimed s' head tail,
    updateSnake c i w = Some w'
    /\ updateAI (foods w) s = Some steered
    /\ steerPlayer c steered = Some aimed
    /\ nth_error (snakes w') i = Some s'
    /\ direction s' = direction aimed
    /\ speed s' = speed s
    /\ segments s' = head :: tail
    /\ (tail = h0 :: rest \/ tail = removelast (h0 :: rest))
    /\ let x := px h0 + cos (direction s') * speed s' in
       let y := py h0 + sin (direction s') * speed s' in
       8 <= px head <= 1992 /\ 8 <= py head <= 1492
       /\ (x < 8 -> px head = 8)
       /\ (8 <= x <= 1992 -> px head = x)
       /\ (1992 < x -> px head = 1992)
       /\ (y < 8 -> py head = 8)
       /\ (8 <= y <= 1492 -> py head = y)
       /\ (1492 < y -> py head = 1492).
Proof.
  destruct (steering_keeps c (foods w) s h0 rest Hseg)
    as [steered [aimed [Hai [Hsteer Haimed]]]].
  assert (Hseg' : segments aimed = h0 :: rest)
    by (rewrite Haimed; exact Hseg).
  assert (Hdead' : isDead aimed = false)
    by (rewrite Haimed; exact Halive).
  destruct (updateSnake_alive c i w s steered aimed h0 rest
              Hnth Halive Hai Hsteer Hseg' Hdead') as [w' [Hw' [_ Hsn]]].
  set (head := movedHead aimed h0) in *.
  set (ate := existsb (eats head) (foods w)) in *.
  exists w', steered, aimed. eexists. exists head.
  exists (if ate then h0 :: rest else removelast (h0 :: rest)).
  split; [exact Hw'|]. split; [exact Hai|]. split; [exact Hsteer|].
  split; [rewrite Hsn; eapply nth_error_storeAt; exact Hnth|].
  split; [reflexivity|].
  split; [rewrite Haimed; reflexivity|].
  split; [destruct ate; reflexivity|].
  split; [destruct ate; [left | right]; reflexivity|].
  cbn [direction speed setIsDead setSegments]. cbv zeta.
  unfold head, movedHead. cbn [px py].
  unfold SEGMENT_SIZE, WORLD_WIDTH, WORLD_HEIGHT.
  replace (2000 - 8) with 1992 by lra.
  replace (1500 - 8) with 1492 by lra.
  pose proof (clamp_range 8 1992
                (px h0 + cos (direction aimed) * speed aimed) ltac:(lra)).
  pose proof (clamp_range 8 1492
                (py h0 + sin (direction aimed) * speed aimed) ltac:(lra)).
  pose proof (clamp_cases 8 1992
                (px h0 + cos (direction aimed) * speed aimed) ltac:(lra))
    as [? [? ?]].
  pose proof (clamp_cases 8 1492
                (py h0 + sin (direction aimed) * speed aimed) ltac:(lra))
    as [? [? ?]].
  repeat split; assumption || lra.
Qed.

Lemma updateSnake_head_witness :
  exists w' s' head tail,
    updateSnake (render feastWorld) 0 feastWorld = Some w'
    /\ nth_error (snakes w') 0 = Some s'
    /\ segments s' = head :: tail
    /\ 8 <= px head <= 1992 /\ 8 <= py head <= 1492.
Proof.
  destruct (updateSnake_head (render feastWorld) 0 feastWorld playerAt100
              (mkPos 100 100)
              [mkPos 92 100; mkPos 84 100; mkPos 76 100; mkPos 68 100]
              eq_refl eq_refl eq_refl)
    as [w' [steered [aimed [s' [head [tail H]]]]]].
  exists w', s', head, tail.
  destruct H as [Hw [_ [_ [Hs [_ [_ [Hseg [_ [Hx [Hy _]]]]]]]]]].
  repeat split; try assumption; (apply Hx || apply Hy).
Defined.

(** *** Numbers *)

Lemma ltb_true a b : a < b -> ltb a b = true.
Proof.
  intros H. unfold ltb.
  destruct (Rlt_dec a b); [reflexivity | contradiction].
Qed.

Lemma ltb_false a b : b <= a -> ltb a b = false.
Proof. intros H. unfold ltb. destruct (Rlt_dec a b); [lra | reflexivity]. Qed.

Lemma sqrt_below x r : 0 <= x -> 0 < r -> x < r * r -> sqrt x < r.
Proof.
  intros Hx Hr H. rewrite <- (sqrt_square r) by lra.
  apply sqrt_lt_1_alt. lra.
Qed.

Lemma sqrt_above x r : 0 <= r -> r * r <= x -> r <= sqrt x.
Proof.
  intros Hr H. rewrite <- (sqrt_square r) by lra.
  apply sqrt_le_1_alt. exact H.
Qed.

Lemma near_true x y head r :
  0 < r -> (x - px head) ^ 2 + (y - py head) ^ 2 < r * r ->
  ltb (distanceTo x y head) r = true.
Proof.
  intros Hr H. apply ltb_true. unfold distanceTo.
  apply sqrt_below; [|exact Hr | exact H].
  apply Rplus_le_le_0_compat; apply pow2_ge_0.
Qed.

Lemma far_false x y head r :
  0 <= r -> r * r <= (x - px head) ^ 2 + (y - py head) ^ 2 ->
  ltb (distanceTo x y head) r = false.
Proof.
  intros Hr H. apply ltb_false. unfold distanceTo.
  apply sqrt_above; assumption.
Qed.

Lemma atan2_ahead x y : 0 < x -> y = 0 -> atan2 y x = 0.
Proof.
  intros Hx ->. unfold atan2.
  destruct (Rlt_dec 0 x); [|contradiction].
  unfold Rdiv. rewrite Rmult_0_l. apply atan_0.
Qed.

Lemma filter_repeat {T : Type} (f : T -> bool) (x : T) (n : nat) :
  f x = true -> filter f (repeat x n) = repeat x n.
Proof.
  intros H. induction n as [|n IH]; [reflexivity|].
  cbn [repeat filter]. rewrite H, IH. reflexivity.
Qed.

Lemma filter_cons {T : Type} (f : T -> bool) (x : T) (l : list T) :
  filter f (x :: l) = if f x then x :: filter f l else filter f l.
Proof. reflexivity. Qed.

(** *** The food pool *)

Lemma player_steered fs :
  updateAI fs playerAt100 = Some playerAt100.
Proof. reflexivity. Qed.

Lemma player_aimed c :
  r_mousePos c = mkPos 600 400 -> r_camera c = mkPos 0 0 ->
  steerPlayer c playerAt100 = Some playerAimed.
Proof.
  intros Hm Hc. unfold steerPlayer, playerAimed. rewrite Hm, Hc.
  cbn [isPlayer playerAt100 segments px py].
  rewrite atan2_ahead; [reflexivity | |];
    unfold CANVAS_WIDTH, CANVAS_HEIGHT; lra.
Qed.

Lemma player_head : movedHead playerAimed (mkPos 100 100) = mkPos 102 100.
Proof.
  unfold movedHead, playerAimed.
  cbn [direction speed setDirection playerAt100 px py].
  rewrite cos_0, sin_0.
  unfold SEGMENT_SIZE, WORLD_WIDTH, WORLD_HEIGHT.
  destruct (clamp_cases 8 (2000 - 8) (100 + 1 * 2) ltac:(lra)) as [_ [Hx _]].
  destruct (clamp_cases 8 (1500 - 8) (100 + 0 * 2) ltac:(lra)) as [_ [Hy _]].
  rewrite Hx, Hy by lra. f_equal; lra.
Qed.

Lemma eats_nearFood : eats (mkPos 102 100) nearFood = true.
Proof.
  unfold eats, nearFood. cbn [fx fy size].
  apply near_true; unfold SEGMENT_SIZE; cbn [px py]; lra.
Qed.

Lemma eats_farFood : eats (mkPos 102 100) farFood = false.
Proof.
  unfold eats, farFood. cbn [fx fy size].
  apply far_false; unfold SEGMENT_SIZE; cbn [px py]; lra.
Qed.

(** C1 fails on the code: the player of [feastWorld] moves onto one of
    the 200 food items; [updateSnake] removes it, pushes the replacement
    to the array that the assignment of the [filter] result then drops,
    and leaves 199 items. *)
Theorem updateSnake_food_pool_shrinks :
  exists w',
    updateSnake (render feastWorld) 0 feastWorld = Some w'
    /\ List.length (foods feastWorld) = FOOD_COUNT
    /\ foods w' = repeat farFood 199
    /\ List.length (foods w') = 199%nat.
Proof.
  destruct (updateSnake_alive (render feastWorld) 0 feastWorld playerAt100
              playerAt100 playerAimed (mkPos 100 100)
              [mkPos 92 100; mkPos 84 100; mkPos 76 100; mkPos 68 100]
              eq_refl eq_refl (player_steered _)
              (player_aimed (render feastWorld) eq_refl eq_refl)
              eq_refl eq_refl) as [w' [Hw' [Hfoods _]]].
  rewrite player_head in Hfoods.
  assert (Hpool : foods w' = repeat farFood 199).
  { rewrite Hfoods.
    change (foods feastWorld) with (nearFood :: repeat farFood 199).
    rewrite filter_cons, eats_nearFood. cbn [negb].
    apply filter_repeat. rewrite eats_farFood. reflexivity. }
  exists w'. split; [exact Hw'|]. split; [reflexivity|].
  split; [exact Hpool|]. rewrite Hpool. apply repeat_length.
Qed.

(** *** The removal of dead snakes *)

Lemma replaceCallback_selects now snake w :
  fst (replaceCallback now snake w) = survives snake.
Proof.
  unfold replaceCallback, survives.
  destruct (negb (isPlayer snake) && isDead snake); reflexivity.
Qed.

Lemma replaceCallback_appends now snake w :
  exists pushed,
    snakes (snd (replaceCallback now snake w)) = snakes w ++ pushed.
Proof.
  unfold replaceCallback.
  destruct (negb (isPlayer snake) && isDead snake).
  - eexists. reflexivity.
  - exists []. rewrite app_nil_r. reflexivity.
Qed.

(** The [filter] of [gameLoop] keeps the survivors and nothing else. *)
Lemma replaceDead_snakes now w :
  snakes (replaceDead now w) = filter survives (snakes w).
Proof.
  unfold replaceDead.
  destruct (arrayFilter_pushes Snake World unit snakes (replaceCallback now)
              survives (fun _ => tt) (fun _ _ => tt)
              (replaceCallback_selects now) (replaceCallback_appends now)
              (fun _ _ => eq_refl) w) as [Hk _].
  destruct (arrayFilter snakes (replaceCallback now) w) as [kept w'].
  cbn [fst] in Hk. rewrite <- Hk. reflexivity.
Qed.

Lemma touchesFrom_cons self other head index segment rest :
  touchesFrom self other head index (segment :: rest)
  = (if Nat.eqb index 0 && negb (id_eqb other self) then false
     else ltb (distanceTo (px segment) (py segment) head) SEGMENT_SIZE)
    || touchesFrom self other head (S index) rest.
Proof. reflexivity. Qed.

Lemma touchesFrom_far self other head segs :
  Forall (outOfReach head) segs ->
  forall index, touchesFrom self other head index segs = false.
Proof.
  induction 1 as [|segment rest Hfar _ IH]; intros index; [reflexivity|].
  rewrite touchesFrom_cons, IH, orb_false_r.
  destruct (Nat.eqb index 0 && negb (id_eqb other self)); [reflexivity|].
  apply far_false; [unfold SEGMENT_SIZE; lra | exact Hfar].
Qed.

Lemma collides_cons self head other others :
  collides self head (other :: others)
  = (if id_eqb (id other) self || isDead other then false
     else touchesFrom self (id other) head 0 (segments other))
    || collides self head others.
Proof. reflexivity. Qed.

Ltac reach := unfold outOfReach, SEGMENT_SIZE; cbn [px py]; lra.

Lemma ai_head : movedHead aiBelow (mkPos 76 109) = mkPos 76 107.
Proof.
  unfold movedHead. cbn [direction speed aiBelow px py].
  rewrite cos_neg, sin_neg, cos_PI2, sin_PI2.
  unfold SEGMENT_SIZE, WORLD_WIDTH, WORLD_HEIGHT.
  destruct (clamp_cases 8 (2000 - 8) (76 + 0 * 2) ltac:(lra)) as [_ [Hx _]].
  destruct (clamp_cases 8 (1500 - 8) (109 + - (1) * 2) ltac:(lra))
    as [_ [Hy _]].
  rewrite Hx, Hy by lra. f_equal; lra.
Qed.

Lemma player_clear :
  collides player (mkPos 102 100) [playerMoved; aiBelow] = false.
Proof.
  rewrite !collides_cons.
  change (id_eqb (SlitherGame.id playerMoved) player) with true.
  change (id_eqb (SlitherGame.id aiBelow) player || isDead aiBelow) with false.
  cbn [orb]. rewrite touchesFrom_far; [reflexivity|].
  unfold aiBelow. cbn [segments].
  repeat (apply Forall_cons; [reach|]). apply Forall_nil.
Qed.

Lemma ai_crashes :
  collides (ai 0) (mkPos 76 107) [playerMoved; aiMoved] = true.
Proof.
  rewrite collides_cons.
  change (id_eqb (SlitherGame.id playerMoved) (ai 0) || isDead playerMoved)
    with false.
  cbn iota.
  change (segments playerMoved)
    with [mkPos 102 100; mkPos 100 100; mkPos 92 100; mkPos 84 100;
          mkPos 76 100].
  rewrite !touchesFrom_cons.
  change (Nat.eqb 4 0 && negb (id_eqb (SlitherGame.id playerMoved) (ai 0)))
    with false.
  cbn iota. cbn [px py].
  rewrite (near_true 76 100 (mkPos 76 107) SEGMENT_SIZE);
    [|unfold SEGMENT_SIZE; lra | unfold SEGMENT_SIZE; cbn [px py]; lra].
  rewrite !orb_true_r. reflexivity.
Qed.

Lemma crash_player_step c :
  r_mousePos c = mkPos 600 400 -> r_camera c = mkPos 0 0 ->
  exists w1,
    updateSnake c 0 crashWorld = Some w1
    /\ foods w1 = []
    /\ snakes w1 = [playerMoved; aiBelow].
Proof.
  intros Hm Hc.
  destruct (updateSnake_alive c 0 crashWorld playerAt100
              playerAt100 playerAimed (mkPos 100 100)
              [mkPos 92 100; mkPos 84 100; mkPos 76 100; mkPos 68 100]
              eq_refl eq_refl (player_steered _) (player_aimed c Hm Hc)
              eq_refl eq_refl) as [w1 [Hw1 [Hfoods Hsnakes]]].
  rewrite player_head in Hfoods, Hsnakes.
  exists w1. split; [exact Hw1|]. split; [exact Hfoods|].
  rewrite Hsnakes.
  change (foods crashWorld) with (@nil Food).
  change (existsb (eats (mkPos 102 100)) []) with false.
  cbn iota.
  change (setSegments _ playerAimed) with playerMoved.
  change (storeAt 0 playerMoved (snakes crashWorld))
    with [playerMoved; aiBelow].
  change (SlitherGame.id playerAimed) with player.
  rewrite player_clear. reflexivity.
Qed.

Lemma crash_ai_step c w1 :
  foods w1 = [] -> snakes w1 = [playerMoved; aiBelow] ->
  exists w2,
    updateSnake c 1 w1 = Some w2
    /\ snakes w2 = [playerMoved; setIsDead true aiMoved].
Proof.
  intros Hfoods Hsnakes.
  assert (Hnth : nth_error (snakes w1) 1 = Some aiBelow)
    by (rewrite Hsnakes; reflexivity).
  assert (Hai : updateAI (foods w1) aiBelow = Some aiBelow)
    by (rewrite Hfoods; reflexivity).
  destruct (updateSnake_alive c 1 w1 aiBelow aiBelow aiBelow (mkPos 76 109)
              [mkPos 76 117; mkPos 76 125; mkPos 76 133; mkPos 76 141]
              Hnth eq_refl Hai eq_refl eq_refl eq_refl)
    as [w2 [Hw2 [_ Hsn]]].
  rewrite ai_head in Hsn.
  exists w2. split; [exact Hw2|].
  rewrite Hsn, Hfoods, Hsnakes.
  change (existsb (eats (mkPos 76 107)) []) with false.
  cbn iota.
  change (setSegments _ aiBelow) with aiMoved.
  change (storeAt 1 aiMoved [playerMoved; aiBelow])
    with [playerMoved; aiMoved].
  change (SlitherGame.id aiBelow) with (ai 0).
  rewrite ai_crashes. reflexivity.
Qed.

(** C2 fails on the code: in [crashWorld] the non-player snake runs
    into the player's body during the frame; [gameLoop] removes it, pushes
    the new snake to the array that the assignment of the [filter] result
    then drops, and leaves the player alone: one snake where there were
    two. *)
Theorem gameLoop_dead_ai_not_replaced (now : Z) :
  exists w',
    gameLoop (render crashWorld) now crashWorld = Some w'
    /\ List.length (snakes crashWorld) = 2%nat
    /\ snakes w' = [playerMoved]
    /\ List.length (snakes w') = 1%nat.
Proof.
  destruct (crash_player_step (render crashWorld) eq_refl eq_refl)
    as [w1 [Hw1 [Hfoods1 Hsnakes1]]].
  destruct (crash_ai_step (render crashWorld) w1 Hfoods1 Hsnakes1)
    as [w2 [Hw2 Hsnakes2]].
  assert (Hfollow : exists w3,
             followPlayer w2 = Some w3
             /\ snakes w3 = [playerMoved; setIsDead true aiMoved]).
  { unfold followPlayer. rewrite Hsnakes2.
    change (find isPlayer [playerMoved; setIsDead true aiMoved])
      with (Some playerMoved).
    cbn iota.
    change (negb (isDead playerMoved)) with true. cbn iota.
    change (segments playerMoved)
      with [mkPos 102 100; mkPos 100 100; mkPos 92 100; mkPos 84 100;
            mkPos 76 100].
    cbn iota. eexists. split; [reflexivity | exact Hsnakes2]. }
  destruct Hfollow as [w3 [Hw3 Hsnakes3]].
  exists (replaceDead now w3).
  assert (Hkept : snakes (replaceDead now w3) = [playerMoved]).
  { rewrite replaceDead_snakes, Hsnakes3. reflexivity. }
  split; [|split; [reflexivity | split; [exact Hkept|]]].
  - unfold gameLoop.
    change (negb (r_gameRunning (render crashWorld))
            || r_gameOver (render crashWorld)) with false.
    cbn iota.
    change (List.length (snakes crashWorld)) with 2%nat.
    cbn [forEachSnake]. rewrite Hw1, Hw2, Hw3. reflexivity.
  - rewrite Hkept. reflexivity.
Qed.

(** *** The start of a game *)

Lemma scaled_unit (r a : R) : 0 <= r < 1 -> 0 < a -> 0 <= r * a < a.
Proof.
  intros [H0 H1] Ha. split.
  - apply Rmult_le_pos; lra.
  - rewrite <- (Rmult_1_l a) at 2. apply Rmult_lt_compat_r; assumption.
Qed.

Lemma random_value w :
  fst (random w) = randomSource w (randomUsed w)
  /\ randomSource (snd (random w)) = randomSource w
  /\ randomUsed (snd (random w)) = S (randomUsed w)
  /\ snakes (snd (random w)) = snakes w
  /\ foods (snd (random w)) = foods w.
Proof. repeat split; reflexivity. Qed.

(** ** Powers of two *)

Lemma pow2_pos e : 0 < powerRZ 2 e.
Proof. apply powerRZ_lt. lra. Qed.

Lemma pow2_nonneg_exponent e : (0 <= e)%Z -> powerRZ 2 e = IZR (2 ^ e).
Proof.
  intros He. destruct e as [|p|p]; [reflexivity | | lia].
  symmetry. apply (Zpower_pos_powerRZ 2 p).
Qed.

Lemma pow2_ge_1 e : (0 <= e)%Z -> 1 <= powerRZ 2 e.
Proof.
  intros He. rewrite pow2_nonneg_exponent by exact He.
  apply IZR_le. assert (0 < 2 ^ e)%Z by (apply Z.pow_pos_nonneg; lia). lia.
Qed.

Lemma pow2_add a b : powerRZ 2 (a + b) = powerRZ 2 a * powerRZ 2 b.
Proof. apply powerRZ_add. lra. Qed.

Lemma pow2_le a b : (a <= b)%Z -> powerRZ 2 a <= powerRZ 2 b.
Proof.
  intros Hab. replace b with (a + (b - a))%Z by lia. rewrite pow2_add.
  pose proof (pow2_pos a). pose proof (pow2_ge_1 (b - a) ltac:(lia)).
  nra.
Qed.

Lemma pow2_cancel e : powerRZ 2 (- e) * powerRZ 2 e = 1.
Proof. rewrite <- pow2_add. replace (- e + e)%Z with 0%Z by lia. reflexivity. Qed.

(** ** Rounding to an integer *)

Lemma nearestEven_near y :
  IZR (nearestEven y) - 1 / 2 <= y <= IZR (nearestEven y) + 1 / 2.
Proof.
  unfold nearestEven. destruct (base_Int_part y) as [Hlo Hhi].
  destruct (Rlt_dec (y - IZR (Int_part y)) (1 / 2)) as [Hd | Hd].
  - lra.
  - destruct (Rlt_dec (1 / 2) (y - IZR (Int_part y))) as [Hu | Hu].
    + rewrite plus_IZR. lra.
    + destruct (Z.even (Int_part y)); [lra|]. rewrite plus_IZR. lra.
Qed.

Lemma nearestEven_le y (M : Z) : y < IZR M + 1 / 2 -> (nearestEven y <= M)%Z.
Proof.
  intros Hy. destruct (nearestEven_near y) as [Hlo _].
  assert (H : (nearestEven y < M + 1)%Z); [|lia].
  apply lt_IZR. rewrite plus_IZR. lra.
Qed.

Lemma nearestEven_ge y (M : Z) : IZR M - 1 / 2 < y -> (M <= nearestEven y)%Z.
Proof.
  intros Hy. destruct (nearestEven_near y) as [_ Hhi].
  assert (H : (M - 1 < nearestEven y)%Z); [|lia].
  apply lt_IZR. rewrite minus_IZR. lra.
Qed.

Lemma nearestEven_eq y (M : Z) :
  IZR M - 1 / 2 < y < IZR M + 1 / 2 -> nearestEven y = M.
Proof.
  intros [Hlo Hhi]. pose proof (nearestEven_le y M Hhi).
  pose proof (nearestEven_ge y M Hlo). lia.
Qed.

Lemma nearestEven_tie_up (f : Z) :
  Z.even f = false -> nearestEven (IZR f + 1 / 2) = (f + 1)%Z.
Proof.
  intros Hodd. unfold nearestEven.
  assert (Hf : Int_part (IZR f + 1 / 2) = f).
  { symmetry. apply Int_part_spec. lra. }
  rewrite Hf.
  destruct (Rlt_dec (IZR f + 1 / 2 - IZR f) (1 / 2)) as [Hd | Hd]; [lra|].
  destruct (Rlt_dec (1 / 2) (IZR f + 1 / 2 - IZR f)) as [Hu | Hu]; [lra|].
  rewrite Hodd. reflexivity.
Qed.

(** ** The binade *)

Lemma binadeFrom_le fuel : forall n x m,
  (n - Z.of_nat fuel <= m)%Z -> Rabs x < powerRZ 2 (m + 1) ->
  (binadeFrom fuel n x <= m)%Z.
Proof.
  induction fuel as [|fuel IH]; intros n x m Hm Hx.
  - cbn [binadeFrom]. cbn in Hm. lia.
  - cbn [binadeFrom].
    destruct (Rle_dec (powerRZ 2 n) (Rabs x)) as [Hn | Hn].
    + destruct (Z_le_gt_dec n m) as [Hle | Hgt]; [exact Hle|].
      pose proof (pow2_le (m + 1) n ltac:(lia)). lra.
    + apply IH; [lia | exact Hx].
Qed.

Lemma binadeFrom_eq fuel : forall n x m,
  (n - Z.of_nat fuel <= m <= n)%Z ->
  powerRZ 2 m <= Rabs x < powerRZ 2 (m + 1) ->
  binadeFrom fuel n x = m.
Proof.
  induction fuel as [|fuel IH]; intros n x m Hm Hx.
  - cbn [binadeFrom]. cbn in Hm. lia.
  - cbn [binadeFrom].
    destruct (Rle_dec (powerRZ 2 n) (Rabs x)) as [Hn | Hn].
    + destruct (Z.eq_dec n m) as [He | He]; [exact He|].
      pose proof (pow2_le (m + 1) n ltac:(lia)). lra.
    + assert (n <> m) by (intros ->; lra).
      apply IH; [lia | exact Hx].
Qed.

Lemma ulpExponent_le x m :
  (-1022 <= m)%Z -> Rabs x < powerRZ 2 (m + 1) ->
  (ulpExponent x <= m - 52)%Z.
Proof.
  intros Hm Hx. unfold ulpExponent.
  pose proof (binadeFrom_le 2045 1023 x m) as H.
  assert (Hf : Z.of_nat 2045 = 2045%Z) by reflexivity.
  rewrite Hf in H. specialize (H ltac:(lia) Hx). lia.
Qed.

Lemma ulpExponent_eq x m :
  (-1022 <= m <= 1023)%Z ->
  powerRZ 2 m <= Rabs x < powerRZ 2 (m + 1) ->
  ulpExponent x = (m - 52)%Z.
Proof.
  intros Hm Hx. unfold ulpExponent.
  pose proof (binadeFrom_eq 2045 1023 x m) as H.
  assert (Hf : Z.of_nat 2045 = 2045%Z) by reflexivity.
  rewrite Hf in H. rewrite (H ltac:(lia) Hx). reflexivity.
Qed.

(** ** Rounding to a double *)

(** An integer is a whole number of units in the last place, up to
    [2^53]. *)
Lemma integer_in_ulps (B u : Z) :
  (u <= 0)%Z -> IZR B = IZR (B * 2 ^ (- u)) * powerRZ 2 u.
Proof.
  intros Hu. rewrite mult_IZR, <- pow2_nonneg_exponent by lia.
  rewrite Rmult_assoc, pow2_cancel. lra.
Qed.

Lemma binary64_le (B : Z) x :
  (ulpExponent x <= 0)%Z -> x <= IZR B -> binary64 x <= IZR B.
Proof.
  intros Hu Hx. unfold binary64.
  rewrite (integer_in_ulps B (ulpExponent x) Hu).
  apply Rmult_le_compat_r; [apply Rlt_le, pow2_pos|].
  apply IZR_le, nearestEven_le.
  rewrite mult_IZR, <- pow2_nonneg_exponent by lia.
  pose proof (pow2_pos (- ulpExponent x)). nra.
Qed.

Lemma binary64_ge (B : Z) x :
  (ulpExponent x <= 0)%Z -> IZR B <= x -> IZR B <= binary64 x.
Proof.
  intros Hu Hx. unfold binary64.
  rewrite (integer_in_ulps B (ulpExponent x) Hu).
  apply Rmult_le_compat_r; [apply Rlt_le, pow2_pos|].
  apply IZR_le, nearestEven_ge.
  rewrite mult_IZR, <- pow2_nonneg_exponent by lia.
  pose proof (pow2_pos (- ulpExponent x)). nra.
Qed.

(** A number more than half a unit in the last place below an integer
    is rounded to a double below that integer. *)
Lemma binary64_lt (B U : Z) x :
  (ulpExponent x <= U)%Z -> (U <= 0)%Z ->
  x + powerRZ 2 U / 2 < IZR B -> binary64 x < IZR B.
Proof.
  intros Hu HU Hx. unfold binary64.
  rewrite (integer_in_ulps B (ulpExponent x)) by lia.
  apply Rmult_lt_compat_r; [apply pow2_pos|].
  apply IZR_lt.
  assert (H : (nearestEven (x * powerRZ 2 (- ulpExponent x))
               <= B * 2 ^ (- ulpExponent x) - 1)%Z); [|lia].
  apply nearestEven_le.
  rewrite minus_IZR, mult_IZR, <- pow2_nonneg_exponent by lia.
  pose proof (pow2_pos (- ulpExponent x)) as Hp.
  pose proof (pow2_le (ulpExponent x) U Hu) as Hle.
  pose proof (pow2_cancel (ulpExponent x)) as Hc.
  pose proof (pow2_pos (ulpExponent x)) as Hq.
  assert (Hh : 1 <= powerRZ 2 U * powerRZ 2 (- ulpExponent x)) by nra.
  assert (Hm : (x + powerRZ 2 U / 2) * powerRZ 2 (- ulpExponent x)
               < IZR B * powerRZ 2 (- ulpExponent x)).
  { apply Rmult_lt_compat_r; [lra | exact Hx]. }
  nra.
Qed.

(** The double of a number of a known binade. *)
Lemma binary64_at (m M : Z) x :
  (-1022 <= m <= 1023)%Z ->
  powerRZ 2 m <= Rabs x < powerRZ 2 (m + 1) ->
  nearestEven (x * powerRZ 2 (52 - m)) = M ->
  binary64 x = IZR M * powerRZ 2 (m - 52).
Proof.
  intros Hm Hx HM. unfold binary64.
  rewrite (ulpExponent_eq x m Hm Hx).
  replace (- (m - 52))%Z with (52 - m)%Z by lia. rewrite HM. reflexivity.
Qed.

(** ** The food literal *)

Lemma pow2_53 : IZR (2 ^ 53) = 9007199254740992.
Proof. reflexivity. Qed.

Lemma unitDraw_range r : unitDraw r -> 0 <= r <= 1 - / 9007199254740992.
Proof.
  intros [k [[Hk0 Hk1] Hr]]. subst r. rewrite pow2_53.
  apply IZR_le in Hk0.
  assert (Hk : (k <= 2 ^ 53 - 1)%Z) by lia. apply IZR_le in Hk.
  change (IZR (2 ^ 53 - 1)) with 9007199254740991 in Hk. lra.
Qed.

(** A draw times an integer [a] of the binade [m] is rounded to a double
    below [a]: the product stays more than half a unit in the last place
    away from [a]. *)
Lemma draw_times (r : R) (A m : Z) :
  unitDraw r -> (-1022 <= m <= 52)%Z ->
  powerRZ 2 m < IZR A <= powerRZ 2 (m + 1) ->
  0 <= binary64 (r * IZR A) < IZR A.
Proof.
  intros Hr Hm [Hlo Hhi]. apply unitDraw_range in Hr.
  pose proof (pow2_pos m) as Hp.
  assert (Hprod : 0 <= r * IZR A <= IZR A - IZR A / 9007199254740992).
  { split; [apply Rmult_le_pos; lra|]. nra. }
  assert (Hu : (ulpExponent (r * IZR A) <= m - 52)%Z).
  { apply ulpExponent_le; [lia|]. rewrite Rabs_pos_eq by lra. lra. }
  split.
  - apply (binary64_ge 0); [lia | lra].
  - apply (binary64_lt A (m - 52)); [exact Hu | lia |].
    replace (m - 52)%Z with (m + - 52)%Z by lia. rewrite pow2_add.
    change (powerRZ 2 (- 52)) with (/ powerRZ 2 52).
    rewrite (pow2_nonneg_exponent 52) by lia.
    change (IZR (2 ^ 52)) with 4503599627370496. lra.
Qed.

Lemma ulpExponent_small x : Rabs x < 9007199254740992 -> (ulpExponent x <= 0)%Z.
Proof.
  intros Hx. apply (ulpExponent_le x 52); [lia|].
  rewrite (pow2_nonneg_exponent (52 + 1)) by lia. exact Hx.
Qed.

(** The size lies in [3, 6], whatever the draw in [0, 1). *)
Lemma size_range r : 0 <= r < 1 -> 3 <= binary64 (3 + binary64 (r * 3)) <= 6.
Proof.
  intros Hr.
  assert (Hu : (ulpExponent (r * 3) <= 0)%Z).
  { apply ulpExponent_small. rewrite Rabs_pos_eq by lra. lra. }
  pose proof (binary64_ge 0 (r * 3) Hu ltac:(lra)) as Hlo.
  pose proof (binary64_le 3 (r * 3) Hu ltac:(lra)) as Hhi.
  assert (Hv : (ulpExponent (3 + binary64 (r * 3)) <= 0)%Z).
  { apply ulpExponent_small. rewrite Rabs_pos_eq by lra. lra. }
  split.
  - apply (binary64_ge 3); [exact Hv | lra].
  - apply (binary64_le 6); [exact Hv | lra].
Qed.

(** The largest draw gives the size 6: [3 - 3 * 2^-53] is rounded to
    [3 - 2^-51], and [6 - 2^-51], half way between two doubles, to 6. *)
Lemma size_of_largestDraw : binary64 (3 + binary64 (largestDraw * 3)) = 6.
Proof.
  assert (Hd : largestDraw = 1 - / 9007199254740992).
  { unfold largestDraw. rewrite pow2_53.
    change (IZR (2 ^ 53 - 1)) with 9007199254740991. lra. }
  assert (H51 : powerRZ 2 51 = 2251799813685248).
  { rewrite pow2_nonneg_exponent by lia. reflexivity. }
  assert (H50 : powerRZ 2 50 = 1125899906842624).
  { rewrite pow2_nonneg_exponent by lia. reflexivity. }
  assert (Ht : binary64 (largestDraw * 3) = 3 - / 2251799813685248).
  { rewrite (binary64_at 1 (3 * 2 ^ 51 - 1) (largestDraw * 3)).
    - change (powerRZ 2 (1 - 52)) with (/ powerRZ 2 51). rewrite H51.
      change (IZR (3 * 2 ^ 51 - 1)) with 6755399441055743. lra.
    - lia.
    - rewrite Rabs_pos_eq by lra.
      change (powerRZ 2 1) with (2 * 1). change (powerRZ 2 (1 + 1)) with (2 * (2 * 1)).
      lra.
    - change (52 - 1)%Z with 51%Z. rewrite H51. apply nearestEven_eq.
      change (IZR (3 * 2 ^ 51 - 1)) with 6755399441055743. lra. }
  rewrite Ht.
  rewrite (binary64_at 2 (6 * 2 ^ 50) (3 + (3 - / 2251799813685248))).
  - change (powerRZ 2 (2 - 52)) with (/ powerRZ 2 50). rewrite H50.
    change (IZR (6 * 2 ^ 50)) with 6755399441055744. lra.
  - lia.
  - rewrite Rabs_pos_eq by lra.
    change (powerRZ 2 2) with (2 * (2 * 1)).
    change (powerRZ 2 (2 + 1)) with (2 * (2 * (2 * 1))). lra.
  - change (52 - 2)%Z with 50%Z. rewrite H50.
    replace ((3 + (3 - / 2251799813685248)) * 1125899906842624)
      with (IZR (6 * 2 ^ 50 - 1) + 1 / 2)
      by (change (IZR (6 * 2 ^ 50 - 1)) with 6755399441055743; lra).
    rewrite nearestEven_tie_up by reflexivity. reflexivity.
Qed.

Lemma randomFood_fields w :
  fx (fst (randomFood w)) = binary64 (randomSource w (randomUsed w) * WORLD_WIDTH)
  /\ fy (fst (randomFood w))
     = binary64 (randomSource w (S (randomUsed w)) * WORLD_HEIGHT)
  /\ fcolor (fst (randomFood w))
     = hsl (binary64 (randomSource w (S (S (randomUsed w))) * 360)) 60
  /\ size (fst (randomFood w))
     = binary64 (3 + binary64 (randomSource w (S (S (S (randomUsed w)))) * 3)).
Proof. repeat split; reflexivity. Qed.

Lemma randomFood_inWorld w :
  drawSource w -> foodInWorld (fst (randomFood w)).
Proof.
  intros Hu. unfold foodInWorld.
  destruct (randomFood_fields w) as [Hx [Hy [Hc Hs]]].
  rewrite Hx, Hy, Hc, Hs.
  split; [|split; [|split]].
  - apply (draw_times _ 2000 10); [apply Hu | lia |].
    change (powerRZ 2 10) with (2 ^ 10). change (powerRZ 2 (10 + 1)) with (2 ^ 11).
    lra.
  - apply (draw_times _ 1500 10); [apply Hu | lia |].
    change (powerRZ 2 10) with (2 ^ 10). change (powerRZ 2 (10 + 1)) with (2 ^ 11).
    lra.
  - eexists. split; [reflexivity|].
    apply (draw_times _ 360 8); [apply Hu | lia |].
    change (powerRZ 2 8) with (2 ^ 8). change (powerRZ 2 (8 + 1)) with (2 ^ 9).
    lra.
  - apply size_range. pose proof (unitDraw_range _ (Hu (S (S (S (randomUsed w)))))).
    lra.
Qed.

Lemma randomFood_world w :
  randomSource (snd (randomFood w)) = randomSource w
  /\ randomUsed (snd (randomFood w)) = (randomUsed w + 4)%nat
  /\ snakes (snd (randomFood w)) = snakes w
  /\ foods (snd (randomFood w)) = foods w
  /\ sameReactState w (snd (randomFood w)).
Proof.
  unfold randomFood, random, sameReactState. cbn.
  repeat split; try reflexivity. lia.
Qed.

Lemma generateFoodFrom_pool count : forall acc w,
  exists made w',
    generateFoodFrom count acc w = (acc ++ made, w')
    /\ List.length made = count
    /\ (drawSource w -> Forall foodInWorld made)
    /\ randomUsed w' = (randomUsed w + 4 * count)%nat
    /\ snakes w' = snakes w /\ foods w' = foods w
    /\ sameReactState w w'.
Proof.
  induction count as [|count IH]; intros acc w.
  - exists [], w. cbn [generateFoodFrom]. rewrite app_nil_r.
    unfold sameReactState.
    repeat split; try reflexivity; [constructor | lia].
  - cbn [generateFoodFrom].
    pose proof (randomFood_inWorld w) as Hin.
    destruct (randomFood_world w) as [Hsrc [Hused [Hsn [Hfd Hst]]]].
    destruct (randomFood w) as [f w1]. cbn [fst snd] in *.
    destruct (IH (acc ++ [f]) w1)
      as [made [w' [Hgen [Hlen [Hall [Hu' [Hsn' [Hfd' Hst']]]]]]]].
    exists (f :: made), w'. rewrite Hgen, <- app_assoc.
    split; [reflexivity|]. split; [cbn; lia|].
    split; [|split; [lia|]].
    + intros Hu. constructor; [apply Hin; exact Hu|].
      apply Hall. intros n. rewrite Hsrc. apply Hu.
    + split; [congruence|]. split; [congruence|].
      unfold sameReactState in *.
      destruct Hst as [? [? [? [? [? ?]]]]].
      destruct Hst' as [? [? [? [? [? ?]]]]].
      repeat split; congruence.
Qed.

Lemma generateFoodFrom_S count acc w :
  generateFoodFrom (S count) acc w
  = generateFoodFrom count (acc ++ [fst (randomFood w)]) (snd (randomFood w)).
Proof. cbn [generateFoodFrom]. destruct (randomFood w). reflexivity. Qed.

(** X13: [generateFood] makes [FOOD_COUNT] = 200 items and reads 800 values
    of the random stream.  With binary64 rounding, when these are values
    of [Math.random()], multiples of [2^-53] in [0, 1), every item has
    [0 <= x < 2000], [0 <= y < 1500], a hue in [0, 360) and a size in
    [3, 6]; and the size 6 is reached: an item whose size draw is the
    largest value [1 - 2^-53] has size exactly 6. *)
Theorem generateFood_pool (w : World) :
  List.length (fst (generateFood w)) = FOOD_COUNT
  /\ randomUsed (snd (generateFood w)) = (randomUsed w + 800)%nat
  /\ (drawSource w -> Forall foodInWorld (fst (generateFood w)))
  /\ (randomSource w (randomUsed w + 3) = largestDraw ->
      exists first rest,
        fst (generateFood w) = first :: rest /\ size first = 6).
Proof.
  unfold generateFood.
  destruct (generateFoodFrom_pool FOOD_COUNT [] w)
    as [made [w' [Hgen [Hlen [Hall [Hu _]]]]]].
  split; [rewrite Hgen; exact Hlen|].
  split; [rewrite Hgen; cbn [snd]; rewrite Hu; reflexivity|].
  split; [rewrite Hgen; exact Hall|].
  intros Hdraw. unfold FOOD_COUNT. rewrite generateFoodFrom_S.
  destruct (generateFoodFrom_pool 199 ([] ++ [fst (randomFood w)])
              (snd (randomFood w))) as [rest [w'' [Hgen' _]]].
  rewrite Hgen'. exists (fst (randomFood w)), rest.
  split; [reflexivity|].
  destruct (randomFood_fields w) as [_ [_ [_ Hs]]]. rewrite Hs.
  replace (S (S (S (randomUsed w)))) with (randomUsed w + 3)%nat by lia.
  rewrite Hdraw. exact size_of_largestDraw.
Qed.

Lemma feastWorld_unitSource : unitSource feastWorld.
Proof. intros n. cbn [randomSource feastWorld]. lra. Qed.

Lemma feastWorld_drawSource : drawSource feastWorld.
Proof.
  intros n. exists (2 ^ 52)%Z. split; [lia|].
  cbn [randomSource feastWorld]. rewrite pow2_53.
  change (IZR (2 ^ 52)) with 4503599627370496. lra.
Qed.

Lemma generateFood_pool_witness :
  Forall foodInWorld (fst (generateFood feastWorld))
  /\ exists first rest,
       fst (generateFood edgeWorld) = first :: rest /\ size first = 6.
Proof.
  split.
  - apply (proj1 (proj2 (proj2 (generateFood_pool feastWorld)))).
    exact feastWorld_drawSource.
  - apply (proj2 (proj2 (proj2 (generateFood_pool edgeWorld)))).
    reflexivity.
Defined.

Lemma sameReactState_refl w : sameReactState w w.
Proof. unfold sameReactState. repeat split; reflexivity. Qed.

Lemma sameReactState_trans w1 w2 w3 :
  sameReactState w1 w2 -> sameReactState w2 w3 -> sameReactState w1 w3.
Proof.
  unfold sameReactState.
  intros [? [? [? [? [? ?]]]]] [? [? [? [? [? ?]]]]].
  repeat split; congruence.
Qed.

Lemma createSnake_segments x y isP i w :
  segments (fst (createSnake x y isP i w)) = laidOut x y.
Proof.
  unfold createSnake, laidOut.
  assert (E : map (fun i0 : nat => mkPos (x - INR i0 * SEGMENT_SIZE) y)
                  (seq 0 5)
              = [mkPos x y; mkPos (x - 8) y; mkPos (x - 16) y;
                 mkPos (x - 24) y; mkPos (x - 32) y]).
  { cbn [map seq]. unfold SEGMENT_SIZE. cbn [INR].
    repeat (f_equal; try lra). }
  rewrite E. destruct isP; reflexivity.
Qed.

Lemma createSnake_parts x y isP i w :
  let s := fst (createSnake x y isP i w) in
  let w' := snd (createSnake x y isP i w) in
  id s = i /\ isPlayer s = isP /\ isDead s = false /\ speed s = 2
  /\ direction s
     = randomSource w (if isP then randomUsed w else S (randomUsed w))
       * PI * 2
  /\ snakes w' = snakes w /\ foods w' = foods w
  /\ randomUsed w' = (randomUsed w + (if isP then 1 else 2))%nat
  /\ sameReactState w w'.
Proof.
  cbv zeta. unfold createSnake, sameReactState.
  destruct isP; cbn; repeat split; try reflexivity; lia.
Qed.

(** X14: [createSnake] lays five segments out on a horizontal line, eight
    apart, the head at [(x, y)] and the body to its left; the snake is
    alive, of speed 2, and heads in a direction of [0, 2 PI). *)
Theorem createSnake_layout (x y : R) (isP : bool) (i : SnakeId) (w : World) :
  let s := fst (createSnake x y isP i w) in
  segments s = laidOut x y
  /\ id s = i /\ isPlayer s = isP /\ isDead s = false /\ speed s = 2
  /\ (unitSource w -> 0 <= direction s < 2 * PI).
Proof.
  cbv zeta. split; [apply createSnake_segments|].
  destruct (createSnake_parts x y isP i w)
    as [Hid [Hp [Hd [Hs [Hdir _]]]]].
  repeat (split; [assumption|]).
  intros Hu. rewrite Hdir.
  pose proof (scaled_unit _ PI
                (Hu (if isP then randomUsed w else S (randomUsed w)))
                PI_RGT_0).
  lra.
Qed.

Lemma createSnake_layout_witness :
  0 <= direction (fst (createSnake 100 100 false (ai 1) feastWorld)) < 2 * PI.
Proof.
  apply (createSnake_layout 100 100 false (ai 1) feastWorld).
  exact feastWorld_unitSource.
Defined.

Lemma createSnake_fresh x y isP i w :
  fresh (fst (createSnake x y isP i w)).
Proof.
  destruct (createSnake_parts x y isP i w) as [_ [_ [Hd [Hs _]]]].
  unfold fresh. rewrite createSnake_segments. repeat split; assumption.
Qed.

Lemma createAISnakes_made count : forall i acc w,
  exists made w',
    createAISnakes i count acc w = (acc ++ made, w')
    /\ map id made = aiIds i count
    /\ Forall (fun s => fresh s /\ isPlayer s = false) made
    /\ snakes w' = snakes w /\ foods w' = foods w
    /\ randomUsed w' = (randomUsed w + 4 * count)%nat
    /\ sameReactState w w'.
Proof.
  induction count as [|count IH]; intros i acc w.
  - exists [], w. cbn [createAISnakes]. rewrite app_nil_r.
    split; [reflexivity|]. split; [reflexivity|].
    split; [apply Forall_nil|]. split; [reflexivity|].
    split; [reflexivity|]. split; [lia | apply sameReactState_refl].
  - cbn [createAISnakes].
    set (w2 := snd (random (snd (random w)))).
    change (random w) with (fst (random w), snd (random w)). cbv iota.
    change (random (snd (random w)))
      with (fst (random (snd (random w))), w2). cbv iota.
    set (x := fst (random w) * WORLD_WIDTH).
    set (y := fst (random (snd (random w))) * WORLD_HEIGHT).
    pose proof (createSnake_fresh x y false (ai (Z.of_nat i)) w2) as Hfresh.
    destruct (createSnake_parts x y false (ai (Z.of_nat i)) w2)
      as [Hid [Hp [_ [_ [_ [Hsn [Hfd [Hu Hst]]]]]]]].
    destruct (createSnake x y false (ai (Z.of_nat i)) w2) as [s w3].
    cbn [fst snd] in *.
    destruct (IH (S i) (acc ++ [s]) w3)
      as [made [w' [Hgen [Hids [Hall [Hsn' [Hfd' [Hu' Hst']]]]]]]].
    exists (s :: made), w'. rewrite Hgen, <- app_assoc.
    split; [reflexivity|]. split; [|split; [|split; [|split; [|split]]]].
    + unfold aiIds in *. cbn [map seq]. rewrite Hid, Hids. reflexivity.
    + constructor; [split; assumption | exact Hall].
    + rewrite Hsn', Hsn. reflexivity.
    + rewrite Hfd', Hfd. reflexivity.
    + rewrite Hu', Hu. unfold w2. cbn [random randomUsed snd]. lia.
    + eapply sameReactState_trans; [|exact Hst'].
      eapply sameReactState_trans; [|exact Hst].
      unfold w2, sameReactState. cbn. repeat split; reflexivity.
Qed.

Lemma initializeGame_parts (w : World) :
  let w' := initializeGame w in
  exists p ais,
    snakes w' = p :: ais
    /\ isPlayer p = true /\ id p = player
    /\ segments p = laidOut 1000 750
    /\ map id ais = [ai 0; ai 1; ai 2; ai 3; ai 4]
    /\ Forall (fun s => isPlayer s = false) ais
    /\ Forall fresh (p :: ais)
    /\ List.length (foods w') = FOOD_COUNT
    /\ score w' = 0%Z /\ gameOver w' = false
    /\ gameRunning w' = gameRunning w
    /\ randomUsed w' = (randomUsed w + 821)%nat.
Proof.
  cbv zeta. unfold initializeGame.
  pose proof (createSnake_fresh (WORLD_WIDTH / 2) (WORLD_HEIGHT / 2) true
                player w) as Hpf.
  pose proof (createSnake_segments (WORLD_WIDTH / 2) (WORLD_HEIGHT / 2) true
                player w) as Hpseg.
  destruct (createSnake_parts (WORLD_WIDTH / 2) (WORLD_HEIGHT / 2) true
              player w) as [Hpid [Hpp [_ [_ [_ [_ [_ [Hu1 Hst1]]]]]]]].
  destruct (createSnake (WORLD_WIDTH / 2) (WORLD_HEIGHT / 2) true player w)
    as [p w1].
  cbn [fst snd] in *.
  destruct (createAISnakes_made AI_SNAKE_COUNT 0 [p] w1)
    as [ais [w2 [Hgen [Hids [Hall [_ [_ [Hu2 Hst2]]]]]]]].
  rewrite Hgen.
  destruct (generateFoodFrom_pool FOOD_COUNT [] (setSnakes ([p] ++ ais) w2))
    as [fs [w4 [Hfood [Hlen [_ [Hu4 [Hsn4 [_ Hst4]]]]]]]].
  unfold generateFood. rewrite Hfood.
  exists p, ais.
  cbn [snakes foods score gameOver gameRunning randomUsed
       setGameOver setScore setFoods app].
  split; [exact Hsn4|]. split; [exact Hpp|]. split; [exact Hpid|].
  split.
  { rewrite Hpseg. unfold laidOut, WORLD_WIDTH, WORLD_HEIGHT.
    repeat (f_equal; try lra). }
  split; [exact Hids|].
  split.
  { eapply Forall_impl; [|exact Hall]. intros s [_ H]. exact H. }
  split.
  { constructor; [exact Hpf|].
    eapply Forall_impl; [|exact Hall]. intros s [H _]. exact H. }
  split; [exact Hlen|]. split; [reflexivity|]. split; [reflexivity|].
  split.
  - destruct Hst4 as [H4 _]. destruct Hst2 as [H2 _]. destruct Hst1 as [H1 _].
    cbn [gameRunning setSnakes] in H4. congruence.
  - cbn [randomUsed setSnakes] in Hu4. rewrite Hu4, Hu2, Hu1.
    unfold AI_SNAKE_COUNT, FOOD_COUNT. lia.
Qed.

(** X15: [initializeGame] leaves six snakes, the player first, with its
    head at the centre of the world, then the five non-player snakes
    ai_0 .. ai_4, each of five segments, alive and of speed 2; 200 food items;
    the score 0 and no game over; it reads 821 values of the stream. *)
Theorem initializeGame_world (w : World) :
  let w' := initializeGame w in
  exists p ais,
    snakes w' = p :: ais
    /\ isPlayer p = true /\ id p = player
    /\ segments p = laidOut 1000 750
    /\ map id ais = [ai 0; ai 1; ai 2; ai 3; ai 4]
    /\ Forall (fun s => isPlayer s = false) ais
    /\ Forall fresh (p :: ais)
    /\ List.length (foods w') = FOOD_COUNT
    /\ score w' = 0%Z /\ gameOver w' = false
    /\ gameRunning w' = gameRunning w
    /\ randomUsed w' = (randomUsed w + 821)%nat.
Proof. apply initializeGame_parts. Qed.

(** X16: the frame that [startGame] requests runs the [gameLoop] of the
    render in which the Start button was pressed, where the game is not
    running: that call leaves the new world as it is and requests no
    further frame. *)
Theorem startGame_frame_is_idle (w : World) (now : Z)
  (Hidle : gameRunning w = false) :
  gameLoop (render w) now (startGame w) = Some (startGame w)
  /\ requestsFrame (render w) now (startGame w) = false
  /\ gameRunning (startGame w) = true.
Proof.
  split; [apply gameLoop_not_running; left; exact Hidle|].
  split; [|reflexivity].
  unfold requestsFrame. cbn [render r_gameRunning]. rewrite Hidle.
  reflexivity.
Qed.

Lemma startGame_frame_is_idle_witness :
  gameLoop (render (resetGame feastWorld)) 0 (startGame (resetGame feastWorld))
  = Some (startGame (resetGame feastWorld)).
Proof.
  apply (startGame_frame_is_idle (resetGame feastWorld) 0 eq_refl).
Defined.

(** *** Steering *)

Lemma ltb_cases a b :
  (a < b /\ ltb a b = true) \/ (b <= a /\ ltb a b = false).
Proof.
  destruct (Rlt_le_dec a b) as [H | H].
  - left. split; [exact H | apply ltb_true; exact H].
  - right. split; [exact H | apply ltb_false; exact H].
Qed.

Lemma nearestStep_keeps head fs best g :
  firstNearest head fs best ->
  exists best',
    nearestStep head (Some best) g = Some best'
    /\ firstNearest head (fs ++ [g]) best'.
Proof.
  intros [before [after [Hfs [Hd [Hb Ha]]]]].
  destruct best as [f d]. cbn [fst snd] in *.
  unfold nearestStep. fold (foodDistance head g).
  destruct (ltb_cases (foodDistance head g) d) as [[Hlt ->] | [Hle ->]].
  - exists (g, foodDistance head g). split; [reflexivity|].
    exists fs, []. cbn [fst snd]. split; [reflexivity|].
    split; [reflexivity|]. split; [|intros ? []].
    intros x Hx. rewrite Hfs in Hx. apply in_app_or in Hx.
    destruct Hx as [Hx | [<- | Hx]].
    + specialize (Hb x Hx). lra.
    + lra.
    + specialize (Ha x Hx). lra.
  - exists (f, d). split; [reflexivity|].
    exists before, (after ++ [g]). cbn [fst snd].
    split; [rewrite Hfs, <- app_assoc; reflexivity|].
    split; [exact Hd|]. split; [exact Hb|].
    intros x Hx. apply in_app_or in Hx.
    destruct Hx as [Hx | [<- | []]]; [apply Ha; exact Hx | exact Hle].
Qed.

Lemma nearest_from head rest : forall fs best,
  firstNearest head fs best ->
  exists best',
    fold_left (nearestStep head) rest (Some best) = Some best'
    /\ firstNearest head (fs ++ rest) best'.
Proof.
  induction rest as [|g rest IH]; intros fs best Hbest.
  - exists best. rewrite app_nil_r. split; [reflexivity | exact Hbest].
  - destruct (nearestStep_keeps head fs best g Hbest) as [b1 [Hstep Hb1]].
    destruct (IH (fs ++ [g]) b1 Hb1) as [b2 [Hfold Hb2]].
    exists b2. cbn [fold_left]. rewrite Hstep, Hfold.
    split; [reflexivity|]. rewrite <- app_assoc in Hb2. exact Hb2.
Qed.

Lemma nearest_scan (head : Position) (fs : list Food) :
  match fold_left (nearestStep head) fs None with
  | None => fs = []
  | Some best => firstNearest head fs best
  end.
Proof.
  destruct fs as [|g rest]; [reflexivity|].
  cbn [fold_left]. unfold nearestStep at 2.
  destruct (nearest_from head rest [g] (g, foodDistance head g))
    as [best [Hfold Hbest]].
  - exists [], []. cbn [fst snd]. split; [reflexivity|].
    split; [reflexivity|]. split; intros ? [].
  - unfold foodDistance in Hfold at 1. rewrite Hfold. exact Hbest.
Qed.

(** X17: the scan of [updateAI] finds nothing in an empty pool, and
    otherwise the first of the items at the least distance from the head:
    every item before it is strictly farther, every item after it at
    least as far. *)
Theorem nearest_food_is_first_nearest (head : Position) (fs : list Food) :
  match fold_left (nearestStep head) fs None with
  | None => fs = []
  | Some best => firstNearest head fs best
  end.
Proof. apply nearest_scan. Qed.

Lemma normalize_turns (d : R) :
  - PI <= normalize d <= PI
  /\ exists k : Z, normalize d = d + IZR k * (2 * PI).
Proof.
  split; [apply normalize_range|].
  unfold normalize. rewrite iter_plus, iter_minus.
  set (a := turnsDown d).
  set (b := turnsUp (d - INR a * (2 * PI))).
  exists (Z.of_nat b - Z.of_nat a)%Z.
  rewrite minus_IZR, <- !INR_IZR_INZ. lra.
Qed.

(** X18: the two loops of [updateAI] leave an angle of [-PI, PI] that
    differs from the one they were given by a whole number of turns. *)
Theorem normalize_whole_turns (d : R) :
  - PI <= normalize d <= PI
  /\ exists k : Z, normalize d = d + IZR k * (2 * PI).
Proof. apply normalize_turns. Qed.

(** X19: [updateAI] changes nothing but the direction, and turns it by at
    most 0.05 radians, whole turns apart. *)
Theorem updateAI_turn_limit (fs : list Food) (s : Snake) (h0 : Position)
  (rest : list Position) (Hseg : segments s = h0 :: rest) :
  exists d k,
    updateAI fs s = Some (setDirection d s)
    /\ Rabs (d - direction s - IZR k * (2 * PI)) <= 5 / 100
    /\ (isPlayer s = true \/ isDead s = true \/ fs = [] -> d = direction s).
Proof.
  unfold updateAI. rewrite Hseg.
  assert (Hsame : exists d k,
             Some s = Some (setDirection d s)
             /\ Rabs (d - direction s - IZR k * (2 * PI)) <= 5 / 100
             /\ d = direction s).
  { exists (direction s), 0%Z. rewrite setDirection_same.
    split; [reflexivity|]. split; [|reflexivity].
    replace (direction s - direction s - 0 * (2 * PI)) with 0 by lra.
    rewrite Rabs_R0. lra. }
  destruct (isPlayer s || isDead s) eqn:Hskip.
  - destruct Hsame as [d [k [H1 [H2 H3]]]]. exists d, k.
    split; [exact H1|]. split; [exact H2|]. intros _. exact H3.
  - apply orb_false_iff in Hskip. destruct Hskip as [Hp Hd].
    pose proof (nearest_scan h0 fs) as Hn.
    destruct (fold_left (nearestStep h0) fs None) as [[nearestFood dist]|].
    + assert (Hfs : fs <> []).
      { destruct Hn as [before [after [Hfs _]]]. rewrite Hfs.
        destruct before; discriminate. }
      set (target := atan2 (fy nearestFood - py h0) (fx nearestFood - px h0)).
      destruct (normalize_turns (target - direction s))
        as [_ [k0 Hk0]].
      set (nd := normalize (target - direction s)) in *.
      destruct (ltb_cases (5 / 100) (Rabs nd)) as [[Hlt ->] | [Hle ->]].
      * exists (direction s + sign nd * (5 / 100)), 0%Z.
        split; [reflexivity|]. split.
        -- replace (direction s + sign nd * (5 / 100) - direction s
                    - 0 * (2 * PI)) with (sign nd * (5 / 100)) by lra.
           unfold sign.
           destruct (Rlt_dec 0 nd); [|destruct (Rlt_dec nd 0)];
             unfold Rabs; destruct (Rcase_abs _); lra.
        -- intros [H | [H | H]]; congruence.
      * exists target, (- k0)%Z.
        split; [reflexivity|]. split.
        -- rewrite opp_IZR.
           replace (target - direction s - - IZR k0 * (2 * PI)) with nd
             by (rewrite Hk0; lra).
           exact Hle.
        -- intros [H | [H | H]]; congruence.
    + destruct Hsame as [d [k [H1 [H2 H3]]]]. exists d, k.
      split; [exact H1|]. split; [exact H2|]. intros _. exact H3.
Qed.

Lemma updateAI_turn_limit_witness :
  exists d k,
    updateAI [nearFood] aiBelow = Some (setDirection d aiBelow)
    /\ Rabs (d - direction aiBelow - IZR k * (2 * PI)) <= 5 / 100.
Proof.
  destruct (updateAI_turn_limit [nearFood] aiBelow (mkPos 76 109)
              [mkPos 76 117; mkPos 76 125; mkPos 76 133; mkPos 76 141]
              eq_refl) as [d [k [H1 [H2 _]]]].
  exists d, k. split; assumption.
Defined.

(** [Math.atan2] of two negative numbers. *)
Lemma atan2_third_quadrant y x :
  x < 0 -> y < 0 ->
  - PI < atan2 y x < - (PI / 2)
  /\ cos (atan2 y x) < 0 /\ sin (atan2 y x) < 0.
Proof.
  intros Hx Hy. unfold atan2.
  destruct (Rlt_dec 0 x); [lra|].
  destruct (Rlt_dec x 0); [|lra].
  destruct (Rle_dec 0 y); [lra|].
  assert (Ht : 0 < y / x).
  { unfold Rdiv. replace (y * / x) with ((- y) * / (- x)) by (field; lra).
    apply Rmult_lt_0_compat; [lra|]. apply Rinv_0_lt_compat. lra. }
  pose proof (atan_increasing 0 (y / x) Ht) as Hinc. rewrite atan_0 in Hinc.
  pose proof (atan_bound (y / x)) as Hb.
  set (a := atan (y / x)) in *.
  split; [lra|].
  replace (a - PI) with (- (PI - a)) by lra.
  rewrite cos_neg, sin_neg, Rtrigo_facts.cos_pi_minus, sin_PI_x.
  pose proof (cos_gt_0 a ltac:(lra) ltac:(lra)).
  pose proof (sin_gt_0 a ltac:(lra) ltac:(lra)).
  split; lra.
Qed.

(** X20: once the camera follows the player, a pointer anywhere inside
    the canvas steers the player up and to the left: the pointer's world
    position is taken half a canvas too far up and to the left, so the
    direction lies strictly between -PI and -PI/2. *)
Theorem follow_then_steer (w : World) (p : Snake) (h0 : Position)
  (rest : list Position)
  (Hfind : find isPlayer (snakes w) = Some p)
  (Halive : isDead p = false)
  (Hseg : segments p = h0 :: rest)
  (Hmx : 0 <= px (mousePos w) < CANVAS_WIDTH)
  (Hmy : 0 <= py (mousePos w) < CANVAS_HEIGHT) :
  exists w' aimed,
    followPlayer w = Some w'
    /\ steerPlayer (render w') p = Some aimed
    /\ - PI < direction aimed < - (PI / 2)
    /\ cos (direction aimed) < 0 /\ sin (direction aimed) < 0.
Proof.
  unfold followPlayer. rewrite Hfind, Halive, Hseg. cbn [negb].
  eexists. eexists. split; [reflexivity|].
  apply find_some in Hfind. destruct Hfind as [_ Hp].
  unfold steerPlayer. rewrite Hp, Hseg.
  cbn [render r_mousePos r_camera mousePos camera setCamera px py].
  split; [reflexivity|]. cbn [direction setDirection].
  apply atan2_third_quadrant; unfold CANVAS_WIDTH, CANVAS_HEIGHT in *; lra.
Qed.

Lemma follow_then_steer_witness :
  exists w' aimed,
    followPlayer feastWorld = Some w'
    /\ steerPlayer (render w') playerAt100 = Some aimed
    /\ cos (direction aimed) < 0.
Proof.
  destruct (follow_then_steer feastWorld playerAt100 (mkPos 100 100)
              [mkPos 92 100; mkPos 84 100; mkPos 76 100; mkPos 68 100]
              eq_refl eq_refl eq_refl)
    as [w' [aimed [H1 [H2 [_ [H3 _]]]]]].
  - cbn [mousePos feastWorld px]. unfold CANVAS_WIDTH. lra.
  - cbn [mousePos feastWorld py]. unfold CANVAS_HEIGHT. lra.
  - exists w', aimed. repeat split; assumption.
Defined.

(** *** The score, the flags and the other snakes *)

Lemma eatCallback_state head isP food st :
  eatState (snd (eatCallback head isP food st))
  = eatStateStep head isP (eatState st) food.
Proof.
  unfold eatCallback, eatState, eatStateStep, eatenOnce.
  destruct st as [ate w]. cbn [fst snd].
  destruct (eats head food); [|reflexivity].
  destruct isP; reflexivity.
Qed.

Lemma fed_zero isP w w' :
  gameRunning w' = gameRunning w -> gameOver w' = gameOver w ->
  mousePos w' = mousePos w -> camera w' = camera w ->
  randomSource w' = randomSource w -> score w' = score w ->
  randomUsed w' = randomUsed w -> fed isP 0 w w'.
Proof.
  intros. unfold fed. repeat split; try assumption.
  - destruct isP; cbn; lia.
  - lia.
Qed.

Lemma fed_once isP n w w' :
  fed isP n (eatenOnce isP w) w' -> fed isP (S n) w w'.
Proof.
  unfold fed, eatenOnce, randomFood, random.
  destruct isP; cbn; intros [? [? [? [? [? [? ?]]]]]];
    repeat split; try assumption; lia.
Qed.

Lemma fold_eatStateStep head isP fs : forall ate w,
  exists w',
    fold_left (eatStateStep head isP) fs (ate, w)
    = (ate || existsb (eats head) fs, w')
    /\ fed isP (eatenCount head fs) w w'
    /\ snakes w' = snakes w /\ foods w' = foods w.
Proof.
  induction fs as [|food fs IH]; intros ate w.
  - exists w. cbn [fold_left existsb]. rewrite orb_false_r.
    split; [reflexivity|]. split; [|split; reflexivity].
    apply fed_zero; reflexivity.
  - cbn [fold_left existsb]. unfold eatStateStep at 2, eatenCount.
    cbn [filter snd].
    destruct (eats head food).
    + destruct (IH true (eatenOnce isP w)) as [w' [Hfold [Hfed [Hsn Hfd]]]].
      exists w'. rewrite Hfold. rewrite orb_true_r. cbn [orb List.length].
      split; [reflexivity|]. split; [apply fed_once; exact Hfed|].
      rewrite Hsn, Hfd. unfold eatenOnce.
      destruct isP; split; reflexivity.
    + destruct (IH ate w) as [w' [Hfold [Hfed [Hsn Hfd]]]].
      exists w'. rewrite Hfold. cbn [orb].
      split; [reflexivity|]. split; [exact Hfed|]. split; assumption.
Qed.

(** The state the food [filter] of [updateSnake] leaves. *)
Lemma eat_filter_state head isP w :
  fed isP (eatenCount head (foods w)) w
      (snd (snd (arrayFilter (fun st => foods (snd st))
                             (eatCallback head isP) (false, w)))).
Proof.
  destruct (arrayFilter_pushes Food (bool * World) (bool * World)
              (fun st => foods (snd st))
              (eatCallback head isP) (fun food => negb (eats head food))
              eatState (eatStateStep head isP)
              (eatCallback_selects head isP) (eatCallback_appends head isP)
              (eatCallback_state head isP)
              (false, w)) as [_ Hs].
  cbn [snd] in Hs.
  destruct (fold_eatStateStep head isP (foods w) false (setFoods [] w))
    as [w' [Hfold [Hfed _]]].
  unfold eatState in Hs at 2. cbn [fst snd] in Hs.
  rewrite Hfold in Hs. unfold eatState in Hs.
  injection Hs as _ Hw.
  destruct (arrayFilter _ _ _) as [kept [ate w2]]. cbn [fst snd] in *.
  unfold fed in *. rewrite <- Hw in Hfed. exact Hfed.
Qed.

(** The state an update leaves, whatever it does to the arrays. *)
Lemma updateSnake_state c i w s steered aimed h0 rest :
  nth_error (snakes w) i = Some s ->
  isDead s = false ->
  updateAI (foods w) s = Some steered ->
  steerPlayer c steered = Some aimed ->
  segments aimed = h0 :: rest ->
  isDead aimed = false ->
  let head := movedHead aimed h0 in
  let body :=
    setSegments (if existsb (eats head) (foods w) then head :: h0 :: rest
                 else removelast (head :: h0 :: rest)) aimed in
  let dies := collides (id aimed) head (storeAt i body (snakes w)) in
  exists w',
    updateSnake c i w = Some w'
    /\ mousePos w' = mousePos w /\ camera w' = camera w
    /\ randomSource w' = randomSource w
    /\ randomUsed w' = (randomUsed w + 4 * eatenCount head (foods w))%nat
    /\ score w'
       = (score w + (if isPlayer aimed
                     then Z.of_nat (eatenCount head (foods w)) else 0))%Z
    /\ gameOver w' = (if dies && isPlayer aimed then true else gameOver w)
    /\ gameRunning w'
       = (if dies && isPlayer aimed then false else gameRunning w).
Proof.
  intros Hnth Halive Hai Hsteer Hseg Haimed. cbv zeta.
  unfold updateSnake. rewrite Hnth, Halive, Hai, Hsteer, Hseg.
  set (head := movedHead aimed h0).
  set (grown := setSegments (head :: h0 :: rest) aimed).
  pose proof (eat_filter head (isPlayer grown) (storeSnake i grown w)) as Hf.
  pose proof (eat_filter_state head (isPlayer grown) (storeSnake i grown w))
    as Hst.
  cbv zeta in Hf.
  destruct (arrayFilter _ _ _) as [kept [ate w2]].
  cbn [fst snd] in Hf, Hst. destruct Hf as [_ [Hsn Hate]].
  rewrite snakes_storeSnake in Hsn.
  change (foods (storeSnake i grown w)) with (foods w) in Hate, Hst.
  change (isPlayer grown) with (isPlayer aimed) in Hst.
  rewrite <- Hate.
  set (moved := if ate then grown
                else setSegments (removelast (segments grown)) grown).
  assert (Hmoved : moved = setSegments
                     (if ate then head :: h0 :: rest
                      else removelast (head :: h0 :: rest)) aimed).
  { unfold moved, grown. destruct ate; reflexivity. }
  assert (Hsn4 : snakes (storeSnake i moved (setFoods kept w2))
                 = storeAt i moved (snakes w)).
  { rewrite snakes_storeSnake.
    change (snakes (setFoods kept w2)) with (snakes w2).
    rewrite Hsn. apply storeAt_twice. }
  rewrite Hsn4.
  assert (Hid : SlitherGame.id moved = SlitherGame.id aimed)
    by (rewrite Hmoved; reflexivity).
  assert (Hp : isPlayer moved = isPlayer aimed)
    by (rewrite Hmoved; reflexivity).
  rewrite <- Hmoved, <- Hid.
  set (dead := collides (SlitherGame.id moved) head
                 (storeAt i moved (snakes w))).
  destruct Hst as [Hr [Ho [Hm [Hc [Hsrc [Hsc Hu]]]]]].
  cbn [storeSnake setSnakes gameRunning gameOver mousePos camera
       randomSource score randomUsed] in Hr, Ho, Hm, Hc, Hsrc, Hsc, Hu.
  rewrite Hp.
  destruct dead; [destruct (isPlayer aimed)|]; cbn [andb];
    eexists; (split; [reflexivity|]);
    cbn [storeSnake setSnakes setFoods setGameRunning setGameOver
         gameRunning gameOver mousePos camera randomSource score
         randomUsed];
    repeat split; assumption.
Qed.

(** Everything an update of a living snake does. *)
Lemma updateSnake_living c i w s h0 rest :
  nth_error (snakes w) i = Some s ->
  isDead s = false ->
  segments s = h0 :: rest ->
  exists w' d dies,
    let aimed := setDirection d s in
    let head := movedHead aimed h0 in
    let n := eatenCount head (foods w) in
    updateSnake c i w = Some w'
    /\ snakes w'
       = storeAt i (updatedSnake aimed h0 rest
                      (existsb (eats head) (foods w)) dies) (snakes w)
    /\ dies = collides (id s) head
                (storeAt i (updatedSnake aimed h0 rest
                              (existsb (eats head) (foods w)) false)
                         (snakes w))
    /\ foods w' = filter (fun food => negb (eats head food)) (foods w)
    /\ mousePos w' = mousePos w /\ camera w' = camera w
    /\ randomSource w' = randomSource w
    /\ randomUsed w' = (randomUsed w + 4 * n)%nat
    /\ score w' = (score w + (if isPlayer s then Z.of_nat n else 0))%Z
    /\ gameOver w' = (if dies && isPlayer s then true else gameOver w)
    /\ gameRunning w' = (if dies && isPlayer s then false else gameRunning w).
Proof.
  intros Hnth Halive Hseg.
  destruct (steering_keeps c (foods w) s h0 rest Hseg)
    as [steered [aimed [Hai [Hsteer Haimed]]]].
  assert (Hseg' : segments aimed = h0 :: rest)
    by (rewrite Haimed; exact Hseg).
  assert (Hdead' : isDead aimed = false)
    by (rewrite Haimed; exact Halive).
  assert (Hid : SlitherGame.id aimed = SlitherGame.id s)
    by (rewrite Haimed; reflexivity).
  assert (Hp : isPlayer aimed = isPlayer s)
    by (rewrite Haimed; reflexivity).
  destruct (updateSnake_alive c i w s steered aimed h0 rest
              Hnth Halive Hai Hsteer Hseg' Hdead') as [w1 [Hw1 [Hfd Hsn]]].
  destruct (updateSnake_state c i w s steered aimed h0 rest
              Hnth Halive Hai Hsteer Hseg' Hdead')
    as [w2 [Hw2 [Hm [Hc [Hsrc [Hu [Hsc [Ho Hr]]]]]]]].
  rewrite Hw1 in Hw2. injection Hw2 as <-.
  rewrite Hid in Hsn, Ho, Hr. rewrite Hp in Hsc, Ho, Hr.
  assert (E : setSegments
                (if existsb (eats (movedHead aimed h0)) (foods w)
                 then movedHead aimed h0 :: h0 :: rest
                 else removelast (movedHead aimed h0 :: h0 :: rest)) aimed
              = updatedSnake aimed h0 rest
                  (existsb (eats (movedHead aimed h0)) (foods w)) false).
  { unfold updatedSnake. destruct aimed. cbn in Hdead'. subst. reflexivity. }
  rewrite E in Hsn, Ho, Hr.
  exists w1, (direction aimed),
    (collides (SlitherGame.id s) (movedHead aimed h0)
       (storeAt i (updatedSnake aimed h0 rest
                     (existsb (eats (movedHead aimed h0)) (foods w)) false)
                (snakes w))).
  cbv zeta. rewrite <- Haimed.
  split; [exact Hw1|]. split; [exact Hsn|]. split; [reflexivity|].
  split; [exact Hfd|]. split; [exact Hm|]. split; [exact Hc|].
  split; [exact Hsrc|]. split; [exact Hu|]. split; [exact Hsc|].
  split; [exact Ho | exact Hr].
Qed.

Lemma existsb_eatenCount head fs :
  existsb (eats head) fs = negb (Nat.eqb (eatenCount head fs) 0).
Proof.
  unfold eatenCount. induction fs as [|f fs IH]; [reflexivity|].
  cbn [existsb filter]. destruct (eats head f); [reflexivity | exact IH].
Qed.

Lemma nth_error_storeAt_other {T : Type} (v : T) (l : list T) :
  forall i j, i <> j -> nth_error (storeAt i v l) j = nth_error l j.
Proof.
  induction l as [|x l IH]; intros [|i] [|j] H; cbn;
    try reflexivity; try congruence.
  apply IH. congruence.
Qed.

(** X21: a living snake gains exactly one segment in a frame in which its
    new head is within reach of at least one food item, however many it
    eats, and keeps its number of segments in every other frame. *)
Theorem updateSnake_grows_by_meal (c : Render) (i : nat) (w : World)
  (s : Snake) (h0 : Position) (rest : list Position)
  (Hnth : nth_error (snakes w) i = Some s)
  (Halive : isDead s = false)
  (Hseg : segments s = h0 :: rest) :
  exists w' s' head tail,
    updateSnake c i w = Some w'
    /\ nth_error (snakes w') i = Some s'
    /\ segments s' = head :: tail
    /\ (eatenCount head (foods w) = 0%nat ->
        List.length (segments s') = List.length (segments s))
    /\ ((0 < eatenCount head (foods w))%nat ->
        List.length (segments s') = S (List.length (segments s))).
Proof.
  destruct (updateSnake_living c i w s h0 rest Hnth Halive Hseg)
    as [w' [d [dies [Hw' [Hsn _]]]]].
  cbv zeta in Hsn.
  set (aimed := setDirection d s) in *.
  set (head := movedHead aimed h0) in *.
  exists w'. eexists. exists head.
  exists (if existsb (eats head) (foods w) then h0 :: rest
          else removelast (h0 :: rest)).
  split; [exact Hw'|].
  split; [rewrite Hsn; eapply nth_error_storeAt; exact Hnth|].
  rewrite existsb_eatenCount, Hseg.
  unfold updatedSnake. cbn [segments setIsDead setSegments].
  split; [destruct (Nat.eqb _ 0); reflexivity|]. split.
  - intros ->. cbn [Nat.eqb negb].
    fold head. apply SnakeGameSpec.length_removelast_cons.
  - intros Hpos. destruct (Nat.eqb_spec (eatenCount head (foods w)) 0);
      [lia|]. reflexivity.
Qed.

Lemma updateSnake_grows_by_meal_witness :
  exists w' s',
    updateSnake (render feastWorld) 0 feastWorld = Some w'
    /\ nth_error (snakes w') 0 = Some s'.
Proof.
  destruct (updateSnake_grows_by_meal (render feastWorld) 0 feastWorld
              playerAt100 (mkPos 100 100)
              [mkPos 92 100; mkPos 84 100; mkPos 76 100; mkPos 68 100]
              eq_refl eq_refl eq_refl)
    as [w' [s' [head [tail [H1 [H2 _]]]]]].
  exists w', s'. split; assumption.
Defined.

(** X22: the update of a living snake adds to the score the number of
    food items its new head reaches when the snake is the player, and
    nothing otherwise; it reads four values of the stream for each of
    these items, and leaves the pointer and the camera alone. *)
Theorem updateSnake_score (c : Render) (i : nat) (w : World)
  (s : Snake) (h0 : Position) (rest : list Position)
  (Hnth : nth_error (snakes w) i = Some s)
  (Halive : isDead s = false)
  (Hseg : segments s = h0 :: rest) :
  exists w' s' head tail,
    updateSnake c i w = Some w'
    /\ nth_error (snakes w') i = Some s'
    /\ segments s' = head :: tail
    /\ score w'
       = (score w
          + (if isPlayer s then Z.of_nat (eatenCount head (foods w)) else 0))%Z
    /\ randomUsed w' = (randomUsed w + 4 * eatenCount head (foods w))%nat
    /\ mousePos w' = mousePos w /\ camera w' = camera w.
Proof.
  destruct (updateSnake_living c i w s h0 rest Hnth Halive Hseg)
    as [w' [d [dies [Hw' [Hsn [_ [_ [Hm [Hc [_ [Hu [Hsc _]]]]]]]]]]]].
  cbv zeta in Hsn, Hu, Hsc.
  set (aimed := setDirection d s) in *.
  set (head := movedHead aimed h0) in *.
  exists w'. eexists. exists head.
  exists (if existsb (eats head) (foods w) then h0 :: rest
          else removelast (h0 :: rest)).
  split; [exact Hw'|].
  split; [rewrite Hsn; eapply nth_error_storeAt; exact Hnth|].
  unfold updatedSnake. cbn [segments setIsDead setSegments].
  split; [destruct (existsb _ _); reflexivity|].
  repeat split; assumption.
Qed.

Lemma updateSnake_score_witness :
  exists w', updateSnake (render feastWorld) 0 feastWorld = Some w'
             /\ mousePos w' = mousePos feastWorld.
Proof.
  destruct (updateSnake_score (render feastWorld) 0 feastWorld
              playerAt100 (mkPos 100 100)
              [mkPos 92 100; mkPos 84 100; mkPos 76 100; mkPos 68 100]
              eq_refl eq_refl eq_refl)
    as [w' [s' [head [tail [H1 [_ [_ [_ [_ [H2 _]]]]]]]]]].
  exists w'. split; assumption.
Defined.

(** X23: the update of a snake ends the game exactly when it marks the
    player dead: [gameOver] becomes true and [gameRunning] false then, and
    the death of a non-player snake changes neither. *)
Theorem updateSnake_game_over (c : Render) (i : nat) (w : World)
  (s : Snake) (h0 : Position) (rest : list Position)
  (Hnth : nth_error (snakes w) i = Some s)
  (Halive : isDead s = false)
  (Hseg : segments s = h0 :: rest) :
  exists w' s',
    updateSnake c i w = Some w'
    /\ nth_error (snakes w') i = Some s'
    /\ isPlayer s' = isPlayer s
    /\ gameOver w' = gameOver w || (isPlayer s && isDead s')
    /\ gameRunning w' = gameRunning w && negb (isPlayer s && isDead s').
Proof.
  destruct (updateSnake_living c i w s h0 rest Hnth Halive Hseg)
    as [w' [d [dies [Hw' [Hsn [_ [_ [_ [_ [_ [_ [_ [Ho Hr]]]]]]]]]]]]].
  cbv zeta in Hsn.
  exists w'. eexists.
  split; [exact Hw'|].
  split; [rewrite Hsn; eapply nth_error_storeAt; exact Hnth|].
  unfold updatedSnake. cbn [isPlayer isDead setIsDead setSegments setDirection].
  split; [reflexivity|].
  rewrite Ho, Hr.
  destruct dies, (isPlayer s), (gameOver w), (gameRunning w); split; reflexivity.
Qed.

Lemma updateSnake_game_over_witness :
  exists w' s',
    updateSnake (render feastWorld) 0 feastWorld = Some w'
    /\ nth_error (snakes w') 0 = Some s'
    /\ gameOver w' = gameOver feastWorld || (true && isDead s').
Proof.
  destruct (updateSnake_game_over (render feastWorld) 0 feastWorld
              playerAt100 (mkPos 100 100)
              [mkPos 92 100; mkPos 84 100; mkPos 76 100; mkPos 68 100]
              eq_refl eq_refl eq_refl)
    as [w' [s' [H1 [H2 [_ [H3 _]]]]]].
  exists w', s'. repeat split; assumption.
Defined.

(** How a call of [updateSnake] that returns found its snake. *)
Lemma updateSnake_returns c i w w' :
  updateSnake c i w = Some w' ->
  exists s,
    nth_error (snakes w) i = Some s
    /\ ((isDead s = true /\ w' = w)
        \/ (isDead s = false /\ exists h0 rest, segments s = h0 :: rest)).
Proof.
  unfold updateSnake.
  destruct (nth_error (snakes w) i) as [s|]; [|discriminate].
  intros H. exists s. split; [reflexivity|].
  destruct (isDead s) eqn:Hd.
  - left. injection H as <-. split; reflexivity.
  - right. split; [reflexivity|].
    destruct (segments s) as [|h0 rest] eqn:Hseg; [|exists h0, rest; reflexivity].
    exfalso. unfold updateAI in H. rewrite Hd, Hseg, orb_false_r in H.
    destruct (isPlayer s) eqn:Hp; [|discriminate].
    unfold steerPlayer in H. rewrite Hp, Hseg in H. discriminate.
Qed.

(** X24: a call of [updateSnake] that returns leaves the array of snakes
    at its length and every other snake as it was. *)
Theorem updateSnake_leaves_others (c : Render) (i : nat) (w w' : World)
  (Hret : updateSnake c i w = Some w') :
  List.length (snakes w') = List.length (snakes w)
  /\ forall j, j <> i -> nth_error (snakes w') j = nth_error (snakes w) j.
Proof.
  destruct (updateSnake_returns c i w w' Hret)
    as [s [Hnth [[_ ->] | [Halive [h0 [rest Hseg]]]]]].
  - split; [reflexivity | intros; reflexivity].
  - destruct (updateSnake_living c i w s h0 rest Hnth Halive Hseg)
      as [w1 [d [dies [Hw1 [Hsn _]]]]].
    rewrite Hw1 in Hret. injection Hret as <-.
    cbv zeta in Hsn. rewrite Hsn.
    split; [apply storeAt_length|].
    intros j Hj. apply nth_error_storeAt_other. congruence.
Qed.

Lemma updateSnake_leaves_others_witness :
  exists w',
    updateSnake (render feastWorld) 0 feastWorld = Some w'
    /\ List.length (snakes w') = 1%nat.
Proof.
  destruct (updateSnake_living (render feastWorld) 0 feastWorld
              playerAt100 (mkPos 100 100)
              [mkPos 92 100; mkPos 84 100; mkPos 76 100; mkPos 68 100]
              eq_refl eq_refl eq_refl) as [w' [d [dies [Hw' _]]]].
  exists w'. split; [exact Hw'|].
  apply (updateSnake_leaves_others (render feastWorld) 0 feastWorld w' Hw').
Defined.

(** *** Collisions *)

Lemma ltb_true_iff a b : ltb a b = true <-> a < b.
Proof.
  destruct (ltb_cases a b) as [[H ->] | [H ->]]; split; intros; try lra;
    try reflexivity; discriminate.
Qed.

Lemma touchesFrom_later self other head segs : forall index,
  touchesFrom self other head (S index) segs = true
  <-> exists seg, In seg segs
                  /\ distanceTo (px seg) (py seg) head < SEGMENT_SIZE.
Proof.
  induction segs as [|segment rest IH]; intros index.
  - cbn. split; [discriminate | intros [? [[] _]]].
  - rewrite touchesFrom_cons. cbn [Nat.eqb andb].
    rewrite orb_true_iff, IH, ltb_true_iff. split.
    + intros [H | [seg [Hin H]]].
      * exists segment. split; [left; reflexivity | exact H].
      * exists seg. split; [right; exact Hin | exact H].
    + intros [seg [[<- | Hin] H]]; [left; exact H|].
      right. exists seg. split; assumption.
Qed.

(** X25: the collision test of [updateSnake] finds a hit exactly when the
    head is closer than [SEGMENT_SIZE] to a segment, other than the head,
    of a living snake of another id: neither heads, nor dead snakes, nor
    the snake's own body count. *)
Theorem collides_iff (self : SnakeId) (head : Position)
  (others : list Snake) :
  collides self head others = true
  <-> exists other seg,
        In other others
        /\ id_eqb (id other) self = false /\ isDead other = false
        /\ In seg (tl (segments other))
        /\ distanceTo (px seg) (py seg) head < SEGMENT_SIZE.
Proof.
  unfold collides. rewrite existsb_exists. split.
  - intros [other [Hin H]].
    destruct (id_eqb (SlitherGame.id other) self) eqn:Hid; [discriminate|].
    destruct (isDead other) eqn:Hd; [discriminate|]. cbn [orb] in H.
    destruct (segments other) as [|s0 rest] eqn:Hseg; [discriminate|].
    rewrite touchesFrom_cons, Hid in H. cbn in H.
    apply touchesFrom_later in H. destruct H as [seg [Hs Hnear]].
    exists other, seg. rewrite Hseg. repeat split; assumption.
  - intros [other [seg [Hin [Hid [Hd [Hs Hnear]]]]]].
    exists other. split; [exact Hin|]. rewrite Hid, Hd. cbn [orb].
    destruct (segments other) as [|s0 rest]; [destruct Hs|].
    rewrite touchesFrom_cons, Hid. cbn.
    apply touchesFrom_later. exists seg. split; assumption.
Qed.

Lemma collides_iff_witness :
  collides (ai 0) (mkPos 76 107) [playerMoved; aiMoved] = true.
Proof.
  apply (collides_iff (ai 0) (mkPos 76 107) [playerMoved; aiMoved]).
  exists playerMoved, (mkPos 76 100).
  split; [left; reflexivity|]. split; [reflexivity|].
  split; [reflexivity|]. split; [cbn; tauto|].
  unfold distanceTo. cbn [px py].
  apply sqrt_below; unfold SEGMENT_SIZE; lra.
Defined.

(** *** Frames *)

Lemma Forall_storeAt {T : Type} (P : T -> Prop) (v : T) (l : list T) :
  forall i, P v -> Forall P l -> Forall P (storeAt i v l).
Proof.
  induction l as [|x l IH]; intros [|i] Hv Hl; cbn; try exact Hl.
  - inversion Hl; subst. constructor; assumption.
  - inversion Hl; subst. constructor; [assumption | apply IH; assumption].
Qed.

Lemma updatedSnake_segments aimed h0 rest ate dies :
  segments (updatedSnake aimed h0 rest ate dies) <> [].
Proof.
  unfold updatedSnake. cbn [segments setIsDead setSegments].
  destruct ate; discriminate.
Qed.

(** One update in a world whose snakes have segments. *)
Lemma updateSnake_total c i w :
  hasSegments w -> (i < List.length (snakes w))%nat ->
  exists w',
    updateSnake c i w = Some w'
    /\ hasSegments w'
    /\ List.length (snakes w') = List.length (snakes w)
    /\ (List.length (foods w') <= List.length (foods w))%nat.
Proof.
  intros Hseg Hi. unfold hasSegments in *.
  destruct (nth_error (snakes w) i) as [s|] eqn:Hnth;
    [|apply nth_error_None in Hnth; lia].
  destruct (isDead s) eqn:Hd.
  - exists w. unfold updateSnake. rewrite Hnth, Hd.
    split; [reflexivity|]. split; [exact Hseg|].
    split; [reflexivity | lia].
  - assert (Hs : segments s <> []).
    { rewrite Forall_forall in Hseg. apply Hseg.
      eapply nth_error_In. exact Hnth. }
    destruct (segments s) as [|h0 rest] eqn:Hss; [contradiction|].
    destruct (updateSnake_living c i w s h0 rest Hnth Hd Hss)
      as [w' [d [dies [Hw' [Hsn [_ [Hfd _]]]]]]].
    cbv zeta in Hsn, Hfd.
    exists w'. split; [exact Hw'|]. rewrite Hsn, Hfd.
    split; [|split; [apply storeAt_length | apply filter_length_le]].
    apply Forall_storeAt; [apply updatedSnake_segments | exact Hseg].
Qed.

Lemma forEachSnake_total c count : forall k w,
  hasSegments w -> (k + count = List.length (snakes w))%nat ->
  exists w',
    forEachSnake c k count w = Some w'
    /\ hasSegments w'
    /\ List.length (snakes w') = List.length (snakes w)
    /\ (List.length (foods w') <= List.length (foods w))%nat.
Proof.
  induction count as [|count IH]; intros k w Hseg Hlen.
  - exists w. cbn [forEachSnake].
    split; [reflexivity|]. split; [exact Hseg|].
    split; [reflexivity | lia].
  - destruct (updateSnake_total c k w Hseg ltac:(lia))
      as [w1 [Hw1 [Hseg1 [Hl1 Hf1]]]].
    destruct (IH (S k) w1 Hseg1 ltac:(lia)) as [w2 [Hw2 [Hseg2 [Hl2 Hf2]]]].
    exists w2. cbn [forEachSnake]. rewrite Hw1, Hw2.
    split; [reflexivity|]. split; [exact Hseg2|]. split; lia.
Qed.

Lemma followPlayer_total w :
  hasSegments w ->
  exists w', followPlayer w = Some w'
             /\ snakes w' = snakes w /\ foods w' = foods w.
Proof.
  intros Hseg. unfold followPlayer.
  destruct (find isPlayer (snakes w)) as [p|] eqn:Hfind;
    [|exists w; repeat split; reflexivity].
  destruct (isDead p); cbn [negb];
    [exists w; repeat split; reflexivity|].
  apply find_some in Hfind. destruct Hfind as [Hin _].
  unfold hasSegments in Hseg. rewrite Forall_forall in Hseg.
  specialize (Hseg p Hin).
  destruct (segments p) as [|head rest]; [contradiction|].
  eexists. repeat split; reflexivity.
Qed.

Lemma replaceDead_foods now w : foods (replaceDead now w) = foods w.
Proof.
  unfold replaceDead.
  destruct (arrayFilter_pushes Snake World (list Food) snakes
              (replaceCallback now) survives foods (fun a _ => a)
              (replaceCallback_selects now) (replaceCallback_appends now))
    with (st := w) as [_ Hs].
  - intros v st. unfold replaceCallback.
    destruct (negb (isPlayer v) && isDead v); reflexivity.
  - destruct (arrayFilter snakes (replaceCallback now) w) as [kept w'].
    cbn [snd] in Hs. cbn [foods setSnakes]. rewrite Hs.
    clear. induction (snakes w); [reflexivity | assumption].
Qed.

Lemma gameLoop_frame c now w :
  hasSegments w ->
  exists w',
    gameLoop c now w = Some w'
    /\ hasSegments w'
    /\ (List.length (snakes w') <= List.length (snakes w))%nat
    /\ (List.length (foods w') <= List.length (foods w))%nat
    /\ (r_gameRunning c = true -> r_gameOver c = false ->
        Forall (fun s => isPlayer s = true \/ isDead s = false) (snakes w')).
Proof.
  intros Hseg. unfold gameLoop.
  destruct (negb (r_gameRunning c) || r_gameOver c) eqn:Hguard.
  - exists w. split; [reflexivity|]. split; [exact Hseg|].
    split; [lia|]. split; [lia|].
    intros Hr Ho. rewrite Hr, Ho in Hguard. discriminate.
  - destruct (forEachSnake_total c (List.length (snakes w)) 0 w Hseg
                ltac:(lia)) as [w1 [Hw1 [Hseg1 [Hl1 Hf1]]]].
    destruct (followPlayer_total w1 Hseg1) as [w2 [Hw2 [Hsn2 Hfd2]]].
    rewrite Hw1, Hw2. exists (replaceDead now w2).
    split; [reflexivity|].
    rewrite replaceDead_snakes, replaceDead_foods, Hsn2, Hfd2.
    split; [|split; [|split; [exact Hf1|]]].
    + unfold hasSegments. rewrite replaceDead_snakes, Hsn2.
      apply Forall_forall. intros s Hs. apply filter_In in Hs.
      unfold hasSegments in Hseg1. rewrite Forall_forall in Hseg1.
      apply Hseg1. apply Hs.
    + rewrite <- Hl1. apply filter_length_le.
    + intros _ _. apply Forall_forall. intros s Hs.
      apply filter_In in Hs. destruct Hs as [_ Hs]. unfold survives in Hs.
      destruct (isPlayer s), (isDead s); cbn in Hs;
        try discriminate; auto.
Qed.

(** X26: in a world whose snakes all have a segment, [gameLoop] returns a
    world of the same kind, with no more snakes and no more food than
    before; when it has captured a running game it leaves no dead
    non-player snake in the array. *)
Theorem gameLoop_total (c : Render) (now : Z) (w : World)
  (Hseg : hasSegments w) :
  exists w',
    gameLoop c now w = Some w'
    /\ hasSegments w'
    /\ (List.length (snakes w') <= List.length (snakes w))%nat
    /\ (List.length (foods w') <= List.length (foods w))%nat
    /\ (r_gameRunning c = true -> r_gameOver c = false ->
        Forall (fun s => isPlayer s = true \/ isDead s = false) (snakes w')).
Proof. apply gameLoop_frame. exact Hseg. Qed.

Lemma crashWorld_hasSegments : hasSegments crashWorld.
Proof.
  unfold hasSegments. cbn [snakes crashWorld].
  repeat (apply Forall_cons; [discriminate|]). apply Forall_nil.
Qed.

Lemma gameLoop_total_witness :
  exists w', gameLoop (render crashWorld) 0 crashWorld = Some w'
             /\ hasSegments w'.
Proof.
  destruct (gameLoop_total (render crashWorld) 0 crashWorld
              crashWorld_hasSegments) as [w' [H1 [H2 _]]].
  exists w'. split; assumption.
Defined.

Lemma snakes_setGameRunning b w : snakes (setGameRunning b w) = snakes w.
Proof. reflexivity. Qed.

Lemma foods_setGameRunning b w : foods (setGameRunning b w) = foods w.
Proof. reflexivity. Qed.

Lemma initializeGame_hasSegments w : hasSegments (initializeGame w).
Proof.
  destruct (initializeGame_parts w)
    as [p [ais [Hsn [_ [_ [_ [_ [_ [Hfresh _]]]]]]]]].
  unfold hasSegments. rewrite Hsn.
  eapply Forall_impl; [|exact Hfresh].
  intros s [Hlen _] E. rewrite E in Hlen. discriminate.
Qed.

(** X27: from the world [startGame] makes, any number of frames returns:
    no frame ever reads the head of a snake without segments, and the
    six snakes and 200 food items of the start are never exceeded. *)
Theorem frames_after_start (c : Render) (nows : list Z) (w : World) :
  exists w',
    frames c nows (startGame w) = Some w'
    /\ hasSegments w'
    /\ (List.length (snakes w') <= 6)%nat
    /\ (List.length (foods w') <= 200)%nat.
Proof.
  assert (Hstart : hasSegments (startGame w)
                   /\ (List.length (snakes (startGame w)) <= 6)%nat
                   /\ (List.length (foods (startGame w)) <= 200)%nat).
  { pose proof (initializeGame_hasSegments w) as Hseg.
    destruct (initializeGame_parts w)
      as [p [ais [Hsn [_ [_ [_ [Hids [_ [_ [Hfd _]]]]]]]]]].
    unfold hasSegments in *. unfold startGame.
    rewrite snakes_setGameRunning, foods_setGameRunning.
    split; [exact Hseg|].
    rewrite Hsn, Hfd.
    apply (f_equal (@List.length SnakeId)) in Hids.
    rewrite length_map in Hids. cbn [List.length] in *.
    unfold FOOD_COUNT. lia. }
  revert Hstart. generalize (startGame w) as w0.
  induction nows as [|now later IH]; intros w0 [Hseg [Hs Hf]].
  - exists w0. cbn [frames].
    split; [reflexivity|]. split; [exact Hseg|]. split; assumption.
  - destruct (gameLoop_frame c now w0 Hseg) as [w1 [Hw1 [Hseg1 [Hs1 [Hf1 _]]]]].
    destruct (IH w1) as [w' [Hw' H]];
      [split; [exact Hseg1|]; split; lia|].
    exists w'. cbn [frames]. rewrite Hw1, Hw'. split; [reflexivity | exact H].
Qed.

(** *** Drawing *)

Lemma inView_true camera x y :
  inView camera x y = true
  <-> -50 < x + px camera < CANVAS_WIDTH + 50
      /\ -50 < y + py camera < CANVAS_HEIGHT + 50.
Proof.
  unfold inView. rewrite !andb_true_iff, !ltb_true_iff. tauto.
Qed.

(** X28: once the camera follows the player, [draw] draws the player's
    head, which the translation puts at the centre of the canvas, only
    while the head is in 175 < x < 625 and 125 < y < 475 of the world: the
    test adds the camera where the translation subtracts it. *)
Theorem followed_head_drawn (w : World) (p : Snake) (h0 : Position)
  (rest : list Position)
  (Hfind : find isPlayer (snakes w) = Some p)
  (Halive : isDead p = false)
  (Hseg : segments p = h0 :: rest) :
  exists w',
    followPlayer w = Some w'
    /\ px h0 - px (camera w') = CANVAS_WIDTH / 2
    /\ py h0 - py (camera w') = CANVAS_HEIGHT / 2
    /\ (drawSegment (camera w') p 0 h0 <> []
        <-> 175 < px h0 < 625 /\ 125 < py h0 < 475).
Proof.
  unfold followPlayer. rewrite Hfind, Halive, Hseg. cbn [negb].
  eexists. split; [reflexivity|].
  cbn [camera setCamera px py].
  split; [lra|]. split; [lra|].
  unfold drawSegment.
  destruct (inView _ (px h0) (py h0)) eqn:Hview.
  - apply inView_true in Hview. cbn [px py] in Hview.
    unfold CANVAS_WIDTH, CANVAS_HEIGHT in Hview.
    split; [intros _; lra | intros _; discriminate].
  - split; [intros H; contradiction|].
    intros Hin. exfalso.
    assert (Ht : inView (mkPos (px h0 - CANVAS_WIDTH / 2)
                               (py h0 - CANVAS_HEIGHT / 2))
                        (px h0) (py h0) = true).
    { apply inView_true. cbn [px py].
      unfold CANVAS_WIDTH, CANVAS_HEIGHT. lra. }
    congruence.
Qed.

Lemma followed_head_drawn_witness :
  exists w',
    followPlayer feastWorld = Some w'
    /\ drawSegment (camera w') playerAt100 0 (mkPos 100 100) = [].
Proof.
  destruct (followed_head_drawn feastWorld playerAt100 (mkPos 100 100)
              [mkPos 92 100; mkPos 84 100; mkPos 76 100; mkPos 68 100]
              eq_refl eq_refl eq_refl) as [w' [H1 [_ [_ H2]]]].
  exists w'. split; [exact H1|].
  destruct (drawSegment (camera w') playerAt100 0 (mkPos 100 100))
    as [|call calls] eqn:E; [reflexivity|].
  assert (Hne : call :: calls <> []) by discriminate.
  apply H2 in Hne. cbn [px py] in Hne. lra.
Defined.

Lemma drawSegments_cons camera snake index segment rest :
  drawSegments camera snake index (segment :: rest)
  = drawSegment camera snake index segment
    ++ drawSegments camera snake (S index) rest.
Proof. reflexivity. Qed.

(** The circles of one segment. *)
Lemma drawSegment_arcs camera snake index segment x y r a b :
  In (arc x y r a b) (drawSegment camera snake index segment)
  <-> inView camera (px segment) (py segment) = true
      /\ a = 0 /\ b = PI * 2
      /\ ((x = px segment /\ y = py segment
           /\ r = if Nat.eqb index 0 then SEGMENT_SIZE + 2 else SEGMENT_SIZE)
          \/ (index = 0%nat
              /\ exists first,
                  x = px segment + cos (eyeAngle snake first) * 3
                  /\ y = py segment + sin (eyeAngle snake first) * 3
                  /\ r = 2)).
Proof.
  unfold drawSegment.
  destruct (inView camera (px segment) (py segment)) eqn:Hview.
  - destruct index as [|index]; cbn [Nat.eqb app In]; split.
    + intros [H | [H | [H | [H | [H | [H | [H | [H | [H | [H | [H | []]]]]]]]]]]];
        try discriminate; injection H as Hx Hy Hr Ha Hb; subst;
        (split; [reflexivity|]); (split; [reflexivity|]);
        (split; [reflexivity|]).
      * left. repeat split; reflexivity.
      * right. split; [reflexivity|]. exists true. repeat split; reflexivity.
      * right. split; [reflexivity|]. exists false. repeat split; reflexivity.
    + intros [_ [Ha [Hb [[Hx [Hy Hr]] | [_ [first [Hx [Hy Hr]]]]]]]]; subst.
      * right. right. left. reflexivity.
      * destruct first.
        -- do 6 right. left. reflexivity.
        -- do 9 right. left. reflexivity.
    + intros [H | [H | [H | [H | []]]]]; try discriminate.
      injection H as Hx Hy Hr Ha Hb; subst.
      split; [reflexivity|]. split; [reflexivity|]. split; [reflexivity|].
      left. repeat split; reflexivity.
    + intros [_ [Ha [Hb [[Hx [Hy Hr]] | [Hi _]]]]]; [|discriminate].
      subst. right. right. left. reflexivity.
  - split; [intros []|]. intros [H _]. discriminate.
Qed.

(** The circles of the segments of one snake. *)
Lemma drawSegments_arcs camera snake x y r a b segs : forall index,
  In (arc x y r a b) (drawSegments camera snake index segs)
  <-> exists i segment,
        nth_error segs i = Some segment
        /\ In (arc x y r a b)
              (drawSegment camera snake (index + i) segment).
Proof.
  induction segs as [|s0 rest IH]; intros index.
  - split; [intros []|]. intros [i [segment [H _]]].
    destruct i; discriminate.
  - rewrite drawSegments_cons. split.
    + intros H. apply in_app_or in H. destruct H as [H | H].
      * exists 0%nat, s0. split; [reflexivity|].
        rewrite Nat.add_0_r. exact H.
      * apply IH in H. destruct H as [i [segment [Hn H]]].
        exists (S i), segment. split; [exact Hn|].
        rewrite Nat.add_succ_r. exact H.
    + intros [i [segment [Hn H]]]. apply in_or_app.
      destruct i as [|i].
      * left. injection Hn as Hn. subst. rewrite Nat.add_0_r in H. exact H.
      * right. apply IH. exists i, segment. split; [exact Hn|].
        rewrite Nat.add_succ_r in H. exact H.
Qed.

(** X29: [draw] makes a circle exactly for each food item that passes
    the view test, at the item's position and of its size; for each
    segment that passes the view test of a snake that is not dead, of
    radius [SEGMENT_SIZE + 2] for the head and [SEGMENT_SIZE] for the
    others; and for the two eyes, of radius 2, of each such head.  Every
    one is a full circle.  So no circle is drawn for a dead snake, for a
    segment or an item that fails the test, and none is left out. *)
Theorem draw_circles (camera : Position) (w : World) (x y r a b : R) :
  In (arc x y r a b) (draw true true camera w)
  <-> a = 0 /\ b = PI * 2 /\ Circle camera w x y r.
Proof.
  unfold draw. cbn [negb]. split.
  - intros Hin. apply in_app_or in Hin. destruct Hin as [Hin | Hin].
    { cbn [In] in Hin.
      destruct Hin as [H | [H | [H | [H | [H | [H | [H | []]]]]]]];
        discriminate. }
    apply in_app_or in Hin. destruct Hin as [Hin | Hin].
    { apply in_flat_map in Hin. destruct Hin as [f [Hf Hin]].
      unfold drawFood in Hin.
      destruct (inView camera (fx f) (fy f)) eqn:Hview; [|destruct Hin].
      destruct Hin as [H | [H | [H | [H | []]]]]; try discriminate.
      injection H as Hx Hy Hr Ha Hb. subst.
      split; [reflexivity|]. split; [reflexivity|].
      apply FoodCircle; assumption. }
    apply in_app_or in Hin. destruct Hin as [Hin | Hin].
    { apply in_flat_map in Hin. destruct Hin as [s [Hs Hin]].
      unfold drawSnake in Hin.
      destruct (isDead s) eqn:Hd; [destruct Hin|].
      apply drawSegments_arcs in Hin.
      destruct Hin as [i [segment [Hn Hin]]].
      apply drawSegment_arcs in Hin. cbn [Nat.add] in Hin.
      destruct Hin as [Hview [Ha [Hb [[Hx [Hy Hr]] | [Hi [first [Hx [Hy Hr]]]]]]]];
        subst; (split; [reflexivity|]); (split; [reflexivity|]).
      - apply (SegmentCircle camera w s i segment); assumption.
      - destruct (segments s) as [|head rest] eqn:Hseg; [discriminate|].
        injection Hn as Hn. subst.
        apply (EyeCircle camera w s segment rest first); assumption. }
    destruct Hin as [H | []]. discriminate.
  - intros [Ha [Hb HC]]. subst. apply in_or_app. right.
    destruct HC as [f Hf Hview | s i segment Hs Hd Hn Hview
                    | s head rest first Hs Hd Hseg Hview].
    + apply in_or_app. left. apply in_flat_map. exists f.
      split; [exact Hf|]. unfold drawFood. rewrite Hview.
      right. right. left. reflexivity.
    + apply in_or_app. right. apply in_or_app. left.
      apply in_flat_map. exists s. split; [exact Hs|].
      unfold drawSnake. rewrite Hd. apply drawSegments_arcs.
      exists i, segment. split; [exact Hn|]. apply drawSegment_arcs.
      cbn [Nat.add]. split; [exact Hview|].
      split; [reflexivity|]. split; [reflexivity|].
      left. repeat split; reflexivity.
    + apply in_or_app. right. apply in_or_app. left.
      apply in_flat_map. exists s. split; [exact Hs|].
      unfold drawSnake. rewrite Hd. apply drawSegments_arcs.
      exists 0%nat, head. split; [rewrite Hseg; reflexivity|].
      apply drawSegment_arcs. cbn [Nat.add]. split; [exact Hview|].
      split; [reflexivity|]. split; [reflexivity|].
      right. split; [reflexivity|]. exists first. repeat split; reflexivity.
Qed.

Lemma draw_circles_witness :
  In (arc 100 100 (SEGMENT_SIZE + 2) 0 (PI * 2))
     (draw true true (mkPos 0 0) crashWorld)
  /\ ~ In (arc 100 100 SEGMENT_SIZE 0 (PI * 2))
          (draw true true (mkPos 0 0) (setSnakes [setIsDead true playerAt100]
                                         crashWorld)).
Proof.
  split.
  - apply (proj2 (draw_circles (mkPos 0 0) crashWorld 100 100
                    (SEGMENT_SIZE + 2) 0 (PI * 2))).
    split; [reflexivity|]. split; [reflexivity|].
    apply (SegmentCircle (mkPos 0 0) crashWorld playerAt100 0 (mkPos 100 100)).
    + left. reflexivity.
    + reflexivity.
    + reflexivity.
    + apply inView_true. cbn [px py]. unfold CANVAS_WIDTH, CANVAS_HEIGHT. lra.
  - intros H.
    apply (proj1 (draw_circles (mkPos 0 0) _ 100 100 SEGMENT_SIZE 0 (PI * 2)))
      in H.
    destruct H as [_ [_ HC]].
    inversion HC as [f Hf | s i segment Hs Hd | s head rest first Hs Hd].
    + destruct Hf.
    + destruct Hs as [Hs | []]. subst s. discriminate Hd.
    + destruct Hs as [Hs | []]. subst s. discriminate Hd.
Defined.

End SlitherGameSpec.
